(** * diagram-ai backend: MCP connection manager and session store

    A shallow embedding of [MCPClient] (connection manager and draw.io tool
    wrappers) and of [SessionManager] (SQLite-backed session store and its
    expiry sweep), with the properties of the design document proved or
    refuted on it.

    Conventions.
    - A JavaScript [Map<string, V>] is a [gmap string V].
    - Everything outside the two classes (the MCP SDK client, the child
      process behind a transport, SQLite and the order of its scans, the
      wall clock, the time zone of the host, [randomUUID]) is
      an explicit argument of the operation that consults it, or a script
      carried by the world and consumed one entry per call.
    - A thrown value is [thrown]; an [async] method returns a [result]
      together with the world it leaves behind.
    - Calls are taken one at a time, each running to completion; the
      interleaving of concurrent [async] calls is outside the model.
    - [console] output is not modelled. *)

From Stdlib Require Import ZArith.
From Equations Require Import Equations.
From stdpp Require Import gmap strings list fin_maps pretty sorting.

Local Open Scope string_scope.

(** ** Values thrown and results of [async] methods *)

Inductive thrown : Type :=
| ErrorObj (message : string)   (* an instance of [Error] *)
| NonError.                     (* anything else that was thrown *)

(** [error instanceof Error ? error.message : 'Unknown error'] *)
Definition errorMessage (e : thrown) : string :=
  match e with
  | ErrorObj m => m
  | NonError => "Unknown error"
  end.

Inductive result (A : Type) : Type :=
| Ok (a : A)
| Threw (e : thrown).
Arguments Ok {A} a.
Arguments Threw {A} e.

#[global] Instance thrown_eq_dec : EqDecision thrown.
Proof. solve_decision. Defined.

(** * The MCP client *)

Module MCP.

(** ** Data (src/backend/src/types, [MCPServerConfig]) *)

Record MCPServerConfig : Type := {
  name : string;
  command : string;
  args : list string;
  env : option (list (string * string))
}.

Record MCPTool : Type := {
  tool_name : string;
  description : string;
  inputSchema : string            (* opaque to the client *)
}.

Record ConnectionStatus : Type := {
  connected : bool;
  serverName : string;
  lastChecked : Z;                (* a [Date], in ms since the epoch *)
  error : option string
}.

(** One item of [response.content]; only [text] is ever read. *)
Record ContentItem : Type := { text : option string }.

(** A property value as the tool wrappers see it: a string, a number, or a
    member inherited from [Object.prototype] (a function, or the prototype
    object itself for [__proto__]). *)
Inductive jsprop : Type :=
| PString (s : string)
| PNumber (n : Z)
| PInherited (key : string).

#[global] Instance jsprop_eq_dec : EqDecision jsprop.
Proof. solve_decision. Defined.

(** The [arguments] object of a tool call, as its list of own properties. *)
Definition params : Type := list (string * jsprop).

(** Requests that reach a transport. The handle is the transport's
    creation number. *)
Inductive request : Type :=
| ListToolsReq (handle : nat)
| CallToolReq (handle : nat) (toolName : string) (arguments : params).

(** ** State

    The first five fields are the private fields of [MCPClient]; a [Client]
    and its [StdioClientTransport] are created together and both carry the
    transport's creation number as handle. The other fields instrument the
    environment: how many transports were constructed, which of them are
    started and not closed (with the name they were opened for), every
    request sent, and the clock. *)

Record World : Type := {
  clients : gmap string nat;
  transports : gmap string nat;
  connectionStatus : gmap string ConnectionStatus;
  tools : gmap string (list MCPTool);
  retryAttempts : gmap string nat;
  created : nat;
  live : list (string * nat);
  requests : list request;
  clock : Z
}.

Definition initial : World := {|
  clients := ∅; transports := ∅; connectionStatus := ∅; tools := ∅;
  retryAttempts := ∅; created := 0; live := []; requests := []; clock := 0
|}.

Definition MAX_RETRIES : nat := 3.
Definition BASE_DELAY : Z := 1000.

(** The number of attempts one [connect] can make: attempt 0 and then
    [MAX_RETRIES] retries. *)
Definition maxAttempts : nat := S MAX_RETRIES.

(** What the remote side does during one pass through the [try] block of
    [connectWithRetry]. *)
Inductive attempt_outcome : Type :=
| ConnectRejects (e : thrown)      (* [await client.connect(transport)] rejects *)
| ListToolsRejects (e : thrown)    (* it resolves; [await client.listTools()] rejects *)
| Established (ts : list MCPTool). (* both resolve *)

Definition failure_of (o : attempt_outcome) : option thrown :=
  match o with
  | ConnectRejects e | ListToolsRejects e => Some e
  | Established _ => None
  end.

(** ** Field updates *)

Definition newTransport (w : World) : World :=
  {| clients := clients w; transports := transports w;
     connectionStatus := connectionStatus w; tools := tools w;
     retryAttempts := retryAttempts w; created := S (created w);
     live := live w; requests := requests w; clock := clock w |}.

(** [client.connect(transport)] resolved for [n]: the transport is started,
    and both maps are set. *)
Definition storeClient (n : string) (h : nat) (w : World) : World :=
  {| clients := <[n := h]> (clients w); transports := <[n := h]> (transports w);
     connectionStatus := connectionStatus w; tools := tools w;
     retryAttempts := retryAttempts w; created := created w;
     live := live w ++ [(n, h)]; requests := requests w; clock := clock w |}.

Definition send (r : request) (w : World) : World :=
  {| clients := clients w; transports := transports w;
     connectionStatus := connectionStatus w; tools := tools w;
     retryAttempts := retryAttempts w; created := created w;
     live := live w; requests := requests w ++ [r]; clock := clock w |}.

Definition setTools (n : string) (ts : list MCPTool) (w : World) : World :=
  {| clients := clients w; transports := transports w;
     connectionStatus := connectionStatus w; tools := <[n := ts]> (tools w);
     retryAttempts := retryAttempts w; created := created w;
     live := live w; requests := requests w; clock := clock w |}.

Definition setStatus (n : string) (s : ConnectionStatus) (w : World) : World :=
  {| clients := clients w; transports := transports w;
     connectionStatus := <[n := s]> (connectionStatus w); tools := tools w;
     retryAttempts := retryAttempts w; created := created w;
     live := live w; requests := requests w; clock := clock w |}.

Definition setRetryAttempts (n : string) (k : nat) (w : World) : World :=
  {| clients := clients w; transports := transports w;
     connectionStatus := connectionStatus w; tools := tools w;
     retryAttempts := <[n := k]> (retryAttempts w); created := created w;
     live := live w; requests := requests w; clock := clock w |}.

(** [await this.sleep(ms)]: the only place where modelled time passes. *)
Definition sleep (ms : Z) (w : World) : World :=
  {| clients := clients w; transports := transports w;
     connectionStatus := connectionStatus w; tools := tools w;
     retryAttempts := retryAttempts w; created := created w;
     live := live w; requests := requests w; clock := (clock w + ms)%Z |}.

Definition statusOk (n : string) (w : World) : ConnectionStatus :=
  {| connected := true; serverName := n; lastChecked := clock w; error := None |}.

Definition statusFailed (n : string) (e : thrown) (w : World) : ConnectionStatus :=
  {| connected := false; serverName := n; lastChecked := clock w;
     error := Some (errorMessage e) |}.

(** ** [connect] and [connectWithRetry] *)

(** The [try] block of [connectWithRetry]: a transport and a client are
    constructed, then the outcome decides how far the block gets. *)
Definition tryConnect (config : MCPServerConfig) (o : attempt_outcome)
    (w : World) : result unit * World :=
  let h := created w in
  let w := newTransport w in
  match o with
  | ConnectRejects e => (Threw e, w)
  | ListToolsRejects e =>
      (Threw e, send (ListToolsReq h) (storeClient (name config) h w))
  | Established ts =>
      let w := send (ListToolsReq h) (storeClient (name config) h w) in
      let w := setTools (name config) ts w in
      let w := setStatus (name config) (statusOk (name config) w) w in
      (Ok (), setRetryAttempts (name config) 0 w)
  end.

Equations connectWithRetry (config : MCPServerConfig) (attempt : nat)
    (remote : nat -> attempt_outcome) (w : World) : result unit * World
    by wf (MAX_RETRIES - attempt) lt :=
connectWithRetry config attempt remote w
  with tryConnect config (remote attempt) w => {
  | (Ok _, w1) => (Ok (), w1)
  | (Threw e, w1) with lt_dec attempt MAX_RETRIES => {
    | left _ =>
        let delay := (BASE_DELAY * 2 ^ Z.of_nat attempt)%Z in
        let w2 := setRetryAttempts (name config) (attempt + 1) w1 in
        connectWithRetry config (attempt + 1) remote (sleep delay w2)
    | right _ =>
        (Threw e, setStatus (name config) (statusFailed (name config) e w1) w1)
    }
  }.
Next Obligation. lia. Qed.

Definition connect (config : MCPServerConfig) (remote : nat -> attempt_outcome)
    (w : World) : result unit * World :=
  connectWithRetry config 0 remote w.

(** ** [disconnect], [reconnect], [healthCheck] *)

Definition closeTransport (h : nat) (w : World) : World :=
  {| clients := clients w; transports := transports w;
     connectionStatus := connectionStatus w; tools := tools w;
     retryAttempts := retryAttempts w; created := created w;
     live := filter (λ p, p.2 ≠ h) (live w); requests := requests w;
     clock := clock w |}.

Definition forget (n : string) (w : World) : World :=
  {| clients := delete n (clients w); transports := delete n (transports w);
     connectionStatus := delete n (connectionStatus w);
     tools := delete n (tools w);
     retryAttempts := retryAttempts w; created := created w;
     live := live w; requests := requests w; clock := clock w |}.

(** [closes] are the outcomes of [client.close()] and [transport.close()];
    closing a client closes the transport it was connected with. *)
Definition disconnect (serverName : string) (closes : result unit * result unit)
    (w : World) : result unit * World :=
  match clients w !! serverName, transports w !! serverName with
  | Some c, Some t =>
      match closes.1 with
      | Threw e => (Threw e, w)
      | Ok _ =>
          let w := closeTransport c w in
          match closes.2 with
          | Threw e => (Threw e, w)
          | Ok _ => (Ok (), forget serverName (closeTransport t w))
          end
      end
  | _, _ => (Ok (), w)
  end.

Definition reconnect (serverName : string) (config : MCPServerConfig)
    (closes : result unit * result unit) (remote : nat -> attempt_outcome)
    (w : World) : result unit * World :=
  match disconnect serverName closes w with
  | (Threw e, w) => (Threw e, w)
  | (Ok _, w) => connect config remote w
  end.

(** [reply] is the outcome of [client.listTools()], consulted only when a
    client is stored for the name. *)
Definition healthCheck (serverName : string) (reply : result (list MCPTool))
    (w : World) : bool * World :=
  match clients w !! serverName with
  | None => (false, w)
  | Some h =>
      let w := send (ListToolsReq h) w in
      match reply with
      | Ok _ => (true, setStatus serverName (statusOk serverName w) w)
      | Threw e => (false, setStatus serverName (statusFailed serverName e w) w)
      end
  end.

(** ** [callTool] and the cached reads *)

Definition notConnected (serverName : string) : thrown :=
  ErrorObj ("Not connected to MCP server: " ++ serverName).

(** [reply] is the outcome of [client.callTool(...)]: the response's
    [content], or what it throws. *)
Definition callTool (serverName toolName : string) (p : params)
    (reply : result (list ContentItem)) (w : World)
    : result (list ContentItem) * World :=
  match clients w !! serverName with
  | None => (Threw (notConnected serverName), w)
  | Some h => (reply, send (CallToolReq h toolName p) w)
  end.

Definition listTools (serverName : string) (w : World) : list MCPTool :=
  default [] (tools w !! serverName).

Definition getConnectionStatus (serverName : string) (w : World)
    : option ConnectionStatus :=
  connectionStatus w !! serverName.

(** ** The connection state of the design document, read off the status map *)

Inductive conn_state : Type := Disconnected | Connected | Failed.

Definition stateOf (n : string) (w : World) : conn_state :=
  match connectionStatus w !! n with
  | None => Disconnected
  | Some s => if connected s then Connected else Failed
  end.

(** ** Draw.io wrappers *)

Record Position : Type := { x : Z; y : Z }.

(** Own property names of [Object.prototype], which every object literal
    inherits. *)
Definition objectPrototype : list string :=
  [ "constructor"; "__defineGetter__"; "__defineSetter__"; "hasOwnProperty";
    "__lookupGetter__"; "__lookupSetter__"; "isPrototypeOf";
    "propertyIsEnumerable"; "toString"; "valueOf"; "__proto__";
    "toLocaleString" ].

Definition rectangleStyle : string :=
  "whiteSpace=wrap;html=1;fillColor=#dae8fc;strokeColor=#6c8ebf;".

Definition styles : list (string * string) :=
  [ ("rectangle", rectangleStyle);
    ("ellipse", "ellipse;whiteSpace=wrap;html=1;fillColor=#d5e8d4;strokeColor=#82b366;");
    ("cloud", "ellipse;shape=cloud;whiteSpace=wrap;html=1;fillColor=#fff2cc;strokeColor=#d6b656;");
    ("cylinder", "shape=cylinder3;whiteSpace=wrap;html=1;fillColor=#f8cecc;strokeColor=#b85450;");
    ("actor", "shape=umlActor;verticalLabelPosition=bottom;verticalAlign=top;html=1;fillColor=#e1d5e7;strokeColor=#9673a6;");
    ("default", rectangleStyle) ].

Fixpoint ownProperty (o : list (string * string)) (key : string) : option string :=
  match o with
  | [] => None
  | (k, v) :: o => if String.eqb k key then Some v else ownProperty o key
  end.

(** [o[key]] on an object literal [o]: an own property, else a member of
    [Object.prototype], else [undefined] ([None]). *)
Definition getProperty (o : list (string * string)) (key : string) : option jsprop :=
  match ownProperty o key with
  | Some v => Some (PString v)
  | None => if bool_decide (key ∈ objectPrototype) then Some (PInherited key) else None
  end.

Definition truthy (v : option jsprop) : bool :=
  match v with
  | None => false
  | Some (PString s) => negb (String.eqb s "")
  | Some (PNumber n) => negb (n =? 0)%Z
  | Some (PInherited _) => true
  end.

(** [a || b] where [b] is known to be defined. *)
Definition orElse (a : option jsprop) (b : jsprop) : jsprop :=
  match a with
  | Some v => if truthy a then v else b
  | None => b
  end.

(** [styles[type] || styles.default] *)
Definition getShapeStyle (type : string) : jsprop :=
  orElse (getProperty styles type) (PString rectangleStyle).

(** [result[0]?.text || ''] *)
Definition firstText (content : list ContentItem) : string :=
  match content with
  | {| text := Some t |} :: _ => t
  | _ => ""
  end.

Definition shapeParams (type label : string) (position : Position)
    (width height : Z) : params :=
  [ ("text", PString label); ("x", PNumber (x position));
    ("y", PNumber (y position)); ("width", PNumber width);
    ("height", PNumber height); ("style", getShapeStyle type) ].

(** [width] and [height] are optional, with defaults 120 and 60. *)
Definition createShape (type label : string) (position : Position)
    (width height : option Z) (reply : result (list ContentItem)) (w : World)
    : result string * World :=
  match callTool "drawio" "mcp_drawio_add_rectangle"
          (shapeParams type label position (default 120%Z width)
             (default 60%Z height)) reply w with
  | (Ok content, w) => (Ok (firstText content), w)
  | (Threw e, w) => (Threw e, w)
  end.

(** [algorithm] defaults to ['hierarchical']; the body only writes to the
    console. *)
Definition applyLayout (algorithm : option string) (w : World)
    : result unit * World :=
  (Ok (), w).

(** [format] defaults to ['xml']. *)
Definition exportDiagram (format : option string) (w : World)
    : result (list Byte.byte) * World :=
  (Threw (ErrorObj "Export not yet implemented"), w).

(** ** The other draw.io wrappers *)

(** [label] is optional; [label || ''] is the empty string when it is
    absent (or empty). *)
Definition createEdge (sourceId targetId : string) (label : option string)
    (reply : result (list ContentItem)) (w : World) : result string * World :=
  match callTool "drawio" "mcp_drawio_add_edge"
          [ ("source_id", PString sourceId); ("target_id", PString targetId);
            ("text", PString (default "" label)) ] reply w with
  | (Ok content, w) => (Ok (firstText content), w)
  | (Threw e, w) => (Threw e, w)
  end.

Record ShapeUpdate : Type := {
  label : option string;
  position : option Position;
  width : option Z;
  height : option Z;
  style : option string
}.

(** The [params] object [updateShape] builds, in the order the keys are
    assigned. A field goes in when it is not [undefined] ([position]: when
    it is truthy, which an object always is). *)
Definition updateParams (id : string) (updates : ShapeUpdate) : params :=
  ([("cell_id", PString id)]
   ++ match label updates with Some l => [("text", PString l)] | None => [] end
   ++ match position updates with
      | Some p => [("x", PNumber (x p)); ("y", PNumber (y p))]
      | None => []
      end
   ++ match width updates with Some n => [("width", PNumber n)] | None => [] end
   ++ match height updates with Some n => [("height", PNumber n)] | None => [] end
   ++ match style updates with Some s => [("style", PString s)] | None => [] end
  )%list.

Definition updateShape (id : string) (updates : ShapeUpdate)
    (reply : result (list ContentItem)) (w : World) : result unit * World :=
  match callTool "drawio" "mcp_drawio_edit_cell" (updateParams id updates)
          reply w with
  | (Ok _, w) => (Ok (), w)
  | (Threw e, w) => (Threw e, w)
  end.

Definition deleteShape (id : string) (reply : result (list ContentItem))
    (w : World) : result unit * World :=
  match callTool "drawio" "mcp_drawio_delete_cell_by_id"
          [("cell_id", PString id)] reply w with
  | (Ok _, w) => (Ok (), w)
  | (Threw e, w) => (Threw e, w)
  end.

Definition getShapeByName (shapeName : string)
    (reply : result (list ContentItem)) (w : World)
    : result (list ContentItem) * World :=
  callTool "drawio" "mcp_drawio_get_shape_by_name"
    [("shape_name", PString shapeName)] reply w.

(** [if (text) params.text = text]: an absent or empty [text] is left out. *)
Definition cellParams (shapeName : string) (position : Position)
    (text : option string) (width height : Z) : params :=
  ([ ("shape_name", PString shapeName); ("x", PNumber (x position));
     ("y", PNumber (y position)); ("width", PNumber width);
     ("height", PNumber height) ]
   ++ match text with
      | Some t => if truthy (Some (PString t)) then [("text", PString t)] else []
      | None => []
      end)%list.

(** [width] and [height] are optional, with defaults 120 and 60. *)
Definition addCellOfShape (shapeName : string) (position : Position)
    (text : option string) (width height : option Z)
    (reply : result (list ContentItem)) (w : World) : result string * World :=
  match callTool "drawio" "mcp_drawio_add_cell_of_shape"
          (cellParams shapeName position text (default 120%Z width)
             (default 60%Z height)) reply w with
  | (Ok content, w) => (Ok (firstText content), w)
  | (Threw e, w) => (Threw e, w)
  end.

(** The outcomes that leave a started transport behind: every one in which
    [client.connect] resolved. *)
Definition startsTransport (o : attempt_outcome) : bool :=
  match o with
  | ConnectRejects _ => false
  | ListToolsRejects _ | Established _ => true
  end.

(** What holds of the stored state in every world between calls. *)
Definition wellFormed (w : World) : Prop :=
  (∀ n s, connectionStatus w !! n = Some s →
     serverName s = n ∧ (connected s = true → is_Some (clients w !! n))) ∧
  (∀ n h, clients w !! n = Some h → h < created w) ∧
  (∀ n, is_Some (tools w !! n) → is_Some (clients w !! n)) ∧
  (∀ n h, (n, h) ∈ live w → h < created w).

(** ** Histories *)

Inductive step : World -> World -> Prop :=
| step_connect config remote w :
    step w (connect config remote w).2
| step_disconnect n closes w :
    step w (disconnect n closes w).2
| step_healthCheck n reply w :
    step w (healthCheck n reply w).2
| step_callTool n t p reply w :
    step w (callTool n t p reply w).2.

(** Worlds the client can be in between two calls. *)
Definition reachable (w : World) : Prop := rtc step initial w.

(** Every name with a client has a transport (the same handle) and a
    status entry. *)
Definition consistent (w : World) : Prop :=
  clients w = transports w ∧
  ∀ n, is_Some (clients w !! n) → is_Some (connectionStatus w !! n).

(** Transports started for [n] and not closed. *)
Definition liveFor (n : string) (w : World) : list (string * nat) :=
  filter (λ p, p.1 = n) (live w).

(** ** Sample data *)

Definition drawio : MCPServerConfig :=
  {| name := "drawio"; command := "npx"; args := ["-y"; "drawio-mcp-server"];
     env := None |}.

Definition up : nat -> attempt_outcome := λ _, Established [].
Definition down : nat -> attempt_outcome :=
  λ i, ConnectRejects
         (ErrorObj (match i with
                    | 0 => "spawn failed (1st)"
                    | 1 => "spawn failed (2nd)"
                    | 2 => "spawn failed (3rd)"
                    | _ => "spawn failed (4th)"
                    end)).
(** Two refused attempts, then a server that answers. *)
Definition flaky : nat -> attempt_outcome :=
  λ i, if (i <? 2)%nat then down i else up i.

(** ** Auxiliary notions for the statements *)

Definition fails (o : attempt_outcome) : Prop := is_Some (failure_of o).

#[global] Instance fails_dec o : Decision (fails o).
Proof. unfold fails. apply _. Defined.

(** A series of health checks on one name, with the outcome of each. *)
Fixpoint healthChecks (n : string) (replies : list (result (list MCPTool)))
    (w : World) : World :=
  match replies with
  | [] => w
  | reply :: replies => healthChecks n replies (healthCheck n reply w).2
  end.

End MCP.

(** * The session store *)

Module Sessions.

(** ** Data (src/backend/src/types)

    A [Date] is its time value, in ms since the epoch. A [number] is an
    integer here; the store only copies numbers. *)

Definition number : Type := Z.

Inductive Role : Type := user | assistant | system.
Inductive LLMProvider : Type := openai | anthropic | bedrock | google.

Record DiagramMetadata : Type := {
  title : string;
  meta_createdAt : Z;
  modifiedAt : Z;
  elementCount : number;
  bounds : number * number          (* width, height *)
}.

Record DiagramData : Type := {
  diagram_id : string;
  content : string;                 (* [format] is always ['drawio-xml'] *)
  metadata : DiagramMetadata
}.

Record MessageMetadata : Type := {
  tokenCount : option number;
  processingTime : option number;
  msg_error : option string
}.

Record Message : Type := {
  msg_id : string;
  sessionId : string;
  role : Role;
  msg_content : string;
  timestamp : Z;
  diagramSnapshot : option DiagramData;
  msg_metadata : option MessageMetadata
}.

Record ConfigState : Type := {
  provider : LLMProvider;
  apiKey : string;
  model : string;
  temperature : option number;
  maxTokens : option number
}.

Record Session : Type := {
  id : string;
  createdAt : Z;
  lastAccessedAt : Z;
  chatHistory : list Message;
  currentDiagram : option DiagramData;   (* [None] is [null] *)
  config : ConfigState
}.

(** [Partial<Session>]: each key is absent ([None]) or present with a value
    of its type. *)
Record PartialSession : Type := {
  p_id : option string;
  p_createdAt : option Z;
  p_lastAccessedAt : option Z;
  p_chatHistory : option (list Message);
  p_currentDiagram : option (option DiagramData);
  p_config : option ConfigState
}.

Definition emptyPartial : PartialSession :=
  {| p_id := None; p_createdAt := None; p_lastAccessedAt := None;
     p_chatHistory := None; p_currentDiagram := None; p_config := None |}.

(** ** Text columns

    The text [toISOString] gives for a valid [Date] is represented by the
    instant it denotes: [new Date(text)] gives that instant back. The
    order in which SQLite's text comparison puts two such texts is
    [textLt], below. *)
Record isoText : Type := Iso { instant : Z }.

Definition toISOString (d : Z) : isoText := Iso d.

(** JSON text is represented by the value it parses to. The trip of a
    payload through [JSON.stringify] and [JSON.parse] is taken to be the
    identity, as it is on JSON data; a [Date] inside a message comes back
    as a string, which nothing below looks at. *)
Record json (A : Type) : Type := JsonText { parse : A }.
Arguments JsonText {A} _.
Arguments parse {A} _.

Definition stringify {A : Type} (v : A) : json A := JsonText v.

Record SessionRow : Type := {
  row_id : string;
  created_at : isoText;
  last_accessed_at : isoText;
  chat_history : json (list Message);
  current_diagram : option (json DiagramData);
  config_json : json ConfigState
}.

(** ** The [sessions] table behind [database]

    [id] is the primary key: the table is a map from the [id] column to
    the row. Each call of [database.run], [get] or [all]
    consumes the head of [faults]: [Some e] makes the call reject with [e]
    and leaves the table alone, [None] (or an empty script) lets the
    statement execute. *)

Record Database : Type := {
  sessions : gmap string SessionRow;
  faults : list (option thrown)
}.

Definition nextFault (db : Database) : option thrown * Database :=
  match faults db with
  | [] => (None, db)
  | f :: fs => (f, {| sessions := sessions db; faults := fs |})
  end.

Definition withSessions (m : gmap string SessionRow) (db : Database) : Database :=
  {| sessions := m; faults := faults db |}.

Definition constraintError : thrown :=
  ErrorObj "SQLITE_CONSTRAINT: UNIQUE constraint failed: sessions.id".

(** [INSERT INTO sessions (...) VALUES (?, ?, ?, ?, ?, ?)] *)
Definition run_insert (row : SessionRow) (db : Database) : result unit * Database :=
  match nextFault db with
  | (Some e, db) => (Threw e, db)
  | (None, db) =>
      match sessions db !! row_id row with
      | Some _ => (Threw constraintError, db)
      | None => (Ok (), withSessions (<[row_id row := row]> (sessions db)) db)
      end
  end.

(** [SELECT * FROM sessions WHERE id = ?] *)
Definition get_by_id (i : string) (db : Database)
    : result (option SessionRow) * Database :=
  match nextFault db with
  | (Some e, db) => (Threw e, db)
  | (None, db) => (Ok (sessions db !! i), db)
  end.

(** [UPDATE sessions SET last_accessed_at = ?, chat_history = ?,
    current_diagram = ?, config = ? WHERE id = ?] *)
Definition setColumns (la : isoText) (ch : json (list Message))
    (cd : option (json DiagramData)) (cf : json ConfigState)
    (row : SessionRow) : SessionRow :=
  {| row_id := row_id row; created_at := created_at row;
     last_accessed_at := la; chat_history := ch; current_diagram := cd;
     config_json := cf |}.

Definition run_update (la : isoText) (ch : json (list Message))
    (cd : option (json DiagramData)) (cf : json ConfigState) (i : string)
    (db : Database) : result unit * Database :=
  match nextFault db with
  | (Some e, db) => (Threw e, db)
  | (None, db) =>
      (Ok (), withSessions (alter (setColumns la ch cd cf) i (sessions db)) db)
  end.

(** [DELETE FROM sessions WHERE id = ?] *)
Definition run_delete (i : string) (db : Database) : result unit * Database :=
  match nextFault db with
  | (Some e, db) => (Threw e, db)
  | (None, db) => (Ok (), withSessions (delete i (sessions db)) db)
  end.

(** ** The order of ISO texts

    SQLite compares the [last_accessed_at] column with the bound parameter
    as text, byte by byte. [toISOString] writes the years 0000 to 9999 with
    four digits, a later year as [+] and six digits, an earlier one as [-]
    and the six digits of its absolute value; the rest of the text has one
    width. As bytes, [+] comes before [-] and [-] before the digits. So the
    texts of the years from 10000 on come first, in the order of their
    instants; then those of the negative years, by growing absolute year
    and within one year in the order of their instants; then the
    four-digit ones, in the order of their instants. *)

Definition msPerDay : Z := 86400000.

(** [0000-01-01T00:00:00.000Z] and [+010000-01-01T00:00:00.000Z] *)
Definition year0000 : Z := -62167219200000.
Definition year10000 : Z := 253402300800000.

(** [YearFromTime]: the year of an instant in the proleptic Gregorian
    calendar, counted from the day number in 400-year eras that start on
    the first of March. *)
Definition yearOf (t : Z) : Z :=
  (let z := t / msPerDay + 719468 in
   let era := z / 146097 in
   let doe := z - era * 146097 in
   let yoe := (doe - doe / 1460 + doe / 36524 - doe / 146096) / 365 in
   let doy := doe - (365 * yoe + yoe / 4 - yoe / 100) in
   let mp := (5 * doy + 2) / 153 in
   let m := if mp <? 10 then mp + 3 else mp - 9 in
   if m <=? 2 then yoe + era * 400 + 1 else yoe + era * 400)%Z.

(** The rank of the first character of the text, and the number its year
    digits add to it when the year is negative. *)
Definition isoPrefix (t : isoText) : Z * Z :=
  if (instant t <? year0000)%Z then (1, - yearOf (instant t))%Z
  else if (instant t <? year10000)%Z then (2, 0)%Z
  else (0, 0)%Z.

(** [a < b] on the texts *)
Definition textLt (a b : isoText) : Prop :=
  ((isoPrefix a).1 < (isoPrefix b).1 ∨
   (isoPrefix a).1 = (isoPrefix b).1 ∧
   ((isoPrefix a).2 < (isoPrefix b).2 ∨
    (isoPrefix a).2 = (isoPrefix b).2 ∧ instant a < instant b))%Z.

#[global] Instance textLt_dec a b : Decision (textLt a b).
Proof. unfold textLt. apply _. Defined.

Definition accessedBefore (cutoff : isoText) (row : SessionRow) : Prop :=
  textLt (last_accessed_at row) cutoff.

#[global] Instance accessedBefore_dec cutoff row : Decision (accessedBefore cutoff row).
Proof. unfold accessedBefore. apply _. Defined.

(** The order in which SQLite returns the rows of a scan is its own (with
    the index [idx_last_accessed] in use, by ascending [last_accessed_at]):
    it is given with the call, as the arrangement of the rows that
    qualify. *)
Definition ScanOrder : Type :=
  list (string * SessionRow) → list (string * SessionRow).

(** [SELECT id FROM sessions WHERE last_accessed_at < ?]: the keys of the
    rows that qualify, in the order of the scan. *)
Definition all_accessedBefore (cutoff : isoText) (order : ScanOrder)
    (db : Database) : result (list string) * Database :=
  match nextFault db with
  | (Some e, db) => (Threw e, db)
  | (None, db) =>
      (Ok (order (map_to_list (filter (λ kr, accessedBefore cutoff kr.2)
                                 (sessions db)))).*1, db)
  end.

(** ** [SessionManager] *)

Definition defaultConfig : ConfigState :=
  {| provider := openai; apiKey := ""; model := "gpt-4";
     temperature := None; maxTokens := None |}.

Definition rowToSession (row : SessionRow) : Session :=
  {| id := row_id row;
     createdAt := instant (created_at row);
     lastAccessedAt := instant (last_accessed_at row);
     chatHistory := parse (chat_history row);
     currentDiagram := parse <$> current_diagram row;
     config := parse (config_json row) |}.

(** [uuid] is what [randomUUID()] returns; [t1] and [t2] are the readings
    of the two [new Date()] in the object literal, in evaluation order. *)
Definition createSession (uuid : string) (t1 t2 : Z) (db : Database)
    : result Session * Database :=
  let session :=
    {| id := uuid; createdAt := t1; lastAccessedAt := t2; chatHistory := [];
       currentDiagram := None; config := defaultConfig |} in
  match run_insert
          {| row_id := id session;
             created_at := toISOString (createdAt session);
             last_accessed_at := toISOString (lastAccessedAt session);
             chat_history := stringify (chatHistory session);
             current_diagram := None;
             config_json := stringify (config session) |} db with
  | (Threw e, db) => (Threw e, db)
  | (Ok _, db) => (Ok session, db)
  end.

Definition getSession (i : string) (db : Database)
    : result (option Session) * Database :=
  match get_by_id i db with
  | (Threw e, db) => (Threw e, db)
  | (Ok None, db) => (Ok None, db)
  | (Ok (Some row), db) => (Ok (Some (rowToSession row)), db)
  end.

Definition notFound (i : string) : thrown :=
  ErrorObj ("Session " ++ i ++ " not found").

(** [{ ...session, ...data, lastAccessedAt: new Date() }] *)
Definition merge (session : Session) (data : PartialSession) (now : Z) : Session :=
  {| id := default (id session) (p_id data);
     createdAt := default (createdAt session) (p_createdAt data);
     lastAccessedAt := now;
     chatHistory := default (chatHistory session) (p_chatHistory data);
     currentDiagram := default (currentDiagram session) (p_currentDiagram data);
     config := default (config session) (p_config data) |}.

Definition updateSession (i : string) (data : PartialSession) (now : Z)
    (db : Database) : result unit * Database :=
  match getSession i db with
  | (Threw e, db) => (Threw e, db)
  | (Ok None, db) => (Threw (notFound i), db)
  | (Ok (Some session), db) =>
      let updated := merge session data now in
      run_update (toISOString (lastAccessedAt updated))
        (stringify (chatHistory updated))
        (stringify <$> currentDiagram updated)
        (stringify (config updated)) i db
  end.

Definition deleteSession (i : string) (db : Database) : result unit * Database :=
  run_delete i db.

Definition saveChatMessage (sid : string) (message : Message) (now : Z)
    (db : Database) : result unit * Database :=
  match getSession sid db with
  | (Threw e, db) => (Threw e, db)
  | (Ok None, db) => (Threw (notFound sid), db)
  | (Ok (Some session), db) =>
      updateSession sid
        {| p_id := None; p_createdAt := None; p_lastAccessedAt := None;
           p_chatHistory := Some (chatHistory session ++ [message])%list;
           p_currentDiagram := None; p_config := None |} now db
  end.

Definition saveDiagram (sid : string) (diagram : DiagramData) (now : Z)
    (db : Database) : result unit * Database :=
  updateSession sid
    {| p_id := None; p_createdAt := None; p_lastAccessedAt := None;
       p_chatHistory := None; p_currentDiagram := Some (Some diagram);
       p_config := None |} now db.

Definition restoreSession (sid : string) (now : Z) (db : Database)
    : result Session * Database :=
  match getSession sid db with
  | (Threw e, db) => (Threw e, db)
  | (Ok None, db) => (Threw (notFound sid), db)
  | (Ok (Some session), db) =>
      match updateSession sid emptyPartial now db with
      | (Threw e, db) => (Threw e, db)
      | (Ok _, db) => (Ok session, db)
      end
  end.

(** The time zone of the host: its offset from UTC, in ms, at an instant
    and at a local time value ([LocalTZA] with and without [isUTC]). *)
Record TimeZone : Type := {
  offsetAt : Z → Z;
  offsetOfLocal : Z → Z
}.

Definition hour : Z := 3600000.

(** [expiryTime.setHours(expiryTime.getHours() - 24)]: the instant is taken
    to local time, the hour field of that is moved back by 24, which moves
    the local time value back by 24 h, and the result is taken back to
    UTC with the offset in force at that local time. *)
Definition expiryTimeAt (tz : TimeZone) (now : Z) : Z :=
  (let t := now + offsetAt tz now in
   let t' := t - 24 * hour in
   t' - offsetOfLocal tz t')%Z.

(** A [Date] further than this from the epoch is invalid, and
    [toISOString] throws a [RangeError] on it. *)
Definition maxTime : Z := 8640000000000000.
Definition invalidTime : thrown := ErrorObj "Invalid time value".

(** The [for] loop: the first rejected [deleteSession] ends it. *)
Fixpoint deleteEach (ids : list string) (db : Database) : result unit * Database :=
  match ids with
  | [] => (Ok (), db)
  | i :: ids =>
      match deleteSession i db with
      | (Threw e, db) => (Threw e, db)
      | (Ok _, db) => deleteEach ids db
      end
  end.

(** The method resolves to [undefined]; the number returned here is the
    count in its closing log line, [expiredSessions.length]. *)
Definition cleanupExpiredSessions (tz : TimeZone) (order : ScanOrder) (now : Z)
    (db : Database) : result nat * Database :=
  let expiryTime := expiryTimeAt tz now in
  if (maxTime <? Z.abs expiryTime)%Z then (Threw invalidTime, db)
  else
    match all_accessedBefore (toISOString expiryTime) order db with
    | (Threw e, db) => (Threw e, db)
    | (Ok expiredSessions, db) =>
        match deleteEach expiredSessions db with
        | (Threw e, db) => (Threw e, db)
        | (Ok _, db) => (Ok (length expiredSessions), db)
        end
    end.

(** No injected fault is left in the script. *)
Definition healthy (db : Database) : Prop :=
  Forall (λ f, f = None) (faults db).

(** What the sweep is meant to remove at [now]. *)
Definition expired (now : Z) (row : SessionRow) : Prop :=
  (instant (last_accessed_at row) < now - 24 * hour)%Z.

#[global] Instance expired_dec now row : Decision (expired now row).
Proof. unfold expired. apply _. Defined.

(** ** The conditions the statements about the sweep name *)

(** The host's offset from UTC is the same at [now] and 24 local hours
    before it: no daylight-saving switch in between. *)
Definition steadyOffset (tz : TimeZone) (now : Z) : Prop :=
  offsetOfLocal tz (now + offsetAt tz now - 24 * hour)%Z = offsetAt tz now.

(** An instant of the years 0000 to 9999. *)
Definition fourDigitYear (t : Z) : Prop := (year0000 ≤ t < year10000)%Z.

Definition fourDigitYears (m : gmap string SessionRow) : Prop :=
  ∀ k row, m !! k = Some row → fourDigitYear (instant (last_accessed_at row)).

(** Every row of a scan is returned once. *)
Definition returnsEachOnce (order : ScanOrder) : Prop := ∀ l, order l ≡ₚ l.

(** A host on UTC; a host that was at UTC+1 until the instant [switch] and
    is at UTC+2 from then on (the clocks went forward by one hour); and the
    scan through the index on [last_accessed_at]. *)
Definition utc : TimeZone := {| offsetAt := λ _, 0%Z; offsetOfLocal := λ _, 0%Z |}.

Definition springForward (switch : Z) : TimeZone :=
  {| offsetAt := λ t, if (t <? switch)%Z then hour else (2 * hour)%Z;
     offsetOfLocal := λ t, if (t <? switch + 2 * hour)%Z then hour else (2 * hour)%Z |}.

Definition byLastAccessed : ScanOrder :=
  merge_sort (λ p q, ¬ textLt (last_accessed_at q.2) (last_accessed_at p.2)).

(** The row a session serialises to (the columns of the [INSERT]). *)
Definition sessionToRow (s : Session) : SessionRow :=
  {| row_id := id s; created_at := toISOString (createdAt s);
     last_accessed_at := toISOString (lastAccessedAt s);
     chat_history := stringify (chatHistory s);
     current_diagram := stringify <$> currentDiagram s;
     config_json := stringify (config s) |}.

(** ** Sample data *)

Definition t0 : Z := 1700000000000.

Definition rowAt (i : string) (t : Z) : SessionRow :=
  {| row_id := i; created_at := toISOString t; last_accessed_at := toISOString t;
     chat_history := stringify []; current_diagram := None;
     config_json := stringify defaultConfig |}.

Definition emptyDb : Database := {| sessions := ∅; faults := [] |}.

(** Two idle sessions and a recent one. *)
Definition threeRows : gmap string SessionRow :=
  <["a" := rowAt "a" (t0 - 25 * hour)]>
    (<["b" := rowAt "b" (t0 - 30 * hour)]>
       (<["c" := rowAt "c" (t0 - 1 * hour)]> ∅)).

Definition sampleDb : Database := {| sessions := threeRows; faults := [] |}.

(** The same table; the [SELECT] of the next sweep goes through, the first
    [DELETE] after it is rejected, the calls after that go through. *)
Definition busyDb : Database :=
  {| sessions := threeRows;
     faults := [None; Some (ErrorObj "SQLITE_BUSY: database is locked")] |}.

(** The same table; the [SELECT] and the first [DELETE] go through, the
    second [DELETE] is rejected. *)
Definition lockedDb : Database :=
  {| sessions := threeRows;
     faults := [None; None; Some (ErrorObj "SQLITE_BUSY: database is locked")] |}.

Definition userMessage (sid i c : string) : Message :=
  {| msg_id := i; sessionId := sid; role := user; msg_content := c;
     timestamp := t0; diagramSnapshot := None; msg_metadata := None |}.

Definition sampleDiagram : DiagramData :=
  {| diagram_id := "d1"; content := "<mxfile/>";
     metadata := {| title := "network"; meta_createdAt := t0;
                    modifiedAt := t0; elementCount := 3%Z;
                    bounds := (800, 600)%Z |} |}.

(** ** Histories of the store

    One step is one call of a [SessionManager] method; between calls the
    environment may schedule any faults for the calls to come. *)

Definition withFaults (fs : list (option thrown)) (db : Database) : Database :=
  {| sessions := sessions db; faults := fs |}.

Inductive dbStep : Database -> Database -> Prop :=
| step_faults fs db : dbStep db (withFaults fs db)
| step_createSession uuid t1 t2 db : dbStep db (createSession uuid t1 t2 db).2
| step_getSession i db : dbStep db (getSession i db).2
| step_updateSession i data now db : dbStep db (updateSession i data now db).2
| step_deleteSession i db : dbStep db (deleteSession i db).2
| step_saveChatMessage sid message now db :
    dbStep db (saveChatMessage sid message now db).2
| step_saveDiagram sid diagram now db :
    dbStep db (saveDiagram sid diagram now db).2
| step_restoreSession sid now db : dbStep db (restoreSession sid now db).2
| step_cleanup tz order now db :
    dbStep db (cleanupExpiredSessions tz order now db).2.

(** Stores that start empty and are only touched through the manager. *)
Definition dbReachable (db : Database) : Prop := rtc dbStep emptyDb db.

(** Every row of [m'] was in [m] under the same key, with the same [id]
    and [created_at]. *)
Definition keepsIdentity (m m' : gmap string SessionRow) : Prop :=
  ∀ k r', m' !! k = Some r' →
    ∃ r, m !! k = Some r ∧ row_id r' = row_id r ∧ created_at r' = created_at r.

End Sessions.

(** * The HTTP handlers over the session store (backend [index.ts]) *)

Module Server.
Import Sessions.

(** ** Requests, responses, environment

    The fields of [req.body] are taken to be strings when present, as the
    front end sends them. *)

Record ChatRequest : Type := {
  req_message : option string;
  req_apiKey : option string;
  req_sessionId : option string;
  req_format : option string
}.

Inductive Body : Type :=
| ErrorBody (error : string) (details : option string)
| ChatBody (session response message : string)
| SessionBody (s : Session)
| SuccessBody.

Record HttpResponse : Type := { status : nat; body : Body }.

(** What one run of the chat handler reads from outside: the id
    [randomUUID] would give and the two clock readings of [createSession],
    then, for the user message and for the reply, the [Date.now()] of the
    message id, the [new Date()] of its timestamp and the [new Date()] of
    the [updateSession] that stores it. *)
Record Readings : Type := {
  uuid : string;
  createdNow : Z;
  accessedNow : Z;
  userIdNow : Z;
  userStamp : Z;
  userSaveNow : Z;
  replyIdNow : Z;
  replyStamp : Z;
  replySaveNow : Z
}.

(** The agent behind [axios.post(AGENT_URL/chat, { message, apiKey, format })]:
    from the payload to [data.response] (which may be missing), or to what
    the call rejects with. *)
Definition Agent : Type := string → string → option string → result (option string).

(** A string in a boolean position: [undefined] and [''] are falsy. *)
Definition truthyString (s : option string) : bool :=
  match s with
  | Some s => negb (String.eqb s "")
  | None => false
  end.

(** [hay.includes(needle)] *)
Definition includes (needle hay : string) : bool :=
  if String.index 0 needle hay is Some _ then true else false.

Definition chatMessage (sid : string) (idNow : Z) (r : Role) (c : string)
    (stamp : Z) : Message :=
  {| msg_id := pretty idNow; sessionId := sid; role := r; msg_content := c;
     timestamp := stamp; diagramSnapshot := None; msg_metadata := None |}.

(** [agentResult.data.response || 'No response from agent'] *)
Definition replyText (data : option string) : string :=
  if truthyString data then default "" data else "No response from agent".

(** ** [POST /api/chat] *)

(** The [try] block; a [return res...] is an [Ok] response. *)
Definition chatTry (req : ChatRequest) (envKey : option string) (rd : Readings)
    (agent : Agent) (db : Database) : result HttpResponse * Database :=
  let apiKey := if truthyString (req_apiKey req) then req_apiKey req else envKey in
  if negb (truthyString (req_message req)) || negb (truthyString apiKey) then
    (Ok {| status := 400;
           body := ErrorBody "Message and API key required" None |}, db)
  else
    let message := default "" (req_message req) in
    let found :=
      if truthyString (req_sessionId req) then
        getSession (default "" (req_sessionId req)) db
      else
        match createSession (uuid rd) (createdNow rd) (accessedNow rd) db with
        | (Threw e, db) => (Threw e, db)
        | (Ok s, db) => (Ok (Some s), db)
        end in
    match found with
    | (Threw e, db) => (Threw e, db)
    | (Ok None, db) =>
        (Ok {| status := 404; body := ErrorBody "Session not found" None |}, db)
    | (Ok (Some session), db) =>
        match saveChatMessage (id session)
                (chatMessage (id session) (userIdNow rd) user message
                   (userStamp rd)) (userSaveNow rd) db with
        | (Threw e, db) => (Threw e, db)
        | (Ok _, db) =>
            match agent message (default "" apiKey) (req_format req) with
            | Threw e => (Threw e, db)
            | Ok data =>
                let response := replyText data in
                match saveChatMessage (id session)
                        (chatMessage (id session) (replyIdNow rd + 1) assistant
                           response (replyStamp rd)) (replySaveNow rd) db with
                | (Threw e, db) => (Threw e, db)
                | (Ok _, db) =>
                    (Ok {| status := 200;
                           body := ChatBody (id session) response
                                     "Diagram generated successfully" |}, db)
                end
            end
        end
    end.

(** The [catch] block. *)
Definition chatCatch (e : thrown) : HttpResponse :=
  let isTimeout :=
    match e with
    | ErrorObj m => includes "timeout" m
    | NonError => false
    end in
  {| status := if isTimeout then 504 else 500;
     body := ErrorBody
               (if isTimeout
                then "Diagram generation timed out. Try a simpler diagram."
                else "Failed to generate diagram")
               (Some (errorMessage e)) |}.

Definition chatHandler (req : ChatRequest) (envKey : option string)
    (rd : Readings) (agent : Agent) (db : Database) : HttpResponse * Database :=
  match chatTry req envKey rd agent db with
  | (Ok response, db) => (response, db)
  | (Threw e, db) => (chatCatch e, db)
  end.

(** ** The session endpoints *)

(** [POST /api/session/create] *)
Definition createEndpoint (uuid : string) (t1 t2 : Z) (db : Database)
    : HttpResponse * Database :=
  match createSession uuid t1 t2 db with
  | (Ok s, db) => ({| status := 200; body := SessionBody s |}, db)
  | (Threw _, db) =>
      ({| status := 500; body := ErrorBody "Failed to create session" None |}, db)
  end.

(** [GET /api/session/:id] *)
Definition getEndpoint (i : string) (db : Database) : HttpResponse * Database :=
  match getSession i db with
  | (Ok (Some s), db) => ({| status := 200; body := SessionBody s |}, db)
  | (Ok None, db) =>
      ({| status := 404; body := ErrorBody "Session not found" None |}, db)
  | (Threw _, db) =>
      ({| status := 500; body := ErrorBody "Failed to get session" None |}, db)
  end.

(** [DELETE /api/session/:id] *)
Definition deleteEndpoint (i : string) (db : Database) : HttpResponse * Database :=
  match deleteSession i db with
  | (Ok _, db) => ({| status := 200; body := SuccessBody |}, db)
  | (Threw _, db) =>
      ({| status := 500; body := ErrorBody "Failed to delete session" None |}, db)
  end.

(** ** The hourly sweep of [startServer]

    The callback of [setInterval] catches what the sweep throws and only
    logs it, so a run leaves a store and nothing else. *)
Definition cleanupTick (tz : TimeZone) (order : ScanOrder) (now : Z)
    (db : Database) : Database :=
  (cleanupExpiredSessions tz order now db).2.

Fixpoint runTicks (tz : TimeZone) (order : ScanOrder) (times : list Z)
    (db : Database) : Database :=
  match times with
  | [] => db
  | now :: times => runTicks tz order times (cleanupTick tz order now db)
  end.

(** ** Sample data *)

Definition sampleReadings : Readings :=
  {| uuid := "3f2a"; createdNow := t0; accessedNow := t0;
     userIdNow := t0 + 1; userStamp := t0 + 1; userSaveNow := t0 + 2;
     replyIdNow := t0 + 900; replyStamp := t0 + 900; replySaveNow := t0 + 901 |}.

Definition drawRequest (sid : option string) : ChatRequest :=
  {| req_message := Some "draw a load balancer"; req_apiKey := Some "sk-test";
     req_sessionId := sid; req_format := Some "drawio" |}.

Definition echoAgent : Agent := λ message _ _, Ok (Some ("done: " ++ message)).
Definition slowAgent : Agent :=
  λ _ _ _, Threw (ErrorObj "timeout of 300000ms exceeded").

End Server.

(** * The database wrapper ([src/backend/src/db/database.ts])

    The [sqlite3] driver is outside the program. Each handle it constructs
    is a number, the calls made on it are logged in order, and what a call
    passes to its callback is given with the call. *)

Module Db.

Definition createTableSQL : string := "
      CREATE TABLE IF NOT EXISTS sessions (
        id TEXT PRIMARY KEY,
        created_at DATETIME NOT NULL,
        last_accessed_at DATETIME NOT NULL,
        chat_history TEXT NOT NULL,
        current_diagram TEXT,
        config TEXT NOT NULL
      );
    ".

Definition createIndexSQL : string := "
      CREATE INDEX IF NOT EXISTS idx_last_accessed 
      ON sessions(last_accessed_at);
    ".

(** A bound parameter: the callers pass strings and [null]. *)
Definition Param : Type := option string.

Inductive driverCall : Type :=
| OpenFile (h : nat)   (* [new sqlite3.Database(DATABASE_PATH, cb)] *)
| RunSql (h : nat) (sql : string) (params : list Param)
| GetSql (h : nat) (sql : string) (params : list Param)
| AllSql (h : nat) (sql : string) (params : list Param)
| CloseHandle (h : nat).

#[global] Instance driverCall_eq_dec : EqDecision driverCall.
Proof. solve_decision. Defined.

Record World : Type := {
  db : option nat;            (* [this.db] *)
  opened : nat;               (* handles constructed so far *)
  driver : list driverCall
}.

Definition initial : World := {| db := None; opened := 0; driver := [] |}.

Definition notConnected : thrown := ErrorObj "Database not connected".

Definition call (c : driverCall) (w : World) : World :=
  {| db := db w; opened := opened w; driver := driver w ++ [c] |}.

(** [if (err) reject(err); else resolve(v)] *)
Definition settle {A : Type} (err : option thrown) (v : A) : result A :=
  match err with
  | Some e => Threw e
  | None => Ok v
  end.

(** [mkdir] is what the directory step throws, if anything; [err] is what
    the driver passes to the callback of the constructor. The handle is
    assigned to [this.db] when it is constructed, before the callback. *)
Definition connect (mkdir err : option thrown) (w : World) : result unit * World :=
  match mkdir with
  | Some e => (Threw e, w)
  | None =>
      let h := opened w in
      (settle err (),
       {| db := Some h; opened := S h; driver := driver w ++ [OpenFile h] |})
  end.

Definition run (sql : string) (params : list Param) (err : option thrown)
    (w : World) : result unit * World :=
  match db w with
  | None => (Threw notConnected, w)
  | Some h => (settle err (), call (RunSql h sql params) w)
  end.

Definition get {T : Type} (sql : string) (params : list Param)
    (answer : result (option T)) (w : World) : result (option T) * World :=
  match db w with
  | None => (Threw notConnected, w)
  | Some h => (answer, call (GetSql h sql params) w)
  end.

Definition all {T : Type} (sql : string) (params : list Param)
    (answer : result (list T)) (w : World) : result (list T) * World :=
  match db w with
  | None => (Threw notConnected, w)
  | Some h => (answer, call (AllSql h sql params) w)
  end.

Definition initialize (errTable errIndex : option thrown) (w : World)
    : result unit * World :=
  match db w with
  | None => (Threw notConnected, w)
  | Some _ =>
      match run createTableSQL [] errTable w with
      | (Threw e, w) => (Threw e, w)
      | (Ok _, w) => run createIndexSQL [] errIndex w
      end
  end.

Definition close (err : option thrown) (w : World) : result unit * World :=
  match db w with
  | None => (Ok (), w)
  | Some h => (settle err (), call (CloseHandle h) w)
  end.

(** ** Histories: one step is one call of a method. *)
Inductive step : World -> World -> Prop :=
| step_connect mkdir err w : step w (connect mkdir err w).2
| step_initialize e1 e2 w : step w (initialize e1 e2 w).2
| step_run sql params err w : step w (run sql params err w).2
| step_get (T : Type) sql params (answer : result (option T)) w :
    step w (get sql params answer w).2
| step_all (T : Type) sql params (answer : result (list T)) w :
    step w (all sql params answer w).2
| step_close err w : step w (close err w).2.

Definition reachable : World -> Prop := rtc step initial.

(** The handle a driver call is made on. *)
Definition handleOf (c : driverCall) : nat :=
  match c with
  | OpenFile h | RunSql h _ _ | GetSql h _ _ | AllSql h _ _ | CloseHandle h => h
  end.

(** What holds of [this.db] between calls. *)
Definition tidy (w : World) : Prop :=
  match db w with
  | None => opened w = 0%nat ∧ driver w = []
  | Some h => opened w = S h ∧ OpenFile h ∈ driver w
  end ∧
  ∀ c, c ∈ driver w → (handleOf c < opened w)%nat.

End Db.

(** * The OpenAI adapter ([src/backend/src/services/llm/OpenAIAdapter.ts])

    The retry loop of [callLLM]. One pass through the [try] block either
    returns the response built from the completion, or ends in the [catch]
    with the value that was thrown, of which the loop reads the [status]
    property. What the passes do is given by [api], indexed by the number
    of passes made before; it is [attempts], which counts the passes that
    failed. *)

Module LLM.

Section Loop.
Context {Response : Type}.

(** The value a [catch] receives: [null] or [undefined], or a value that
    has properties, with its [status] when that is a number ([thrown]
    tells an [Error] with its message from any other such value). *)
Inductive caught : Type :=
| Nullish (isNull : bool)
| Value (status : option Z) (error : thrown).

(** Reading [error.status] of [null] or [undefined] throws a [TypeError];
    the message is the one of V8. *)
Definition statusOfNullish (isNull : bool) : thrown :=
  ErrorObj ("Cannot read properties of "
            ++ (if isNull then "null" else "undefined")
            ++ " (reading 'status')").

Inductive pass : Type :=
| Returns (r : Response)
| Catches (c : caught).

Definition maxAttempts : nat := 5.

(** The result and the delays slept through, in order. *)
Equations callLoop (api : nat -> pass) (attempts : nat) (delay : Z)
    (slept : list Z) : result Response * list Z
    by wf (maxAttempts - attempts) lt :=
callLoop api attempts delay slept with lt_dec attempts maxAttempts => {
  | right _ => (Threw (ErrorObj "Max retry attempts reached"), slept)
  | left _ with api attempts => {
    | Returns r => (Ok r, slept)
    | Catches (Nullish isNull) => (Threw (statusOfNullish isNull), slept)
    | Catches (Value status error)
        with bool_decide (status = Some 429%Z) &&
             bool_decide (attempts + 1 < maxAttempts)%nat => {
      | true => callLoop api (attempts + 1) (delay * 2)%Z (slept ++ [delay])
      | false => (Threw error, slept)
      }
    }
  }.
Next Obligation. lia. Qed.

Definition callLLM (api : nat -> pass) : result Response * list Z :=
  callLoop api 0 2000%Z [].

(** What a pass that ends the loop gives to the caller. *)
Definition outcome (p : pass) : result Response :=
  match p with
  | Returns r => Ok r
  | Catches (Nullish isNull) => Threw (statusOfNullish isNull)
  | Catches (Value _ error) => Threw error
  end.

Definition rateLimited (p : pass) : Prop :=
  ∃ error, p = Catches (Value (Some 429%Z) error).

(** The delays of [k] retries in a row, the first after [attempts] failed
    passes. *)
Definition delaysFrom (delay : Z) (k : nat) : list Z :=
  (λ i, (delay * 2 ^ Z.of_nat i)%Z) <$> seq 0 k.

(** The pass that ends the loop: the first that is not rate limited, or
    the fifth. *)
Definition lastPass (api : nat -> pass) (k : nat) : Prop :=
  (k < maxAttempts)%nat ∧
  (∀ i, (i < k)%nat → rateLimited (api i)) ∧
  (S k = maxAttempts ∨ ¬ rateLimited (api k)).

End Loop.
Arguments pass : clear implicits.

End LLM.

(** * Properties of the MCP client *)

Module MCPFacts.
Import MCP.

(** ** One pass through the [try] block *)

Lemma tryConnect_created config o w :
  created (tryConnect config o w).2 = S (created w).
Proof. unfold tryConnect. by destruct o. Qed.

Lemma tryConnect_Established config ts w :
  tryConnect config (Established ts) w =
  (Ok (),
   setRetryAttempts (name config) 0
     (setStatus (name config)
        {| connected := true; serverName := name config;
           lastChecked := clock w; error := None |}
        (setTools (name config) ts
           (send (ListToolsReq (created w))
              (storeClient (name config) (created w) (newTransport w)))))).
Proof. reflexivity. Qed.

Lemma tryConnect_failure config o w e :
  failure_of o = Some e → ∃ w1, tryConnect config o w = (Threw e, w1).
Proof. destruct o; simpl; intros; simplify_eq; eauto. Qed.

Lemma tryConnect_Ok_inv config o w u w1 :
  tryConnect config o w = (Ok u, w1) →
  ∃ ts, o = Established ts.
Proof. destruct o; simpl; intros; simplify_eq; eauto. Qed.

(** ** Unfolding [connectWithRetry] *)

Lemma connectWithRetry_ok config a remote w u w1 :
  tryConnect config (remote a) w = (Ok u, w1) →
  connectWithRetry config a remote w = (Ok (), w1).
Proof. intros H. by rewrite connectWithRetry_equation_1, H. Qed.

Lemma connectWithRetry_retry config a remote w e w1 :
  tryConnect config (remote a) w = (Threw e, w1) → a < MAX_RETRIES →
  connectWithRetry config a remote w =
  connectWithRetry config (a + 1) remote
    (sleep (BASE_DELAY * 2 ^ Z.of_nat a)
       (setRetryAttempts (name config) (a + 1) w1)).
Proof.
  intros H Hlt. rewrite (connectWithRetry_equation_1 config a), H. simpl.
  by destruct (lt_dec a MAX_RETRIES); [|lia].
Qed.

Lemma connectWithRetry_giveup config a remote w e w1 :
  tryConnect config (remote a) w = (Threw e, w1) → ¬ a < MAX_RETRIES →
  connectWithRetry config a remote w =
  (Threw e, setStatus (name config) (statusFailed (name config) e w1) w1).
Proof.
  intros H Hlt. rewrite (connectWithRetry_equation_1 config a), H. simpl.
  by destruct (lt_dec a MAX_RETRIES); [lia|].
Qed.

(** Induction along the retries of one run. *)
Lemma connectWithRetry_run_ind config remote
    (P : nat → World → result unit * World → Prop) :
  (∀ a w u w1, tryConnect config (remote a) w = (Ok u, w1) → P a w (Ok (), w1)) →
  (∀ a w e w1 w2 r,
      tryConnect config (remote a) w = (Threw e, w1) → a < MAX_RETRIES →
      w2 = sleep (BASE_DELAY * 2 ^ Z.of_nat a)
             (setRetryAttempts (name config) (a + 1) w1) →
      r = connectWithRetry config (a + 1) remote w2 →
      P (a + 1) w2 r → P a w r) →
  (∀ a w e w1, tryConnect config (remote a) w = (Threw e, w1) →
      ¬ a < MAX_RETRIES →
      P a w (Threw e, setStatus (name config) (statusFailed (name config) e w1) w1)) →
  ∀ a w, P a w (connectWithRetry config a remote w).
Proof.
  intros Hok Hretry Hgiveup a.
  remember (MAX_RETRIES - a) as n eqn:Hn.
  revert a Hn. induction n as [|n IH]; intros a Hn w;
    destruct (tryConnect config (remote a) w) as [[u|e] w1] eqn:Htry.
  - rewrite (connectWithRetry_ok _ _ _ _ _ _ Htry). eauto.
  - rewrite (connectWithRetry_giveup _ _ _ _ _ _ Htry) by lia.
    apply Hgiveup; [done | lia].
  - rewrite (connectWithRetry_ok _ _ _ _ _ _ Htry). eauto.
  - assert (a < MAX_RETRIES) as Hlt by lia.
    rewrite (connectWithRetry_retry _ _ _ _ _ _ Htry Hlt).
    eapply Hretry; [done..|]. apply IH. lia.
Qed.

(** Every run constructs at least one transport, and a run that succeeds
    stores the transport constructed last. *)
Lemma connectWithRetry_newest config remote a w :
  let r := connectWithRetry config a remote w in
  created w < created r.2 ∧
  (r.1 = Ok () →
     clients r.2 !! name config = Some (created r.2 - 1) ∧
     transports r.2 !! name config = Some (created r.2 - 1) ∧
     (name config, created r.2 - 1) ∈ live r.2 ∧
     stateOf (name config) r.2 = Connected).
Proof.
  simpl. revert a w.
  apply (connectWithRetry_run_ind config remote (λ _ w r,
    created w < created r.2 ∧
    (r.1 = Ok () →
       clients r.2 !! name config = Some (created r.2 - 1) ∧
       transports r.2 !! name config = Some (created r.2 - 1) ∧
       (name config, created r.2 - 1) ∈ live r.2 ∧
       stateOf (name config) r.2 = Connected))).
  - intros a w u w1 Htry.
    destruct (tryConnect_Ok_inv _ _ _ _ _ Htry) as [ts Ho].
    rewrite Ho, tryConnect_Established in Htry. simplify_eq. simpl.
    rewrite !Nat.sub_0_r. split; [lia|]. intros _. unfold stateOf. simpl.
    rewrite !lookup_insert_eq. simpl. repeat split; try done.
    apply elem_of_app. right. by apply list_elem_of_singleton.
  - intros a w e w1 w2 r Htry Hlt -> -> [IH1 IH2].
    pose proof (tryConnect_created config (remote a) w) as Hc.
    rewrite Htry in Hc. simpl in *. split; [lia | done].
  - intros a w e w1 Htry Hlt.
    pose proof (tryConnect_created config (remote a) w) as Hc.
    rewrite Htry in Hc. simpl in *. split; [lia | done].
Qed.

(** ** C1: [connect] on a name that is already connected *)

(** C1, refuted at a concrete history. [connect] is called for "drawio" on
    the initial world and succeeds; the name is then Connected, one
    transport has been constructed and it is live. [connect] is called a
    second time: a second transport is constructed and started, it
    replaces the first in both maps, and the first one, which nothing
    closed, is still live. The second call is not a no-op, and two live
    transports exist for the one name. *)
Lemma connect_twice_two_live_transports :
  let w1 := (connect drawio up initial).2 in
  let w2 := (connect drawio up w1).2 in
  stateOf "drawio" w1 = Connected ∧
  created w1 = 1 ∧ live w1 = [("drawio", 0)] ∧
  created w2 = 2 ∧ clients w2 !! "drawio" = Some 1 ∧
  liveFor "drawio" w2 = [("drawio", 0); ("drawio", 1)] ∧
  w2 ≠ w1.
Proof.
  repeat split; try (vm_compute; reflexivity).
  intros H. apply (f_equal created) in H. vm_compute in H. discriminate.
Qed.

(** C1, as amended. [connect] makes no check for an existing connection:
    every call, whatever the state of the name, constructs at least one new
    transport; when the call succeeds the client and the transport stored
    for the name are the ones constructed last, that transport is live, and
    the name is Connected. *)
Theorem connect_always_opens_transport config remote w :
  let r := connect config remote w in
  created w < created r.2 ∧
  (r.1 = Ok () →
     clients r.2 !! name config = Some (created r.2 - 1) ∧
     transports r.2 !! name config = Some (created r.2 - 1) ∧
     (name config, created r.2 - 1) ∈ live r.2 ∧
     stateOf (name config) r.2 = Connected).
Proof. apply connectWithRetry_newest. Qed.

Lemma connect_always_opens_transport_witness :
  created (connect drawio up initial).2 <
    created (connect drawio flaky (connect drawio up initial).2).2 ∧
  clients (connect drawio flaky (connect drawio up initial).2).2 !! "drawio" =
    Some 3.
Proof.
  destruct (connect_always_opens_transport drawio flaky
              (connect drawio up initial).2) as [H1 H2].
  split; [exact H1|].
  destruct H2 as [H2 _]; [vm_compute; reflexivity|].
  etrans; [exact H2|]. vm_compute. reflexivity.
Defined.

(** ** C2: the retry budget *)

Lemma retries_then_success config remote ts (k : nat) :
  ∀ (a : nat) (w : World), (a + k ≤ MAX_RETRIES)%nat →
    (∀ i, (a ≤ i < a + k)%nat → fails (remote i)) →
    remote (a + k) = Established ts →
    let r := connectWithRetry config a remote w in
    r.1 = Ok () ∧ stateOf (name config) r.2 = Connected ∧
    retryAttempts r.2 !! name config = Some 0 ∧
    created r.2 = created w + S k.
Proof.
  induction k as [|k IH]; intros a w Hle Hfail Hok; simpl.
  - rewrite Nat.add_0_r in Hok.
    erewrite connectWithRetry_ok by (rewrite Hok; apply tryConnect_Established).
    unfold stateOf. simpl. rewrite !lookup_insert_eq. simpl.
    repeat split; lia.
  - destruct (Hfail a ltac:(lia)) as [e He].
    destruct (tryConnect_failure config _ w _ He) as [w1 Htry].
    rewrite (connectWithRetry_retry _ _ _ _ _ _ Htry) by lia.
    pose proof (tryConnect_created config (remote a) w) as Hc.
    rewrite Htry in Hc. simpl in Hc.
    edestruct (IH (a + 1)) as (H1 & H2 & H3 & H4); [lia | | | ].
    + intros i Hi. apply Hfail. lia.
    + rewrite <- Hok. f_equal. lia.
    + rewrite H1, H2, H3, H4. simpl. rewrite Hc. repeat split; lia.
Qed.

Lemma tryConnect_Threw_retryAttempts config o w e w1 :
  tryConnect config o w = (Threw e, w1) → retryAttempts w1 = retryAttempts w.
Proof. unfold tryConnect. destruct o; intros; by simplify_eq. Qed.

Lemma retries_exhausted config remote :
  ∀ (a : nat) (w : World), (a ≤ MAX_RETRIES)%nat →
    (∀ i, (a ≤ i ≤ MAX_RETRIES)%nat → fails (remote i)) →
    let r := connectWithRetry config a remote w in
    ∃ e, failure_of (remote MAX_RETRIES) = Some e ∧
      r.1 = Threw e ∧ stateOf (name config) r.2 = Failed ∧
      error <$> connectionStatus r.2 !! name config = Some (Some (errorMessage e)) ∧
      created r.2 = created w + (S MAX_RETRIES - a) ∧
      retryAttempts r.2 !! name config =
        if decide (a < MAX_RETRIES) then Some MAX_RETRIES
        else retryAttempts w !! name config.
Proof.
  intros a. remember (MAX_RETRIES - a) as n eqn:Hn. revert a Hn.
  induction n as [|n IH]; intros a Hn w Hle Hfail; cbv zeta.
  - assert (a = MAX_RETRIES) as -> by lia.
    destruct (Hfail MAX_RETRIES ltac:(lia)) as [e He].
    destruct (tryConnect_failure config _ w _ He) as [w1 Htry].
    rewrite (connectWithRetry_giveup _ _ _ _ _ _ Htry) by lia.
    pose proof (tryConnect_created config (remote MAX_RETRIES) w) as Hc.
    rewrite Htry in Hc. simpl in Hc.
    rewrite decide_False by lia.
    exists e. unfold stateOf. simpl. rewrite lookup_insert_eq. simpl.
    rewrite (tryConnect_Threw_retryAttempts _ _ _ _ _ Htry).
    repeat split; try done; lia.
  - destruct (Hfail a ltac:(lia)) as [e He].
    destruct (tryConnect_failure config _ w _ He) as [w1 Htry].
    rewrite (connectWithRetry_retry _ _ _ _ _ _ Htry) by lia.
    pose proof (tryConnect_created config (remote a) w) as Hc.
    rewrite Htry in Hc. simpl in Hc.
    edestruct (IH (a + 1)) as (e' & H1 & H2 & H3 & H4 & H5 & H6);
      [lia | lia | | ].
    + intros i Hi. apply Hfail. lia.
    + exists e'. rewrite H2, H3, H4, H5, H6.
      rewrite (decide_True (P := a < MAX_RETRIES)) by lia.
      cbn [created sleep setRetryAttempts retryAttempts]. rewrite Hc.
      repeat split; try done; try lia.
      case_decide; [done|]. rewrite lookup_insert_eq. f_equal. lia.
Qed.

(** The count left in [retryAttempts] by earlier calls has no influence on
    a run that starts below the retry limit. *)
Lemma connectWithRetry_forgets_count config remote a v w :
  a < MAX_RETRIES →
  connectWithRetry config a remote (setRetryAttempts (name config) v w) =
  connectWithRetry config a remote w.
Proof.
  intros Hlt. destruct (remote a) as [e|e|ts] eqn:Ho.
  - rewrite (connectWithRetry_retry config a remote w e (newTransport w))
      by (rewrite ?Ho; done).
    rewrite (connectWithRetry_retry config a remote _ e
               (newTransport (setRetryAttempts (name config) v w)))
      by (rewrite ?Ho; done).
    f_equal. unfold sleep, setRetryAttempts, newTransport. simpl.
    by rewrite insert_insert_eq.
  - rewrite (connectWithRetry_retry config a remote w e
               (send (ListToolsReq (created w))
                  (storeClient (name config) (created w) (newTransport w))))
      by (rewrite ?Ho; done).
    rewrite (connectWithRetry_retry config a remote _ e
               (send (ListToolsReq (created w))
                  (storeClient (name config) (created w)
                     (newTransport (setRetryAttempts (name config) v w)))))
      by (rewrite ?Ho; done).
    f_equal. unfold sleep, setRetryAttempts, newTransport. simpl.
    by rewrite insert_insert_eq.
  - rewrite (connectWithRetry_ok config a remote w () _
               ltac:(rewrite Ho; apply tryConnect_Established)).
    rewrite (connectWithRetry_ok config a remote _ () _
               ltac:(rewrite Ho; apply tryConnect_Established)).
    f_equal. unfold setRetryAttempts. simpl. by rewrite insert_insert_eq.
Qed.

(** C2. With [maxAttempts] = 1 + [MAX_RETRIES] = 4, the number of
    attempts a run makes before it gives up:
    - if the first [k < maxAttempts] attempts fail and the next succeeds,
      [connect] resolves, the state is Connected and the retry count is 0;
    - if [maxAttempts] attempts fail in a row, [connect] rejects with the
      last error, the state is Failed and the error recorded in the status
      is that error's message, or the text [Unknown error] when what was
      thrown is not an [Error];
      the run has made exactly [maxAttempts] attempts and left the count at
      [MAX_RETRIES];
    - the call after that starts over: it runs exactly as it would with the
      count put back to 0, again recovers after fewer than [maxAttempts]
      failures, again makes [maxAttempts] attempts when all fail, and after
      its first failed attempt it sets the count to 1, waits [BASE_DELAY]
      and goes on with attempt 1. *)
Theorem connect_retry_budget config :
  (∀ remote w (k : nat) ts,
     k < maxAttempts → (∀ i, i < k → fails (remote i)) →
     remote k = Established ts →
     let r := connect config remote w in
     r.1 = Ok () ∧ stateOf (name config) r.2 = Connected ∧
     retryAttempts r.2 !! name config = Some 0) ∧
  (∀ remote w,
     (∀ i, i < maxAttempts → fails (remote i)) →
     let r := connect config remote w in
     ∃ e, failure_of (remote (maxAttempts - 1)) = Some e ∧
       r.1 = Threw e ∧ stateOf (name config) r.2 = Failed ∧
       error <$> connectionStatus r.2 !! name config =
         Some (Some (match e with
                     | ErrorObj message => message
                     | NonError => "Unknown error"
                     end)) ∧
       created r.2 = created w + maxAttempts ∧
       retryAttempts r.2 !! name config = Some MAX_RETRIES ∧
       (∀ remote',
          connect config remote' r.2 =
          connect config remote' (setRetryAttempts (name config) 0 r.2)) ∧
       (∀ remote' (k : nat) ts,
          k < maxAttempts → (∀ i, i < k → fails (remote' i)) →
          remote' k = Established ts →
          let r' := connect config remote' r.2 in
          r'.1 = Ok () ∧ stateOf (name config) r'.2 = Connected ∧
          retryAttempts r'.2 !! name config = Some 0) ∧
       (∀ remote',
          (∀ i, i < maxAttempts → fails (remote' i)) →
          created (connect config remote' r.2).2 = created r.2 + maxAttempts) ∧
       (∀ remote' e', failure_of (remote' 0) = Some e' →
          ∃ w1, tryConnect config (remote' 0) r.2 = (Threw e', w1) ∧
            connect config remote' r.2 =
            connectWithRetry config 1 remote'
              (sleep BASE_DELAY (setRetryAttempts (name config) 1 w1)))).
Proof.
  assert (∀ remote w (k : nat) ts,
     k < maxAttempts → (∀ i, i < k → fails (remote i)) →
     remote k = Established ts →
     let r := connect config remote w in
     r.1 = Ok () ∧ stateOf (name config) r.2 = Connected ∧
     retryAttempts r.2 !! name config = Some 0) as HA.
  { intros remote w k ts Hk Hfail Hok. unfold maxAttempts in Hk.
    destruct (retries_then_success config remote ts k 0 w) as (?&?&?&?);
      [lia | intros; apply Hfail; lia | done | done]. }
  assert (∀ remote w, (∀ i, i < maxAttempts → fails (remote i)) →
     ∃ e, failure_of (remote MAX_RETRIES) = Some e ∧
       (connect config remote w).1 = Threw e ∧
       stateOf (name config) (connect config remote w).2 = Failed ∧
       error <$> connectionStatus (connect config remote w).2 !! name config =
         Some (Some (errorMessage e)) ∧
       created (connect config remote w).2 = created w + maxAttempts ∧
       retryAttempts (connect config remote w).2 !! name config =
         Some MAX_RETRIES) as HB.
  { intros remote w Hfail.
    destruct (retries_exhausted config remote 0 w) as (e&?&?&?&?&?&?);
      [lia | intros; apply Hfail; unfold maxAttempts; lia |].
    exists e. repeat split; try done. }
  split; [exact HA|].
  intros remote w Hfail r.
  destruct (HB remote w Hfail) as (e & H1 & H2 & H3 & H4 & H5 & H6).
  exists e. split; [exact H1|]. repeat split; try done.
  - intros remote'. symmetry.
    apply connectWithRetry_forgets_count. unfold MAX_RETRIES. lia.
  - by apply (HA remote' r.2 k ts).
  - by apply (HA remote' r.2 k ts).
  - by apply (HA remote' r.2 k ts).
  - intros remote' Hfail'.
    by destruct (HB remote' r.2 Hfail') as (e' & _ & _ & _ & _ & ? & _).
  - intros remote' e' He'.
    destruct (tryConnect_failure config _ r.2 _ He') as [w1 Htry].
    exists w1. split; [done|]. unfold connect.
    by rewrite (connectWithRetry_retry _ _ _ _ _ _ Htry)
      by (unfold MAX_RETRIES; lia).
Qed.

Lemma connect_retry_budget_witness :
  (let r := connect drawio flaky initial in
   r.1 = Ok () ∧ stateOf "drawio" r.2 = Connected ∧
   retryAttempts r.2 !! "drawio" = Some 0) ∧
  (connect drawio down initial).1 = Threw (ErrorObj "spawn failed (4th)") ∧
  error <$> connectionStatus (connect drawio down initial).2 !! "drawio" =
    Some (Some "spawn failed (4th)") ∧
  error <$> connectionStatus
              (connect drawio (λ _, ConnectRejects NonError) initial).2
            !! "drawio" =
    Some (Some "Unknown error").
Proof.
  destruct (connect_retry_budget drawio) as [HA HB]. split; [|split; [|split]].
  - apply (HA flaky initial 2 []).
    + unfold maxAttempts, MAX_RETRIES. lia.
    + intros i Hi. destruct i as [|[|i]]; [by eexists..|lia].
    + reflexivity.
  - destruct (HB down initial) as (e & He & Hr & _).
    + intros i _. by eexists.
    + vm_compute in He. injection He as <-. exact Hr.
  - destruct (HB down initial) as (e & He & _ & _ & Hm & _).
    + intros i _. by eexists.
    + vm_compute in He. injection He as <-. exact Hm.
  - destruct (HB (λ _, ConnectRejects NonError) initial)
      as (e & He & _ & _ & Hm & _).
    + intros i _. by eexists.
    + vm_compute in He. injection He as <-. exact Hm.
Defined.

(** ** Worlds between calls are consistent *)

Lemma tryConnect_Threw_frame config o w e w1 :
  tryConnect config o w = (Threw e, w1) →
  connectionStatus w1 = connectionStatus w ∧
  (clients w = transports w → clients w1 = transports w1) ∧
  ∀ m, m ≠ name config → clients w1 !! m = clients w !! m.
Proof.
  unfold tryConnect. destruct o; intros; simplify_eq; simpl;
    repeat split; try done; try congruence.
  intros m Hm. by rewrite lookup_insert_ne.
Qed.

Lemma connectWithRetry_consistent config remote a w :
  clients w = transports w →
  (∀ m, m ≠ name config →
     is_Some (clients w !! m) → is_Some (connectionStatus w !! m)) →
  consistent (connectWithRetry config a remote w).2.
Proof.
  revert a w.
  apply (connectWithRetry_run_ind config remote (λ _ w r,
    clients w = transports w →
    (∀ m, m ≠ name config →
       is_Some (clients w !! m) → is_Some (connectionStatus w !! m)) →
    consistent r.2)).
  - intros a w u w1 Htry Heq Hfr.
    destruct (tryConnect_Ok_inv _ _ _ _ _ Htry) as [ts Ho].
    rewrite Ho, tryConnect_Established in Htry. simplify_eq.
    split; simpl; [by rewrite Heq|].
    intros m. destruct (decide (m = name config)) as [->|Hne].
    + rewrite !lookup_insert_eq. eauto.
    + rewrite !lookup_insert_ne by done. by apply Hfr.
  - intros a w e w1 w2 r Htry Hlt -> -> IH Heq Hfr.
    destruct (tryConnect_Threw_frame _ _ _ _ _ Htry) as (Hst & Hct & Hcl).
    apply IH; simpl; [by apply Hct|].
    intros m Hne. rewrite Hst, Hcl by done. by apply Hfr.
  - intros a w e w1 Htry Hlt Heq Hfr.
    destruct (tryConnect_Threw_frame _ _ _ _ _ Htry) as (Hst & Hct & Hcl).
    split; simpl; [by apply Hct|].
    intros m. destruct (decide (m = name config)) as [->|Hne].
    + rewrite !lookup_insert_eq. eauto.
    + rewrite lookup_insert_ne, Hst, Hcl by done. by apply Hfr.
Qed.

Lemma step_consistent w w' : step w w' → consistent w → consistent w'.
Proof.
  intros Hstep [Heq Hst]. destruct Hstep as [config remote w|n closes w|n reply w|n t p reply w].
  - apply connectWithRetry_consistent; [done|]. intros m _. apply Hst.
  - unfold disconnect.
    destruct (clients w !! n) as [c|] eqn:Hc,
             (transports w !! n) as [t|] eqn:Ht; try done.
    destruct closes as [[?|?] [?|?]]; simpl; try done.
    split; simpl; [by rewrite Heq|].
    intros m. destruct (decide (m = n)) as [->|Hne].
    + rewrite lookup_delete_eq. by intros [? ?].
    + rewrite !lookup_delete_ne by done. apply Hst.
  - unfold healthCheck. destruct (clients w !! n) as [h|] eqn:Hc; [|done].
    destruct reply; (split; simpl; [done|]); intros m Hm;
      (destruct (decide (m = n)) as [->|Hne];
       [rewrite !lookup_insert_eq; eauto | rewrite lookup_insert_ne by done; by apply Hst]).
  - unfold callTool. by destruct (clients w !! n).
Qed.

Lemma reachable_consistent w : reachable w → consistent w.
Proof.
  unfold reachable. revert w. apply rtc_ind_r.
  - split; [done|]. intros n [? H]. simpl in H. by rewrite lookup_empty in H.
  - eauto using step_consistent.
Qed.

(** A run in which no attempt gets its client connected leaves the client
    map alone. *)
Lemma connectWithRetry_refused_clients config remote a w :
  (∀ i, ∃ e, remote i = ConnectRejects e) →
  clients (connectWithRetry config a remote w).2 = clients w.
Proof.
  intros Href. revert a w.
  apply (connectWithRetry_run_ind config remote (λ _ w r,
    clients r.2 = clients w)).
  - intros a w u w1 Htry. destruct (Href a) as [e He].
    rewrite He in Htry. simpl in Htry. simplify_eq.
  - intros a w e w1 w2 r Htry Hlt -> -> IH. rewrite IH.
    destruct (Href a) as [e' He]. rewrite He in Htry. simpl in Htry.
    by simplify_eq.
  - intros a w e w1 Htry Hlt. destruct (Href a) as [e' He].
    rewrite He in Htry. simpl in Htry. by simplify_eq.
Qed.

(** ** C3: [callTool] without a connection *)

(** C3, refuted at a concrete history. "drawio" is connected (transport 0),
    then a health check fails, which leaves the name Failed but keeps its
    client. [callTool] on the Failed name does not reject with the
    not-connected error: it sends the call through transport 0 and returns
    what the server answers. *)
Lemma callTool_on_failed_health_check_sends :
  let w1 := (connect drawio up initial).2 in
  let w2 := (healthCheck "drawio" (Threw (ErrorObj "timed out")) w1).2 in
  let r := callTool "drawio" "mcp_drawio_delete_cell_by_id"
             [("cell_id", PString "7")] (Ok [{| text := Some "deleted" |}]) w2 in
  stateOf "drawio" w2 = Failed ∧
  r.1 = Ok [{| text := Some "deleted" |}] ∧
  requests r.2 =
    (requests w2 ++ [CallToolReq 0 "mcp_drawio_delete_cell_by_id"
                       [("cell_id", PString "7")]])%list.
Proof. repeat split; vm_compute; reflexivity. Qed.

(** C3, as amended. The guard of [callTool] is the presence of a client,
    not the status. With no client stored for the name, [callTool] rejects
    at once with the not-connected error and changes nothing, so no request
    reaches a transport; this covers every Disconnected name between calls,
    and a name Failed by a [connect] none of whose attempts got a client
    connected on a name that had none. With a client stored, whatever the
    status, the call is sent through it. *)
Theorem callTool_guard serverName toolName p reply w :
  (clients w !! serverName = None →
     callTool serverName toolName p reply w =
       (Threw (notConnected serverName), w)) ∧
  (reachable w → stateOf serverName w = Disconnected →
     callTool serverName toolName p reply w =
       (Threw (notConnected serverName), w)) ∧
  (∀ config remote,
     name config = serverName → clients w !! serverName = None →
     (∀ i, ∃ e, remote i = ConnectRejects e) →
     let w' := (connect config remote w).2 in
     stateOf serverName w' = Failed ∧
     callTool serverName toolName p reply w' =
       (Threw (notConnected serverName), w')) ∧
  (∀ h, clients w !! serverName = Some h →
     callTool serverName toolName p reply w =
       (reply, send (CallToolReq h toolName p) w)).
Proof.
  assert (∀ w, clients w !! serverName = None →
     callTool serverName toolName p reply w =
       (Threw (notConnected serverName), w)) as Hnone.
  { intros w0 H. unfold callTool. by rewrite H. }
  split; [apply Hnone|]. split; [|split].
  - intros Hreach Hst. apply Hnone.
    destruct (reachable_consistent w Hreach) as [_ Hdom].
    unfold stateOf in Hst.
    destruct (clients w !! serverName) eqn:Hc; [|done].
    destruct (Hdom serverName) as [s Hs]; [by rewrite Hc|].
    rewrite Hs in Hst. by destruct (connected s).
  - intros config remote <- Hc Href w'. split.
    + destruct (retries_exhausted config remote 0 w) as (e&_&_&H&_);
        [lia | | exact H].
      intros i _. destruct (Href i) as [e ->]. by eexists.
    + apply Hnone. subst w'. unfold connect.
      by rewrite connectWithRetry_refused_clients.
  - intros h H. unfold callTool. by rewrite H.
Qed.

Lemma callTool_guard_witness :
  callTool "drawio" "mcp_drawio_add_edge" [] (Ok []) initial =
    (Threw (notConnected "drawio"), initial) ∧
  stateOf "drawio" (connect drawio down initial).2 = Failed.
Proof.
  destruct (callTool_guard "drawio" "mcp_drawio_add_edge" [] (Ok []) initial)
    as (H1 & H2 & H3 & H4).
  split.
  - apply H2; [apply rtc_refl | reflexivity].
  - destruct (H3 drawio down) as [H _];
      [reflexivity | reflexivity | intros i; by eexists | exact H].
Defined.

(** ** C6: what a health check touches *)

Lemma healthChecks_retryAttempts n replies :
  ∀ w, retryAttempts (healthChecks n replies w) = retryAttempts w.
Proof.
  induction replies as [|reply replies IH]; intros w; simpl; [done|].
  rewrite IH. unfold healthCheck.
  destruct (clients w !! n); [|done]. by destruct reply.
Qed.

(** C6. A failing health check on a name with a client returns [false] and
    replaces the status entry of that name (connected flag, time of the
    check, error message); it sends the listing request and changes nothing
    else: clients, transports, tool catalogs, retry counts, and the status
    of every other name are as before. After any number of health checks on
    a name that has just been connected the retry count is 0, as it was
    before them. On a name with no transport, in any world between calls, a
    health check returns [false] and leaves the world as it is. *)
Theorem healthCheck_frame n w :
  (∀ h e, clients w !! n = Some h →
     let r := healthCheck n (Threw e) w in
     r.1 = false ∧
     r.2 = setStatus n (statusFailed n e w) (send (ListToolsReq h) w) ∧
     connectionStatus r.2 !! n =
       Some {| connected := false; serverName := n; lastChecked := clock w;
               error := Some (errorMessage e) |} ∧
     (∀ m, m ≠ n → connectionStatus r.2 !! m = connectionStatus w !! m) ∧
     retryAttempts r.2 = retryAttempts w ∧
     clients r.2 = clients w ∧ transports r.2 = transports w ∧
     tools r.2 = tools w ∧ created r.2 = created w ∧ live r.2 = live w) ∧
  (∀ config remote ts replies,
     name config = n → remote 0 = Established ts →
     let w1 := (connect config remote w).2 in
     retryAttempts w1 !! n = Some 0 ∧
     retryAttempts (healthChecks n replies w1) !! n = Some 0) ∧
  (∀ reply, reachable w → transports w !! n = None →
     healthCheck n reply w = (false, w)) ∧
  (∀ reply, clients w !! n = None → healthCheck n reply w = (false, w)).
Proof.
  assert (∀ reply, clients w !! n = None → healthCheck n reply w = (false, w))
    as Hnone.
  { intros reply H. unfold healthCheck. by rewrite H. }
  split; [|split; [|split]]; [| | |exact Hnone].
  - intros h e Hc. unfold healthCheck. rewrite Hc. simpl.
    rewrite lookup_insert_eq. repeat split; try done.
    intros m Hm. by rewrite lookup_insert_ne.
  - intros config remote ts replies <- Hok w1.
    rewrite healthChecks_retryAttempts.
    destruct (retries_then_success config remote ts 0 0 w) as (_&_&H&_);
      [lia | intros; lia | done | by split].
  - intros reply Hreach Ht. apply Hnone.
    destruct (reachable_consistent w Hreach) as [Heq _]. by rewrite Heq.
Qed.

Lemma healthCheck_frame_witness :
  (let w1 := (connect drawio up initial).2 in
   retryAttempts w1 !! "drawio" = Some 0 ∧
   retryAttempts
     (healthChecks "drawio"
        [Threw (ErrorObj "timed out"); Threw NonError;
         Threw (ErrorObj "closed")] w1) !! "drawio" = Some 0) ∧
  healthCheck "drawio" (Ok []) initial = (false, initial).
Proof.
  split.
  - destruct (healthCheck_frame "drawio" initial) as (_ & H & _).
    apply (H drawio up []); reflexivity.
  - destruct (healthCheck_frame "drawio" initial) as (_ & _ & H & _).
    apply H; [apply rtc_refl | reflexivity].
Defined.

(** ** C4: the unimplemented operations *)

Lemma exportDiagram_throws format w :
  exportDiagram format w = (Threw (ErrorObj "Export not yet implemented"), w).
Proof. reflexivity. Qed.

(** C4, where the code departs from it. [exportDiagram] rejects on every
    call, but [applyLayout] resolves normally on every call, leaving the
    world as it found it: it completes as a no-op and raises nothing. *)
Theorem applyLayout_completes_silently algorithm w :
  applyLayout algorithm w = (Ok (), w).
Proof. reflexivity. Qed.

(** ** C10: the style lookup of [createShape] *)

Lemma getShapeStyle_fallback type :
  type ∉ ["rectangle"; "ellipse"; "cloud"; "cylinder"; "actor"] →
  type ∉ objectPrototype →
  getShapeStyle type = PString rectangleStyle.
Proof.
  intros Hfive Hproto. unfold getShapeStyle, getProperty, styles, ownProperty.
  repeat match goal with
  | |- context [String.eqb ?k type] =>
      destruct (String.eqb_spec k type) as [<-|_];
        [first [ reflexivity | exfalso; apply Hfive; set_solver ] |]
  end.
  by rewrite bool_decide_eq_false_2.
Qed.

(** C10, where the code departs from it. ["constructor"] is none of the
    five shape names, yet [styles["constructor"]] is not [undefined]: the
    literal inherits [constructor] from [Object.prototype], the value is
    truthy, and [||] never reaches [styles.default]. [createShape] then
    passes that inherited member, not the default style string, as [style]
    of the tool call. *)
Theorem createShape_constructor_style :
  ("constructor" ∉ ["rectangle"; "ellipse"; "cloud"; "cylinder"; "actor"]) ∧
  getShapeStyle "constructor" = PInherited "constructor" ∧
  getShapeStyle "constructor" ≠ PString rectangleStyle ∧
  let w1 := (connect drawio up initial).2 in
  requests (createShape "constructor" "Box" {| x := 40; y := 40 |} None None
              (Ok [{| text := Some "2" |}]) w1).2 =
    (requests w1 ++
     [CallToolReq 0 "mcp_drawio_add_rectangle"
        [("text", PString "Box"); ("x", PNumber 40); ("y", PNumber 40);
         ("width", PNumber 120); ("height", PNumber 60);
         ("style", PInherited "constructor")]])%list.
Proof.
  split; [|split; [|split]]; [| reflexivity | discriminate |].
  - intros H. repeat (apply elem_of_cons in H as [H|H]; [discriminate H|]).
    by apply elem_of_nil in H.
  - vm_compute. reflexivity.
Qed.

End MCPFacts.

(** * Properties of the session store *)

Module SessionFacts.
Import Sessions.

(** ** Database calls that are not made to fail *)

Lemma nextFault_healthy db :
  healthy db →
  ∃ db', nextFault db = (None, db') ∧ sessions db' = sessions db ∧ healthy db'.
Proof.
  unfold healthy, nextFault. intros H.
  destruct (faults db) as [|f fs] eqn:Hf.
  - exists db. by rewrite Hf.
  - apply Forall_cons in H as [-> H]. by eexists.
Qed.

Lemma run_delete_healthy i db :
  healthy db →
  ∃ db', run_delete i db = (Ok (), db') ∧
    sessions db' = delete i (sessions db) ∧ healthy db'.
Proof.
  intros H. destruct (nextFault_healthy db H) as (db' & Hn & Hs & Hh).
  unfold run_delete. rewrite Hn. eexists. split; [done|]. simpl.
  by rewrite Hs.
Qed.

Lemma run_insert_fresh row db :
  healthy db → sessions db !! row_id row = None →
  ∃ db', run_insert row db = (Ok (), db') ∧
    sessions db' = <[row_id row := row]> (sessions db) ∧ healthy db'.
Proof.
  intros H Hfresh. destruct (nextFault_healthy db H) as (db' & Hn & Hs & Hh).
  unfold run_insert. rewrite Hn, Hs, Hfresh. by eexists.
Qed.

Lemma get_by_id_healthy i db :
  healthy db →
  ∃ db', get_by_id i db = (Ok (sessions db !! i), db') ∧
    sessions db' = sessions db ∧ healthy db'.
Proof.
  intros H. destruct (nextFault_healthy db H) as (db' & Hn & Hs & Hh).
  unfold get_by_id. rewrite Hn, Hs. by eexists.
Qed.

Lemma getSession_healthy i db :
  healthy db →
  ∃ db', getSession i db = (Ok (rowToSession <$> sessions db !! i), db') ∧
    sessions db' = sessions db ∧ healthy db'.
Proof.
  intros H. destruct (get_by_id_healthy i db H) as (db' & Hg & Hs & Hh).
  unfold getSession. rewrite Hg. exists db'.
  by destruct (sessions db !! i).
Qed.

Lemma stringify_parse {A} (t : json A) : stringify (parse t) = t.
Proof. by destruct t. Qed.


Lemma rowToSession_sessionToRow s : rowToSession (sessionToRow s) = s.
Proof. destruct s as [? ? ? ? [d|] ?]; reflexivity. Qed.

Lemma sessionToRow_rowToSession row : sessionToRow (rowToSession row) = row.
Proof. by destruct row as [? [?] [?] [?] [[?]|] [?]]. Qed.

(** ** C9: [deleteSession] *)

(** C9. When the database executes the statements, [deleteSession]
    resolves for every id and removes the row under that id if there is
    one: on an id with no row the table is left as it was, a second
    [deleteSession] on the same id resolves too and changes nothing more,
    and [getSession] on the id then finds nothing ([null], the not-found
    signal). *)
Theorem deleteSession_idempotent i db :
  healthy db →
  let r := deleteSession i db in
  r.1 = Ok () ∧ sessions r.2 = delete i (sessions db) ∧
  (sessions db !! i = None → sessions r.2 = sessions db) ∧
  (deleteSession i r.2).1 = Ok () ∧
  sessions (deleteSession i r.2).2 = sessions r.2 ∧
  (getSession i r.2).1 = Ok None.
Proof.
  intros H. cbv zeta. unfold deleteSession.
  destruct (run_delete_healthy i db H) as (db1 & -> & Hs1 & Hh1).
  cbn [fst snd].
  destruct (run_delete_healthy i db1 Hh1) as (db2 & -> & Hs2 & Hh2).
  destruct (getSession_healthy i db1 Hh1) as (db3 & -> & _).
  cbn [fst snd]. rewrite Hs2, Hs1, delete_delete_eq, lookup_delete_eq.
  repeat split; try done. intros Hnone. by apply delete_id.
Qed.

Lemma deleteSession_idempotent_witness :
  (deleteSession "zz" sampleDb).1 = Ok () ∧
  sessions (deleteSession "zz" sampleDb).2 = sessions sampleDb ∧
  (getSession "a" (deleteSession "a" sampleDb).2).1 = Ok None.
Proof.
  assert (healthy sampleDb) as H by constructor.
  destruct (deleteSession_idempotent "zz" sampleDb H) as (H1 & _ & H3 & _).
  destruct (deleteSession_idempotent "a" sampleDb H) as (_ & _ & _ & _ & _ & H6).
  split; [exact H1|]. split; [|exact H6].
  apply H3. vm_compute. reflexivity.
Defined.

(** ** C8: [createSession] *)

(** C8, refuted at a concrete run. The object literal of [createSession]
    reads the clock twice, first for [createdAt], then for
    [lastAccessedAt]. When the clock moves from 1700000000000 to
    1700000000001 between the two readings, the session returned has a
    [lastAccessedAt] one millisecond after its [createdAt]. *)
Lemma createSession_reads_clock_twice :
  ∃ s, (createSession "3f2a" t0 (t0 + 1) emptyDb).1 = Ok s ∧
       createdAt s ≠ lastAccessedAt s.
Proof. eexists. split; [reflexivity|]. vm_compute. discriminate. Qed.

(** C8, as amended. When the database executes the statements and the id
    drawn is not in the table, [createSession] returns a session with that
    id, [createdAt] the first clock reading and [lastAccessedAt] the second
    (equal when the two readings are), an empty chat history, no diagram
    and the default config; the row is in the table when it returns, and
    [getSession] on the id gives the same session back. An id that is
    already in the table is never returned: the insert is rejected. *)
Theorem createSession_then_getSession uuid t1 t2 db :
  healthy db →
  (sessions db !! uuid = None →
   let r := createSession uuid t1 t2 db in
   let s := {| id := uuid; createdAt := t1; lastAccessedAt := t2;
               chatHistory := []; currentDiagram := None;
               config := defaultConfig |} in
   r.1 = Ok s ∧
   (t1 = t2 → createdAt s = lastAccessedAt s) ∧
   sessions r.2 = <[uuid := sessionToRow s]> (sessions db) ∧
   (getSession uuid r.2).1 = Ok (Some s)) ∧
  (∀ s, (createSession uuid t1 t2 db).1 = Ok s →
        id s = uuid ∧ sessions db !! uuid = None).
Proof.
  intros H. split.
  - intros Hfresh. cbv zeta.
    destruct (run_insert_fresh (sessionToRow
                {| id := uuid; createdAt := t1; lastAccessedAt := t2;
                   chatHistory := []; currentDiagram := None;
                   config := defaultConfig |}) db H Hfresh)
      as (db1 & Hi & Hs & Hh).
    unfold createSession. unfold sessionToRow in Hi. simpl in Hi.
    cbn [id createdAt lastAccessedAt chatHistory config]. rewrite Hi.
    cbn [fst snd].
    destruct (getSession_healthy uuid db1 Hh) as (db2 & -> & _).
    rewrite Hs. simpl. rewrite lookup_insert_eq.
    split; [done|]. split; [done|]. split; [done|]. reflexivity.
  - intros s. unfold createSession, run_insert.
    destruct (nextFault_healthy db H) as (db1 & -> & Hs & Hh).
    simpl. rewrite Hs.
    destruct (sessions db !! uuid); simpl; [intros [=]|].
    intros [= <-]. done.
Qed.

Lemma createSession_then_getSession_witness :
  (getSession "3f2a" (createSession "3f2a" t0 (t0 + 1) sampleDb).2).1 =
  Ok (Some {| id := "3f2a"; createdAt := t0; lastAccessedAt := t0 + 1;
              chatHistory := []; currentDiagram := None;
              config := defaultConfig |}).
Proof.
  assert (healthy sampleDb) as H by constructor.
  destruct (createSession_then_getSession "3f2a" t0 (t0 + 1) sampleDb H)
    as [H1 _].
  destruct H1 as (_ & _ & _ & H4); [vm_compute; reflexivity|]. exact H4.
Defined.

(** ** C7: [updateSession] *)

Lemma alter_present (f : SessionRow → SessionRow) i row (m : gmap string SessionRow) :
  m !! i = Some row → alter f i m = <[i := f row]> m.
Proof.
  intros H. apply map_eq. intros j. destruct (decide (i = j)) as [<-|Hne].
  - by rewrite lookup_alter_eq, lookup_insert_eq, H.
  - by rewrite lookup_alter_ne, lookup_insert_ne.
Qed.



(** ** C5: the expiry sweep *)

Lemma lookup_foldl_delete (ids : list string) :
  ∀ (m : gmap string SessionRow) k,
    foldl (λ m i, delete i m) m ids !! k =
    if decide (k ∈ ids) then None else m !! k.
Proof.
  induction ids as [|i ids IH]; intros m k; cbn [foldl].
  - rewrite decide_False; [done|]. apply not_elem_of_nil.
  - rewrite IH. destruct (decide (k ∈ ids)) as [Hin|Hnin].
    + rewrite decide_True; [done|]. by apply elem_of_cons; right.
    + destruct (decide (k = i)) as [->|Hne].
      * rewrite lookup_delete_eq, decide_True; [done|]. by apply elem_of_cons; left.
      * rewrite lookup_delete_ne by done. rewrite decide_False; [done|].
        intros [?|?]%elem_of_cons; done.
Qed.

Lemma deleteEach_healthy ids :
  ∀ db, healthy db →
    ∃ db', deleteEach ids db = (Ok (), db') ∧
      sessions db' = foldl (λ m i, delete i m) (sessions db) ids ∧ healthy db'.
Proof.
  induction ids as [|i ids IH]; intros db H; simpl.
  - by exists db.
  - unfold deleteSession.
    destruct (run_delete_healthy i db H) as (db1 & -> & Hs1 & Hh1).
    destruct (IH db1 Hh1) as (db2 & -> & Hs2 & Hh2).
    exists db2. by rewrite Hs2, Hs1.
Qed.

Lemma elem_of_selected_keys (P : string * SessionRow → Prop)
    `{∀ kr, Decision (P kr)} (m : gmap string SessionRow) k :
  k ∈ (map_to_list (filter P m)).*1 ↔ ∃ row, m !! k = Some row ∧ P (k, row).
Proof.
  rewrite list_elem_of_fmap. split.
  - intros [[k' row] [-> Hin]]. apply elem_of_map_to_list in Hin.
    apply map_lookup_filter_Some in Hin. eauto.
  - intros [row Hrow]. exists (k, row). split; [done|].
    apply elem_of_map_to_list. by apply map_lookup_filter_Some.
Qed.

Lemma deleteEach_fault ids :
  ∀ db (j : nat) e tail,
    faults db = (replicate j None ++ Some e :: tail)%list → j < length ids →
    ∃ db', deleteEach ids db = (Threw e, db') ∧
      sessions db' = foldl (λ m i, delete i m) (sessions db) (take j ids) ∧
      faults db' = tail.
Proof.
  induction ids as [|i ids IH]; intros db j e tail Hf Hj; [simpl in Hj; lia|].
  cbn [deleteEach]. unfold deleteSession, run_delete, nextFault.
  destruct j as [|j]; simpl in Hf; rewrite Hf.
  - by eexists.
  - cbv beta iota.
    match goal with
    | |- context [deleteEach ids ?d] =>
        destruct (IH d j e tail) as (db' & -> & Hs & Ht);
          [done | simpl in Hj; lia |]
    end.
    by exists db'.
Qed.

Lemma foldl_delete_keeps (ids : list string) (m : gmap string SessionRow) k :
  k ∉ ids → foldl (λ m i, delete i m) m ids !! k = m !! k.
Proof. intros H. rewrite lookup_foldl_delete. by rewrite decide_False. Qed.

(** *** The cutoff and the comparison under the conditions named *)

Lemma expiryTimeAt_steady tz now :
  steadyOffset tz now → expiryTimeAt tz now = (now - 24 * hour)%Z.
Proof. unfold steadyOffset, expiryTimeAt. cbv zeta. intros ->. lia. Qed.

Lemma fourDigitYear_valid t : fourDigitYear t → (maxTime <? Z.abs t)%Z = false.
Proof.
  unfold fourDigitYear, year0000, year10000, maxTime. intros H.
  apply Z.ltb_ge. lia.
Qed.

Lemma isoPrefix_fourDigit a : fourDigitYear (instant a) → isoPrefix a = (2, 0)%Z.
Proof.
  unfold fourDigitYear, isoPrefix. intros [H1 H2].
  rewrite (proj2 (Z.ltb_ge _ _) H1). by rewrite (proj2 (Z.ltb_lt _ _) H2).
Qed.

Lemma textLt_fourDigit a b :
  fourDigitYear (instant a) → fourDigitYear (instant b) →
  textLt a b ↔ (instant a < instant b)%Z.
Proof.
  intros Ha Hb. unfold textLt.
  rewrite (isoPrefix_fourDigit a Ha), (isoPrefix_fourDigit b Hb). simpl. lia.
Qed.

Lemma filter_expired now (m : gmap string SessionRow) :
  fourDigitYear (now - 24 * hour) → fourDigitYears m →
  filter (λ kr, accessedBefore (toISOString (now - 24 * hour)) kr.2) m =
  filter (λ kr, expired now kr.2) m ∧
  filter (λ kr, ¬ accessedBefore (toISOString (now - 24 * hour)) kr.2) m =
  filter (λ kr, ¬ expired now kr.2) m.
Proof.
  intros Hc Hm.
  split; apply map_filter_ext; intros k row Hk; unfold accessedBefore, expired;
    simpl; by rewrite (textLt_fourDigit _ (toISOString (now - 24 * hour))
                         (Hm k row Hk) Hc).
Qed.

(** *** The scan *)

Lemma scanned_keys (order : ScanOrder) (P : string * SessionRow → Prop)
    `{∀ kr, Decision (P kr)} (m : gmap string SessionRow) :
  returnsEachOnce order →
  (order (map_to_list (filter P m))).*1 ≡ₚ (map_to_list (filter P m)).*1.
Proof. intros Ho. by rewrite (Ho _). Qed.

Lemma elem_of_scanned_keys (order : ScanOrder) (P : string * SessionRow → Prop)
    `{∀ kr, Decision (P kr)} (m : gmap string SessionRow) k :
  returnsEachOnce order →
  k ∈ (order (map_to_list (filter P m))).*1 ↔ ∃ row, m !! k = Some row ∧ P (k, row).
Proof.
  intros Ho. rewrite (scanned_keys order P m Ho). apply elem_of_selected_keys.
Qed.

Lemma NoDup_scanned_keys (order : ScanOrder) (P : string * SessionRow → Prop)
    `{∀ kr, Decision (P kr)} (m : gmap string SessionRow) :
  returnsEachOnce order → NoDup (order (map_to_list (filter P m))).*1.
Proof.
  intros Ho. rewrite (scanned_keys order P m Ho). apply NoDup_fst_map_to_list.
Qed.

Lemma length_scanned_keys (order : ScanOrder) (P : string * SessionRow → Prop)
    `{∀ kr, Decision (P kr)} (m : gmap string SessionRow) :
  returnsEachOnce order →
  length (order (map_to_list (filter P m))).*1 = size (filter P m).
Proof.
  intros Ho. rewrite (scanned_keys order P m Ho).
  by rewrite length_fmap, length_map_to_list.
Qed.

Lemma byLastAccessed_returnsEachOnce : returnsEachOnce byLastAccessed.
Proof. intros l. apply merge_sort_Permutation. Qed.

(** *** The sweep with its cutoff as it is computed *)

Lemma cleanup_unfold tz order now db :
  (maxTime <? Z.abs (expiryTimeAt tz now))%Z = false →
  cleanupExpiredSessions tz order now db =
  match all_accessedBefore (toISOString (expiryTimeAt tz now)) order db with
  | (Threw e, db) => (Threw e, db)
  | (Ok expiredSessions, db) =>
      match deleteEach expiredSessions db with
      | (Threw e, db) => (Threw e, db)
      | (Ok _, db) => (Ok (length expiredSessions), db)
      end
  end.
Proof. intros Hv. unfold cleanupExpiredSessions. cbv zeta. by rewrite Hv. Qed.

(** When the storage works, the sweep removes the rows whose text is before
    the text of the cutoff, those only, and counts them. *)
Lemma cleanup_healthy tz order now db :
  (maxTime <? Z.abs (expiryTimeAt tz now))%Z = false →
  returnsEachOnce order → healthy db →
  let cutoff := toISOString (expiryTimeAt tz now) in
  ∃ db', cleanupExpiredSessions tz order now db =
           (Ok (size (filter (λ kr, accessedBefore cutoff kr.2) (sessions db))),
            db') ∧
    sessions db' = filter (λ kr, ¬ accessedBefore cutoff kr.2) (sessions db) ∧
    healthy db'.
Proof.
  intros Hv Ho H. cbv zeta. rewrite (cleanup_unfold tz order now db Hv).
  unfold all_accessedBefore.
  destruct (nextFault_healthy db H) as (db1 & -> & Hs1 & Hh1).
  cbv beta iota.
  match goal with
  | |- context [deleteEach ?ids db1] =>
      destruct (deleteEach_healthy ids db1 Hh1) as (db2 & -> & Hs2 & Hh2)
  end.
  exists db2. rewrite Hs1 in *. split; [|split; [|done]].
  - f_equal. f_equal. by apply length_scanned_keys.
  - rewrite Hs2. apply map_eq. intros k. rewrite lookup_foldl_delete.
    apply option_eq. intros row. rewrite map_lookup_filter_Some.
    destruct (decide (k ∈ _)) as [Hin|Hnin].
    + apply elem_of_scanned_keys in Hin as (row' & Hk & Hexp); [|done].
      split; [done|]. intros [Hk' Hnexp]. simplify_eq. by destruct Hnexp.
    + split; [|by intros [? _]]. intros Hk. split; [done|].
      intros Hexp. apply Hnin. apply elem_of_scanned_keys; eauto.
Qed.

(** The sweep when the scan goes through and the [DELETE] number [j] is the
    first call to be rejected. *)
Lemma cleanup_fault tz order now db (j : nat) e tail :
  (maxTime <? Z.abs (expiryTimeAt tz now))%Z = false →
  returnsEachOnce order →
  faults db = (None :: replicate j None ++ Some e :: tail)%list →
  let ids :=
    (order (map_to_list
              (filter (λ kr, accessedBefore (toISOString (expiryTimeAt tz now)) kr.2)
                 (sessions db)))).*1 in
  j < length ids →
  let r := cleanupExpiredSessions tz order now db in
  r.1 = Threw e ∧
  sessions r.2 = foldl (λ m i, delete i m) (sessions db) (take j ids) ∧
  (∀ i, i ∈ drop j ids → sessions r.2 !! i = sessions db !! i).
Proof.
  intros Hv Ho Hf ids Hj.
  assert (cleanupExpiredSessions tz order now db =
          match deleteEach ids {| sessions := sessions db;
                 faults := (replicate j None ++ Some e :: tail)%list |} with
          | (Threw e, db) => (Threw e, db)
          | (Ok _, db) => (Ok (length ids), db)
          end) as ->.
  { rewrite (cleanup_unfold tz order now db Hv).
    unfold all_accessedBefore, nextFault. rewrite Hf. reflexivity. }
  destruct (deleteEach_fault ids
              {| sessions := sessions db;
                 faults := (replicate j None ++ Some e :: tail)%list |}
              j e tail) as (db' & -> & Hs & _); [done..|].
  cbn [fst snd]. cbn [sessions] in Hs. split; [done|]. split; [done|].
  intros i Hi. rewrite Hs. apply foldl_delete_keeps. intros Hi'.
  pose proof (NoDup_scanned_keys order
                (λ kr, accessedBefore (toISOString (expiryTimeAt tz now)) kr.2)
                (sessions db) Ho) as Hnd.
  fold ids in Hnd. rewrite <- (take_drop j ids) in Hnd.
  apply NoDup_app in Hnd as (_ & Hdisj & _). by apply (Hdisj i).
Qed.

(** *** The sweep outside the conditions named *)

(** When the clocks went forward by an hour within the last 24 hours, the
    cutoff is 23 hours before [now]: a session last accessed 23.5 hours
    ago is removed. *)
Lemma sweep_after_clocks_went_forward :
  let tz := springForward (t0 - 2 * hour) in
  let idle := (t0 - 23 * hour - 1800000)%Z in
  let db := {| sessions := {["d" := rowAt "d" idle]}; faults := [] |} in
  expiryTimeAt tz t0 = (t0 - 23 * hour)%Z ∧
  ¬ expired t0 (rowAt "d" idle) ∧
  (cleanupExpiredSessions tz byLastAccessed t0 db).1 = Ok 1 ∧
  sessions (cleanupExpiredSessions tz byLastAccessed t0 db).2 !! "d" = None.
Proof. repeat split; vm_compute; (reflexivity || discriminate). Qed.

(** The text of a year from 10000 on starts with [+] and is before every
    text of a four-digit year, and the texts of two negative years are in
    the order of the absolute years: a row stamped in the year 10000
    qualifies for a cutoff of 2023. *)
Lemma text_order_outside_four_digit_years :
  textLt (toISOString year10000) (toISOString t0) ∧
  ¬ textLt (toISOString t0) (toISOString year10000) ∧
  textLt (toISOString (year0000 - 1)) (toISOString t0) ∧
  textLt (toISOString (year0000 - 1)) (toISOString (year0000 - 400 * msPerDay)) ∧
  accessedBefore (toISOString (expiryTimeAt utc t0)) (rowAt "z" year10000).
Proof.
  split_and!; apply (bool_decide_unpack _); vm_compute; exact I.
Qed.

(** A cutoff outside the range of [Date] makes [toISOString] throw before
    any statement is sent. *)
Lemma sweep_of_invalid_cutoff order now db :
  (maxTime < Z.abs (now - 24 * hour))%Z →
  cleanupExpiredSessions utc order now db =
  (Threw (ErrorObj "Invalid time value"), db).
Proof.
  intros H. unfold cleanupExpiredSessions, expiryTimeAt, utc. cbn.
  replace (now + 0 - 24 * hour - 0)%Z with (now - 24 * hour)%Z by lia.
  by rewrite (proj2 (Z.ltb_lt _ _) H).
Qed.

(** C5, refuted at a concrete run, on a host on UTC whose scan goes through
    the index. The table holds "a" (idle for 25 h), "b" (idle for 30 h) and
    "c" (idle for 1 h); the scan returns "b" and then "a"; the [DELETE] of
    "b" goes through and the [DELETE] of "a" is rejected, the only call
    that is. The sweep rejects with that error and stops: "b" is gone and
    "a", which is as expired as "b" was, is still in the table; no count is
    reported. *)
Lemma cleanup_stops_at_first_failure :
  let r := cleanupExpiredSessions utc byLastAccessed t0 lockedDb in
  r.1 = Threw (ErrorObj "SQLITE_BUSY: database is locked") ∧
  faults r.2 = [] ∧
  sessions r.2 !! "b" = None ∧
  sessions r.2 !! "a" = Some (rowAt "a" (t0 - 25 * hour)) ∧
  expired t0 (rowAt "a" (t0 - 25 * hour)) ∧
  expired t0 (rowAt "b" (t0 - 30 * hour)).
Proof. repeat split; vm_compute; reflexivity. Qed.

(** C5, as amended. On a host whose offset from UTC is the same at [now]
    and 24 local hours before it, with the cutoff and the stored
    timestamps in the years 0000 to 9999, and a scan that returns each
    qualifying row once, in whatever order: when the database executes the
    statements, the sweep at [now] removes exactly the rows whose
    [last_accessed_at] is strictly before [now] minus 24 hours (a row last
    accessed 25 hours ago goes, one last accessed 1 hour ago stays) and
    reports the number of rows that qualified. A rejected [DELETE] is not
    caught: when the scan goes through and the [DELETE] number [j] (from 0,
    in the order in which the scan returned the rows) is the first call to
    be rejected, the sweep rejects with that error, the [j] sessions before
    it are gone, and the one it was for and those after it are still in
    the table. *)
Theorem cleanup_sweeps_expired tz order now db :
  steadyOffset tz now → fourDigitYear (now - 24 * hour) →
  fourDigitYears (sessions db) → returnsEachOnce order →
  (healthy db →
   let r := cleanupExpiredSessions tz order now db in
   r.1 = Ok (size (filter (λ kr, expired now kr.2) (sessions db))) ∧
   sessions r.2 = filter (λ kr, ¬ expired now kr.2) (sessions db) ∧
   (∀ i row, sessions db !! i = Some row →
      instant (last_accessed_at row) = (now - 25 * hour)%Z →
      sessions r.2 !! i = None) ∧
   (∀ i row, sessions db !! i = Some row →
      instant (last_accessed_at row) = (now - 1 * hour)%Z →
      sessions r.2 !! i = Some row)) ∧
  (∀ (j : nat) e tail,
     faults db = (None :: replicate j None ++ Some e :: tail)%list →
     let ids :=
       (order (map_to_list
                 (filter (λ kr, expired now kr.2) (sessions db)))).*1 in
     j < length ids →
     let r := cleanupExpiredSessions tz order now db in
     r.1 = Threw e ∧
     sessions r.2 = foldl (λ m i, delete i m) (sessions db) (take j ids) ∧
     (∀ i, i ∈ drop j ids → sessions r.2 !! i = sessions db !! i)).
Proof.
  intros Hsteady Hc Hrows Ho.
  pose proof (expiryTimeAt_steady tz now Hsteady) as Hcut.
  pose proof (fourDigitYear_valid _ Hc) as Hv. rewrite <- Hcut in Hv.
  destruct (filter_expired now (sessions db) Hc Hrows) as [Hyes Hno].
  split.
  - intros H. cbv zeta.
    destruct (cleanup_healthy tz order now db Hv Ho H) as (db2 & -> & Hs2 & _).
    cbn [fst snd]. rewrite Hcut in *. rewrite Hyes. rewrite Hno in Hs2.
    split; [done|]. split; [done|]. split.
    + intros i row Hrow Hla. rewrite Hs2.
      apply map_lookup_filter_None. right. intros row' Hrow' Hn.
      simplify_eq. apply Hn. unfold expired. simpl. rewrite Hla.
      unfold hour. lia.
    + intros i row Hrow Hla. rewrite Hs2.
      apply map_lookup_filter_Some. split; [done|].
      unfold expired. simpl. rewrite Hla. unfold hour. lia.
  - intros j e tail Hf ids Hj.
    pose proof (cleanup_fault tz order now db j e tail Hv Ho Hf) as Hfault.
    cbv zeta in Hfault. rewrite Hcut, Hyes in Hfault. by apply Hfault.
Qed.

Lemma threeRows_fourDigitYears : fourDigitYears threeRows.
Proof.
  intros k row Hk. unfold threeRows in Hk.
  repeat (apply lookup_insert_Some in Hk as [[_ <-]|[_ Hk]];
          [vm_compute; split; [discriminate|reflexivity]|]).
  by rewrite lookup_empty in Hk.
Qed.

Lemma cleanup_sweeps_expired_witness :
  (cleanupExpiredSessions utc byLastAccessed t0 sampleDb).1 = Ok 2 ∧
  sessions (cleanupExpiredSessions utc byLastAccessed t0 sampleDb).2 !! "a" = None ∧
  sessions (cleanupExpiredSessions utc byLastAccessed t0 sampleDb).2 !! "c" =
    Some (rowAt "c" (t0 - 1 * hour)) ∧
  sessions (cleanupExpiredSessions utc byLastAccessed t0 lockedDb).2 =
    delete "b" threeRows.
Proof.
  assert (fourDigitYear (t0 - 24 * hour)) as Hc
    by (vm_compute; split; [discriminate|reflexivity]).
  destruct (cleanup_sweeps_expired utc byLastAccessed t0 sampleDb eq_refl Hc
              threeRows_fourDigitYears byLastAccessed_returnsEachOnce)
    as [H1 _].
  destruct (cleanup_sweeps_expired utc byLastAccessed t0 lockedDb eq_refl Hc
              threeRows_fourDigitYears byLastAccessed_returnsEachOnce)
    as [_ H2].
  destruct H1 as (Hcount & _ & Ha & Hb); [constructor|].
  split; [|split; [|split]].
  - etrans; [exact Hcount|]. vm_compute. reflexivity.
  - apply (Ha "a" (rowAt "a" (t0 - 25 * hour))); reflexivity.
  - apply (Hb "c" (rowAt "c" (t0 - 1 * hour))); reflexivity.
  - destruct (H2 1 (ErrorObj "SQLITE_BUSY: database is locked") [])
      as (_ & Hs & _); [reflexivity | vm_compute; lia |].
    etrans; [exact Hs|]. vm_compute. reflexivity.
Defined.

End SessionFacts.

(** * Further properties of the MCP client *)

Module MCPMore.
Import MCP MCPFacts.

(** ** [disconnect] *)

(** X1. [disconnect] on a name that has no client (or no transport)
    resolves and changes nothing. On a name that has both, when the two
    [close] calls resolve, it removes the client, the transport, the tool
    catalog and the status of that name, so that the name is Disconnected
    and its catalog reads as empty; the transport it closed is no longer
    live; the retry count, the requests sent and the entries of every other
    name are as before; and a second [disconnect] changes nothing more. *)
Theorem disconnect_idempotent n w :
  (clients w !! n = None ∨ transports w !! n = None →
   ∀ closes, disconnect n closes w = (Ok (), w)) ∧
  (∀ c t, clients w !! n = Some c → transports w !! n = Some t →
     let r := disconnect n (Ok (), Ok ()) w in
     r.1 = Ok () ∧
     clients r.2 !! n = None ∧ transports r.2 !! n = None ∧
     stateOf n r.2 = Disconnected ∧ listTools n r.2 = [] ∧
     (∀ m, ((m, c) ∉ live r.2) ∧ ((m, t) ∉ live r.2)) ∧
     retryAttempts r.2 = retryAttempts w ∧ requests r.2 = requests w ∧
     created r.2 = created w ∧
     (∀ m, m ≠ n →
        clients r.2 !! m = clients w !! m ∧
        transports r.2 !! m = transports w !! m ∧
        connectionStatus r.2 !! m = connectionStatus w !! m ∧
        tools r.2 !! m = tools w !! m) ∧
     ∀ closes, disconnect n closes r.2 = (Ok (), r.2)).
Proof.
  split.
  - intros H closes. unfold disconnect.
    destruct H as [-> | ->]; [done|]. by destruct (clients w !! n).
  - intros c t Hc Ht. cbv zeta.
    assert (disconnect n (Ok (), Ok ()) w =
            (Ok (), forget n (closeTransport t (closeTransport c w)))) as ->.
    { unfold disconnect. by rewrite Hc, Ht. }
    unfold stateOf, listTools. simpl. rewrite !lookup_delete_eq. simpl.
    split_and!; try done.
    + intros m. split.
      * intros Hin. apply list_elem_of_filter in Hin as [_ Hin].
        apply list_elem_of_filter in Hin as [Hne _]. by apply Hne.
      * intros Hin. apply list_elem_of_filter in Hin as [Hne _]. by apply Hne.
    + intros m Hm. by rewrite !lookup_delete_ne.
    + intros closes. unfold disconnect. simpl. by rewrite lookup_delete_eq.
Qed.

Lemma disconnect_idempotent_witness :
  disconnect "drawio" (Ok (), Ok ()) initial = (Ok (), initial) ∧
  stateOf "drawio"
    (disconnect "drawio" (Ok (), Ok ()) (connect drawio up initial).2).2 =
    Disconnected.
Proof.
  split.
  - destruct (disconnect_idempotent "drawio" initial) as [H _].
    apply H. left. reflexivity.
  - destruct (disconnect_idempotent "drawio" (connect drawio up initial).2)
      as [_ H].
    destruct (H 0 0) as (_ & _ & _ & Hs & _);
      [vm_compute; reflexivity | vm_compute; reflexivity |].
    exact Hs.
Defined.

(** X2. When [client.close()] rejects, [disconnect] rejects with that error
    and the world is untouched; when it resolves and [transport.close()]
    rejects, [disconnect] rejects with that error and no entry is removed.
    Either way the name keeps its client, so [callTool] on it still goes
    through to the transport. *)
Theorem disconnect_close_failure n w c t e :
  clients w !! n = Some c → transports w !! n = Some t →
  (∀ second, disconnect n (Threw e, second) w = (Threw e, w)) ∧
  (let r := disconnect n (Ok (), Threw e) w in
   r.1 = Threw e ∧ clients r.2 = clients w ∧ transports r.2 = transports w ∧
   connectionStatus r.2 = connectionStatus w ∧ tools r.2 = tools w ∧
   retryAttempts r.2 = retryAttempts w ∧
   ∀ toolName p reply,
     callTool n toolName p reply r.2 =
       (reply, send (CallToolReq c toolName p) r.2)).
Proof.
  intros Hc Ht. split.
  - intros second. unfold disconnect. by rewrite Hc, Ht.
  - cbv zeta.
    assert (disconnect n (Ok (), Threw e) w = (Threw e, closeTransport c w)) as ->.
    { unfold disconnect. by rewrite Hc, Ht. }
    simpl. split_and!; try done.
    intros toolName p reply. unfold callTool. simpl. by rewrite Hc.
Qed.

Lemma disconnect_close_failure_witness :
  let w := (connect drawio up initial).2 in
  (disconnect "drawio" (Ok (), Threw (ErrorObj "EPIPE")) w).1 =
    Threw (ErrorObj "EPIPE") ∧
  clients (disconnect "drawio" (Ok (), Threw (ErrorObj "EPIPE")) w).2 !! "drawio" =
    Some 0.
Proof.
  destruct (disconnect_close_failure "drawio" (connect drawio up initial).2
              0 0 (ErrorObj "EPIPE")) as [_ (H1 & H2 & _)];
    [vm_compute; reflexivity | vm_compute; reflexivity |].
  split; [exact H1|]. cbv zeta. rewrite H2. vm_compute. reflexivity.
Defined.

(** ** [connect]: what it leaves alone, how long it waits, what it starts *)

Lemma tryConnect_other_names config o w m :
  m ≠ name config →
  let w1 := (tryConnect config o w).2 in
  clients w1 !! m = clients w !! m ∧ transports w1 !! m = transports w !! m ∧
  connectionStatus w1 !! m = connectionStatus w !! m ∧
  tools w1 !! m = tools w !! m ∧ retryAttempts w1 !! m = retryAttempts w !! m ∧
  liveFor m w1 = liveFor m w.
Proof.
  intros Hm. unfold tryConnect, liveFor.
  destruct o; simpl; rewrite ?lookup_insert_ne by done;
    rewrite ?filter_app, ?filter_cons_False, ?filter_nil, ?app_nil_r
      by (simpl; congruence);
    done.
Qed.

Lemma connectWithRetry_other_names config remote m :
  m ≠ name config →
  ∀ a w,
    let r := connectWithRetry config a remote w in
    clients r.2 !! m = clients w !! m ∧ transports r.2 !! m = transports w !! m ∧
    connectionStatus r.2 !! m = connectionStatus w !! m ∧
    tools r.2 !! m = tools w !! m ∧ retryAttempts r.2 !! m = retryAttempts w !! m ∧
    liveFor m r.2 = liveFor m w.
Proof.
  intros Hm. cbv zeta.
  apply (connectWithRetry_run_ind config remote (λ _ w r,
    clients r.2 !! m = clients w !! m ∧ transports r.2 !! m = transports w !! m ∧
    connectionStatus r.2 !! m = connectionStatus w !! m ∧
    tools r.2 !! m = tools w !! m ∧ retryAttempts r.2 !! m = retryAttempts w !! m ∧
    liveFor m r.2 = liveFor m w)).
  - intros a w u w1 Htry.
    pose proof (tryConnect_other_names config (remote a) w m Hm) as H.
    by rewrite Htry in H.
  - intros a w e w1 w2 r Htry Hlt -> -> (H1 & H2 & H3 & H4 & H5 & H6).
    pose proof (tryConnect_other_names config (remote a) w m Hm) as H.
    rewrite Htry in H. simpl in H. destruct H as (G1 & G2 & G3 & G4 & G5 & G6).
    rewrite H1, H2, H3, H4, H5, H6. simpl. rewrite lookup_insert_ne by done.
    by rewrite G1, G2, G3, G4, G5.
  - intros a w e w1 Htry Hlt.
    pose proof (tryConnect_other_names config (remote a) w m Hm) as H.
    rewrite Htry in H. simpl in H. destruct H as (G1 & G2 & G3 & G4 & G5 & G6).
    simpl. rewrite lookup_insert_ne by done. done.
Qed.

(** X3. A [connect] for one name leaves every other name alone: its
    client, transport, status, tool catalog, retry count and live
    transports are what they were, however the run goes. *)
Theorem connect_leaves_other_names config remote w m :
  m ≠ name config →
  let r := connect config remote w in
  clients r.2 !! m = clients w !! m ∧ transports r.2 !! m = transports w !! m ∧
  connectionStatus r.2 !! m = connectionStatus w !! m ∧
  tools r.2 !! m = tools w !! m ∧ retryAttempts r.2 !! m = retryAttempts w !! m ∧
  liveFor m r.2 = liveFor m w.
Proof.
  intros Hm. exact (connectWithRetry_other_names config remote m Hm 0 w).
Qed.

Lemma connect_leaves_other_names_witness :
  let w := (connect drawio up initial).2 in
  stateOf "drawio"
    (connect {| name := "mermaid"; command := "npx"; args := []; env := None |}
       down w).2 = Connected.
Proof.
  cbv zeta.
  destruct (connect_leaves_other_names
              {| name := "mermaid"; command := "npx"; args := []; env := None |}
              down (connect drawio up initial).2 "drawio")
    as (_ & _ & H & _); [discriminate|].
  unfold stateOf. rewrite H. vm_compute. reflexivity.
Defined.

Lemma tryConnect_clock config o w : clock (tryConnect config o w).2 = clock w.
Proof. unfold tryConnect. by destruct o. Qed.

Lemma backoff_from config remote (k : nat) :
  ∀ (a : nat) (w : World), (a + k ≤ MAX_RETRIES)%nat →
    (∀ i, (a ≤ i < a + k)%nat → fails (remote i)) →
    (a + k)%nat = MAX_RETRIES ∨ (∃ ts, remote (a + k)%nat = Established ts) →
    let r := connectWithRetry config a remote w in
    clock r.2 = (clock w + BASE_DELAY * (2 ^ Z.of_nat (a + k) - 2 ^ Z.of_nat a))%Z ∧
    created r.2 = (created w + S k)%nat ∧
    lastChecked <$> connectionStatus r.2 !! name config = Some (clock r.2).
Proof.
  induction k as [|k IH]; intros a w Hle Hfail Hend; cbv zeta.
  - rewrite Nat.add_0_r in *. rewrite Z.sub_diag, Z.mul_0_r, Z.add_0_r.
    pose proof (tryConnect_created config (remote a) w) as Hc.
    pose proof (tryConnect_clock config (remote a) w) as Hk.
    destruct (tryConnect config (remote a) w) as [[u|e] w1] eqn:Htry;
      simpl in Hc, Hk.
    + rewrite (connectWithRetry_ok _ _ _ _ _ _ Htry). simpl.
      destruct (tryConnect_Ok_inv _ _ _ _ _ Htry) as [ts Ho].
      rewrite Ho, tryConnect_Established in Htry. simplify_eq. simpl.
      rewrite lookup_insert_eq. simpl. split_and!; [done | lia | done].
    + destruct Hend as [->|[ts Ho]].
      * rewrite (connectWithRetry_giveup _ _ _ _ _ _ Htry) by lia. simpl.
        rewrite lookup_insert_eq. simpl. rewrite Hk. split_and!; [done | lia | done].
      * rewrite Ho in Htry. simpl in Htry. simplify_eq.
  - destruct (Hfail a ltac:(lia)) as [e He].
    destruct (tryConnect_failure config _ w _ He) as [w1 Htry].
    rewrite (connectWithRetry_retry _ _ _ _ _ _ Htry) by lia.
    pose proof (tryConnect_created config (remote a) w) as Hc.
    pose proof (tryConnect_clock config (remote a) w) as Hk.
    rewrite Htry in Hc, Hk. simpl in Hc, Hk.
    edestruct (IH (a + 1)%nat) as (H1 & H2 & H3); [| |
      replace (a + 1 + k)%nat with (a + S k)%nat by lia; exact Hend |].
    + lia.
    + intros i Hi. apply Hfail. lia.
    + rewrite H3, H1, H2. simpl. rewrite Hk, Hc.
      replace (a + 1 + k)%nat with (a + S k)%nat by lia.
      split_and!; [|lia|done].
      replace (Z.of_nat (a + 1)) with (Z.of_nat a + 1)%Z by lia.
      rewrite Z.pow_add_r by lia. unfold BASE_DELAY. lia.
Qed.

(** X4. The waits of a run double from [BASE_DELAY]: a [connect] that ends
    at attempt number [k] (after [k] failed attempts it succeeds, or [k] is
    [MAX_RETRIES] and the run is over either way) has slept
    [BASE_DELAY * (2^k - 1)] ms in all, 7000 ms for an exhausted run, and
    has constructed [k + 1] transports; the status it writes is stamped
    after the waits. *)
Theorem connect_backoff_schedule config remote w (k : nat) :
  (k ≤ MAX_RETRIES)%nat →
  (∀ i, (i < k)%nat → fails (remote i)) →
  k = MAX_RETRIES ∨ (∃ ts, remote k = Established ts) →
  let r := connect config remote w in
  clock r.2 = (clock w + BASE_DELAY * (2 ^ Z.of_nat k - 1))%Z ∧
  created r.2 = (created w + S k)%nat ∧
  lastChecked <$> connectionStatus r.2 !! name config = Some (clock r.2).
Proof.
  intros Hk Hfail Hend.
  apply (backoff_from config remote k 0 w);
    [lia | intros; apply Hfail; lia | done].
Qed.

Lemma connect_backoff_schedule_witness :
  clock (connect drawio flaky initial).2 = 3000%Z ∧
  clock (connect drawio down initial).2 = 7000%Z.
Proof.
  split.
  - destruct (connect_backoff_schedule drawio flaky initial 2) as [H _].
    + unfold MAX_RETRIES. lia.
    + intros i Hi. destruct i as [|[|i]]; [by eexists..|lia].
    + right. by eexists.
    + exact H.
  - destruct (connect_backoff_schedule drawio down initial 3) as [H _].
    + unfold MAX_RETRIES. lia.
    + intros i _. by eexists.
    + by left.
    + exact H.
Defined.

Lemma shifted_filter_seq (A : Type) (f g : nat → A) (P Q : nat → bool) (n : nat) :
  (∀ i, f (S i) = g i) → (∀ i, P (S i) = Q i) →
  ∀ s, f <$> filter (λ i, P i) (seq (S s) n) = g <$> filter (λ i, Q i) (seq s n).
Proof.
  intros Hf HP. induction n as [|n IH]; intros s; [done|].
  cbn [seq]. destruct (Q s) eqn:HQ.
  - rewrite !filter_cons_True by (rewrite ?HP, HQ; simpl; tauto).
    cbn [fmap list_fmap]. rewrite Hf. f_equal. apply IH.
  - rewrite !filter_cons_False by (rewrite ?HP, HQ; simpl; tauto). apply IH.
Qed.

Lemma started_from config remote :
  ∀ (a : nat) (w : World),
    let r := connectWithRetry config a remote w in
    created w < created r.2 ∧
    live r.2 =
      (live w ++
       ((λ i, (name config, created w + i)%nat) <$>
        filter (λ i, startsTransport (remote (a + i)%nat))
          (seq 0 (created r.2 - created w))))%list.
Proof.
  cbv zeta.
  apply (connectWithRetry_run_ind config remote (λ a w r,
    created w < created r.2 ∧
    live r.2 =
      (live w ++
       ((λ i, (name config, created w + i)%nat) <$>
        filter (λ i, startsTransport (remote (a + i)%nat))
          (seq 0 (created r.2 - created w))))%list)).
  - intros a w u w1 Htry.
    destruct (tryConnect_Ok_inv _ _ _ _ _ Htry) as [ts Ho].
    rewrite Ho, tryConnect_Established in Htry. simplify_eq. simpl.
    split; [lia|]. replace (S (created w) - created w) with 1 by lia.
    cbn [seq]. rewrite filter_cons_True by (rewrite Nat.add_0_r, Ho; simpl; tauto).
    rewrite filter_nil. cbn [fmap list_fmap]. by rewrite Nat.add_0_r.
  - intros a w e w1 w2 r Htry Hlt -> -> [Hlt' Hlive].
    pose proof (tryConnect_created config (remote a) w) as Hc.
    rewrite Htry in Hc. simpl in Hc, Hlt', Hlive. rewrite Hc in Hlt', Hlive.
    split; [lia|]. rewrite Hlive.
    replace (created (connectWithRetry config (a + 1) remote
               (sleep (BASE_DELAY * 2 ^ Z.of_nat a)
                  (setRetryAttempts (name config) (a + 1) w1))).2 - created w)
      with (S (created (connectWithRetry config (a + 1) remote
               (sleep (BASE_DELAY * 2 ^ Z.of_nat a)
                  (setRetryAttempts (name config) (a + 1) w1))).2
               - S (created w))) by lia.
    cbn [seq]. unfold tryConnect in Htry.
    destruct (remote a) eqn:Ho; simplify_eq; simpl.
    + rewrite filter_cons_False by (rewrite Nat.add_0_r, Ho; simpl; tauto).
      apply (f_equal (app (live w))). symmetry.
      apply (shifted_filter_seq _
               (λ i, (name config, created w + i)%nat)
               (λ i, (name config, S (created w + i))%nat)
               (λ i, startsTransport (remote (a + i)%nat))
               (λ i, startsTransport (remote (a + 1 + i)%nat)));
        [intros; f_equal; lia | intros; do 2 f_equal; lia].
    + rewrite filter_cons_True by (rewrite Nat.add_0_r, Ho; simpl; tauto).
      cbn [fmap list_fmap]. rewrite Nat.add_0_r, <- app_assoc. simpl.
      apply (f_equal (λ l, live w ++ (name config, created w) :: l)%list).
      symmetry.
      apply (shifted_filter_seq _
               (λ i, (name config, created w + i)%nat)
               (λ i, (name config, S (created w + i))%nat)
               (λ i, startsTransport (remote (a + i)%nat))
               (λ i, startsTransport (remote (a + 1 + i)%nat)));
        [intros; f_equal; lia | intros; do 2 f_equal; lia].
  - intros a w e w1 Htry Hlt.
    pose proof (tryConnect_created config (remote a) w) as Hc.
    rewrite Htry in Hc. simpl in *. rewrite Hc. split; [lia|].
    replace (S (created w) - created w) with 1 by lia.
    cbn [seq]. unfold tryConnect in Htry.
    destruct (remote a) eqn:Ho; simplify_eq; simpl.
    + rewrite filter_cons_False by (rewrite Nat.add_0_r, Ho; simpl; tauto).
      by rewrite filter_nil, app_nil_r.
    + rewrite filter_cons_True by (rewrite Nat.add_0_r, Ho; simpl; tauto).
      rewrite filter_nil. cbn [fmap list_fmap]. by rewrite Nat.add_0_r.
Qed.

(** X5. [connect] never closes a transport. After a run, the live
    transports are those that were live before, followed by one for each
    attempt of the run whose [client.connect] resolved, in order, whether
    or not the tool listing that followed went through; the attempts made
    are the transports constructed. *)
Theorem connect_started_transports_stay_live config remote w :
  let r := connect config remote w in
  live r.2 =
    (live w ++
     ((λ i, (name config, created w + i)%nat) <$>
      filter (λ i, startsTransport (remote i))
        (seq 0 (created r.2 - created w))))%list.
Proof. apply (started_from config remote 0 w). Qed.

(** ** The tool catalog *)

Lemma connectWithRetry_tools config remote :
  ∀ (a : nat) (w : World),
    let r := connectWithRetry config a remote w in
    match r.1 with
    | Ok _ => ∃ i ts, (a ≤ i)%nat ∧ remote i = Established ts ∧
                (∀ j, (a ≤ j < i)%nat → fails (remote j)) ∧
                tools r.2 = <[name config := ts]> (tools w)
    | Threw _ => tools r.2 = tools w
    end.
Proof.
  cbv zeta.
  apply (connectWithRetry_run_ind config remote (λ a w r,
    match r.1 with
    | Ok _ => ∃ i ts, (a ≤ i)%nat ∧ remote i = Established ts ∧
                (∀ j, (a ≤ j < i)%nat → fails (remote j)) ∧
                tools r.2 = <[name config := ts]> (tools w)
    | Threw _ => tools r.2 = tools w
    end)).
  - intros a w u w1 Htry.
    destruct (tryConnect_Ok_inv _ _ _ _ _ Htry) as [ts Ho].
    rewrite Ho, tryConnect_Established in Htry. simplify_eq. simpl.
    exists a, ts. split_and!; [lia | done | intros; lia | done].
  - intros a w e w1 w2 r Htry Hlt -> -> IH.
    assert (tools w1 = tools w ∧ fails (remote a)) as [Ht Hf].
    { unfold tryConnect in Htry.
      destruct (remote a); simplify_eq; split; try done; by eexists. }
    destruct (connectWithRetry config (a + 1) remote _) as [[u|e'] w3];
      simpl in *.
    + destruct IH as (i & ts & Hi & Ho & Hfails & Htools).
      exists i, ts. split_and!; [lia | done | | by rewrite Htools, Ht].
      intros j Hj. destruct (decide (j = a)) as [->|]; [done|].
      apply Hfails. lia.
    + by rewrite IH.
  - intros a w e w1 Htry Hlt. simpl.
    unfold tryConnect in Htry. by destruct (remote a); simplify_eq.
Qed.

(** X6. [listTools] reads the catalog that the last successful [connect]
    fetched. A [connect] that succeeds replaces the catalog of its name by
    the tools listed in the attempt that went through; a [connect] that
    fails leaves the catalog it found, so a name that was connected before
    keeps its old catalog while Failed; no [connect] touches the catalog of
    another name. *)
Theorem listTools_after_connect config remote w :
  let r := connect config remote w in
  (∀ (k : nat) ts, (∀ i, (i < k)%nat → fails (remote i)) →
     remote k = Established ts → r.1 = Ok () →
     listTools (name config) r.2 = ts) ∧
  ((∀ u, r.1 ≠ Ok u) → listTools (name config) r.2 = listTools (name config) w) ∧
  (∀ m, m ≠ name config → listTools m r.2 = listTools m w).
Proof.
  cbv zeta. pose proof (connectWithRetry_tools config remote 0 w) as H.
  cbv zeta in H. fold (connect config remote w) in H. split_and!.
  - intros k ts Hfail Hok Hr. rewrite Hr in H.
    destruct H as (i & ts' & _ & Ho & Hfails & Htools).
    unfold listTools. rewrite Htools, lookup_insert_eq. simpl.
    destruct (Nat.lt_trichotomy i k) as [Hlt|[->|Hgt]].
    + destruct (Hfail i Hlt) as [e He]. rewrite Ho in He. done.
    + congruence.
    + destruct (Hfails k ltac:(lia)) as [e He]. rewrite Hok in He. done.
  - intros Hr. destruct (connect config remote w).1 as [[]|e] eqn:E.
    + by destruct (Hr ()).
    + unfold listTools. by rewrite H.
  - intros m Hm. unfold listTools.
    unfold connect.
    by destruct (connectWithRetry_other_names config remote m Hm 0 w)
      as (_ & _ & _ & -> & _).
Qed.

Lemma listTools_after_connect_witness :
  listTools "drawio"
    (connect drawio
       (λ i, if (i <? 1)%nat then down i
             else Established [{| tool_name := "add_rectangle";
                                  description := "Adds a rectangle";
                                  inputSchema := "{}" |}]) initial).2 =
  [{| tool_name := "add_rectangle"; description := "Adds a rectangle";
      inputSchema := "{}" |}].
Proof.
  destruct (listTools_after_connect drawio
       (λ i, if (i <? 1)%nat then down i
             else Established [{| tool_name := "add_rectangle";
                                  description := "Adds a rectangle";
                                  inputSchema := "{}" |}]) initial)
    as [H _].
  apply (H 1).
  - intros i Hi. destruct i; [by eexists | lia].
  - reflexivity.
  - vm_compute. reflexivity.
Defined.

(** ** Series of health checks *)

Lemma healthCheck_keeps n reply w :
  clients (healthCheck n reply w).2 = clients w ∧
  transports (healthCheck n reply w).2 = transports w ∧
  tools (healthCheck n reply w).2 = tools w ∧
  retryAttempts (healthCheck n reply w).2 = retryAttempts w ∧
  created (healthCheck n reply w).2 = created w ∧
  live (healthCheck n reply w).2 = live w.
Proof.
  unfold healthCheck. destruct (clients w !! n); [|done]. by destruct reply.
Qed.

(** X7. On a name that has a client, the status after a series of health
    checks is decided by the last one alone: Connected when it went
    through, whatever the status was before (a Failed name is Connected
    again), Failed when it did not. Each check sends one listing request;
    none changes a client, a transport, a retry count, or the tool
    catalog, which a passing check does not refresh. *)
Theorem healthChecks_last_decides n h replies reply w :
  clients w !! n = Some h →
  let w' := healthChecks n (replies ++ [reply]) w in
  stateOf n w' = (if reply is Ok _ then Connected else Failed) ∧
  length (requests w') = (length (requests w) + S (length replies))%nat ∧
  clients w' = clients w ∧ transports w' = transports w ∧
  tools w' = tools w ∧ retryAttempts w' = retryAttempts w.
Proof.
  revert w. induction replies as [|r0 replies IH]; intros w Hc; cbv zeta.
  - simpl. unfold healthCheck, stateOf. rewrite Hc.
    destruct reply; simpl; rewrite lookup_insert_eq, length_app; simpl;
      split_and!; try done; lia.
  - cbn [app healthChecks].
    destruct (healthCheck_keeps n r0 w) as (Hk1 & Hk2 & Hk3 & Hk4 & _).
    destruct (IH (healthCheck n r0 w).2) as (H1 & H2 & H3 & H4 & H5 & H6);
      [by rewrite Hk1|].
    rewrite H1, H2, H3, H4, H5, H6, Hk1, Hk2, Hk3, Hk4.
    split_and!; try done.
    unfold healthCheck. rewrite Hc.
    destruct r0; simpl; rewrite length_app; simpl; lia.
Qed.

Lemma healthChecks_last_decides_witness :
  let w := (connect drawio up initial).2 in
  stateOf "drawio"
    (healthChecks "drawio"
       ([Threw (ErrorObj "timed out"); Threw NonError] ++ [Ok []]) w) =
  Connected.
Proof.
  cbv zeta.
  destruct (healthChecks_last_decides "drawio" 0
              [Threw (ErrorObj "timed out"); Threw NonError] (Ok [])
              (connect drawio up initial).2) as [H _];
    [vm_compute; reflexivity | exact H].
Defined.

(** ** What holds between calls *)

Lemma tryConnect_wellFormed config o w :
  wellFormed w → wellFormed (tryConnect config o w).2.
Proof.
  intros (Hst & Hcl & Hto & Hli). unfold tryConnect.
  destruct o as [e|e|ts]; simpl.
  - split_and!; simpl.
    + done.
    + intros n h Hn. specialize (Hcl n h Hn). lia.
    + done.
    + intros n h Hn. specialize (Hli n h Hn). lia.
  - split_and!; simpl.
    + intros n s Hn. destruct (Hst n s Hn) as [H1 H2]. split; [done|].
      intros Hco. destruct (decide (n = name config)) as [->|Hne].
      * rewrite lookup_insert_eq. eauto.
      * rewrite lookup_insert_ne by done. auto.
    + intros n h. destruct (decide (n = name config)) as [->|Hne].
      * rewrite lookup_insert_eq. intros [= <-]. lia.
      * rewrite lookup_insert_ne by done. intros Hn.
        specialize (Hcl n h Hn). lia.
    + intros n Hn. destruct (decide (n = name config)) as [->|Hne].
      * rewrite lookup_insert_eq. eauto.
      * rewrite lookup_insert_ne by done. auto.
    + intros n h [Hn|Hn]%elem_of_app.
      * specialize (Hli n h Hn). lia.
      * apply list_elem_of_singleton in Hn as [= -> ->]. lia.
  - split_and!; simpl.
    + intros n s. destruct (decide (n = name config)) as [->|Hne].
      * rewrite !lookup_insert_eq. intros [= <-]. simpl. eauto.
      * rewrite !lookup_insert_ne by done. apply Hst.
    + intros n h. destruct (decide (n = name config)) as [->|Hne].
      * rewrite lookup_insert_eq. intros [= <-]. lia.
      * rewrite lookup_insert_ne by done. intros Hn.
        specialize (Hcl n h Hn). lia.
    + intros n. destruct (decide (n = name config)) as [->|Hne].
      * rewrite !lookup_insert_eq. eauto.
      * rewrite !lookup_insert_ne by done. auto.
    + intros n h [Hn|Hn]%elem_of_app.
      * specialize (Hli n h Hn). lia.
      * apply list_elem_of_singleton in Hn as [= -> ->]. lia.
Qed.

Lemma connectWithRetry_wellFormed config remote a w :
  wellFormed w → wellFormed (connectWithRetry config a remote w).2.
Proof.
  revert a w.
  apply (connectWithRetry_run_ind config remote (λ _ w r,
    wellFormed w → wellFormed r.2)).
  - intros a w u w1 Htry Hwf.
    pose proof (tryConnect_wellFormed config (remote a) w Hwf) as H.
    by rewrite Htry in H.
  - intros a w e w1 w2 r Htry Hlt -> -> IH Hwf. apply IH.
    pose proof (tryConnect_wellFormed config (remote a) w Hwf) as H.
    rewrite Htry in H. exact H.
  - intros a w e w1 Htry Hlt Hwf.
    pose proof (tryConnect_wellFormed config (remote a) w Hwf) as H.
    rewrite Htry in H. simpl in H. destruct H as (Hst & Hcl & Hto & Hli).
    split_and!; simpl; try done.
    intros n s. destruct (decide (n = name config)) as [->|Hne].
    + rewrite lookup_insert_eq. by intros [= <-].
    + rewrite lookup_insert_ne by done. apply Hst.
Qed.

Lemma step_wellFormed w w' : step w w' → wellFormed w → wellFormed w'.
Proof.
  intros Hstep Hwf.
  destruct Hstep as [config remote w|n closes w|n reply w|n t p reply w].
  - by apply connectWithRetry_wellFormed.
  - destruct Hwf as (Hst & Hcl & Hto & Hli). unfold disconnect.
    destruct (clients w !! n) as [c|] eqn:Hc,
             (transports w !! n) as [t|] eqn:Ht; try done.
    destruct closes as [[?|?] [?|?]]; simpl; try done.
    + split_and!; simpl.
      * intros m s. destruct (decide (m = n)) as [->|Hne].
        -- by rewrite lookup_delete_eq.
        -- rewrite !lookup_delete_ne by done. apply Hst.
      * intros m h. destruct (decide (m = n)) as [->|Hne].
        -- by rewrite lookup_delete_eq.
        -- rewrite lookup_delete_ne by done. apply Hcl.
      * intros m. destruct (decide (m = n)) as [->|Hne].
        -- rewrite lookup_delete_eq. by intros [? ?].
        -- rewrite !lookup_delete_ne by done. apply Hto.
      * intros m h [_ [_ Hin]%list_elem_of_filter]%list_elem_of_filter.
        by apply (Hli m).
    + split_and!; simpl; try done.
      intros m h [_ Hin]%list_elem_of_filter. by apply (Hli m).
  - destruct Hwf as (Hst & Hcl & Hto & Hli). unfold healthCheck.
    destruct (clients w !! n) as [h|] eqn:Hc; [|done].
    destruct reply; (split_and!; simpl; try done);
      intros m s; (destruct (decide (m = n)) as [->|Hne];
        [rewrite lookup_insert_eq; intros [= <-]; simpl; eauto
        |rewrite lookup_insert_ne by done; apply Hst]).
  - unfold callTool. by destruct (clients w !! n).
Qed.

Lemma reachable_wellFormed w : reachable w → wellFormed w.
Proof.
  unfold reachable. revert w. apply rtc_ind_r.
  - split_and!.
    + intros n s H. simpl in H. by rewrite lookup_empty in H.
    + intros n h H. simpl in H. by rewrite lookup_empty in H.
    + intros n [ts H]. simpl in H. by rewrite lookup_empty in H.
    + intros n h H. simpl in H. by apply elem_of_nil in H.
  - eauto using step_wellFormed.
Qed.

(** X8. In every world the client can be in between calls: the status
    stored under a name carries that name; a Connected name has a client
    and a transport, which are one handle, constructed earlier, and
    [callTool] on it sends the call through that handle; a Disconnected
    name has no client and an empty catalog; and every live transport was
    constructed by some attempt. *)
Theorem between_calls w :
  reachable w →
  (∀ n s, getConnectionStatus n w = Some s → serverName s = n) ∧
  (∀ n, stateOf n w = Connected →
     ∃ h, clients w !! n = Some h ∧ transports w !! n = Some h ∧
          h < created w ∧
          ∀ toolName p reply,
            callTool n toolName p reply w =
              (reply, send (CallToolReq h toolName p) w)) ∧
  (∀ n, stateOf n w = Disconnected →
     clients w !! n = None ∧ listTools n w = []) ∧
  (∀ n h, (n, h) ∈ live w → h < created w).
Proof.
  intros Hreach.
  destruct (reachable_wellFormed w Hreach) as (Hst & Hcl & Hto & Hli).
  destruct (reachable_consistent w Hreach) as [Heq Hdom].
  split_and!.
  - intros n s Hs. by destruct (Hst n s Hs).
  - intros n Hn. unfold stateOf in Hn.
    destruct (connectionStatus w !! n) as [s|] eqn:Hs; [|done].
    destruct (connected s) eqn:Hco; [|done].
    destruct (Hst n s Hs) as [_ [h Hh]]; [done|].
    exists h. split_and!; [done | by rewrite <- Heq | by eapply Hcl |].
    intros toolName p reply. unfold callTool. by rewrite Hh.
  - intros n Hn. unfold stateOf in Hn.
    assert (clients w !! n = None) as Hc.
    { destruct (clients w !! n) eqn:Hc; [|done].
      destruct (Hdom n) as [s Hs]; [by rewrite Hc|].
      rewrite Hs in Hn. by destruct (connected s). }
    split; [done|]. unfold listTools.
    destruct (tools w !! n) eqn:Ht; [|done].
    destruct (Hto n) as [h Hh]; [by rewrite Ht|]. congruence.
  - exact Hli.
Qed.

Lemma between_calls_witness :
  let w := (healthCheck "drawio" (Ok [])
              (connect drawio flaky initial).2).2 in
  ∃ h, clients w !! "drawio" = Some h ∧ h < created w.
Proof.
  cbv zeta.
  destruct (between_calls
              (healthCheck "drawio" (Ok []) (connect drawio flaky initial).2).2)
    as (_ & H & _).
  - eapply rtc_r; [eapply rtc_r; [apply rtc_refl|]|].
    + apply (step_connect drawio flaky).
    + apply (step_healthCheck "drawio" (Ok [])).
  - destruct (H "drawio") as (h & Hh & _ & Hlt & _); [vm_compute; reflexivity|].
    eauto.
Defined.

(** ** The draw.io wrappers *)

(** X9. What each draw.io wrapper sends and what it gives back, for every
    reply of the server. With no client stored for "drawio" each wrapper
    rejects with the error [Not connected to MCP server: drawio] and the
    world is as it was: nothing is sent. With a client, the wrapper sends
    one request through it, to its own tool and with the arguments listed
    here, and changes nothing else: no status, no retry count, no
    transport. When the reply is an error the wrapper rejects with that
    very error; it makes no second try. When the reply is a content list,
    [createShape], [createEdge] and [addCellOfShape] return the text of
    its first item, and the empty string when the list is empty or the
    item has no text; [updateShape] and [deleteShape] return nothing;
    [getShapeByName] returns the list itself. *)
Theorem drawio_wrappers_propagate w type lbl pos wd ht src tgt elbl id upd
    sname txt (reply : result (list ContentItem)) :
  let refused := ErrorObj "Not connected to MCP server: drawio" in
  let sent (h : nat) (tool : string) (args : params) : World :=
    {| clients := clients w; transports := transports w;
       connectionStatus := connectionStatus w; tools := tools w;
       retryAttempts := retryAttempts w; created := created w;
       live := live w;
       requests := (requests w ++ [CallToolReq h tool args])%list;
       clock := clock w |} in
  let newId : result string :=
    match reply with
    | Threw e => Threw e
    | Ok ({| text := Some t |} :: _) => Ok t
    | Ok _ => Ok ""
    end in
  let nothing : result unit :=
    match reply with
    | Threw e => Threw e
    | Ok _ => Ok ()
    end in
  match clients w !! "drawio" with
  | None =>
      createShape type lbl pos wd ht reply w = (Threw refused, w) ∧
      createEdge src tgt elbl reply w = (Threw refused, w) ∧
      updateShape id upd reply w = (Threw refused, w) ∧
      deleteShape id reply w = (Threw refused, w) ∧
      getShapeByName sname reply w = (Threw refused, w) ∧
      addCellOfShape sname pos txt wd ht reply w = (Threw refused, w)
  | Some h =>
      createShape type lbl pos wd ht reply w =
        (newId,
         sent h "mcp_drawio_add_rectangle"
           [("text", PString lbl); ("x", PNumber (x pos)); ("y", PNumber (y pos));
            ("width", PNumber (default 120%Z wd));
            ("height", PNumber (default 60%Z ht));
            ("style", getShapeStyle type)]) ∧
      createEdge src tgt elbl reply w =
        (newId,
         sent h "mcp_drawio_add_edge"
           [("source_id", PString src); ("target_id", PString tgt);
            ("text", PString (default "" elbl))]) ∧
      updateShape id upd reply w =
        (nothing,
         sent h "mcp_drawio_edit_cell"
           ([("cell_id", PString id)]
            ++ match label upd with Some l => [("text", PString l)] | None => [] end
            ++ match position upd with
               | Some p => [("x", PNumber (x p)); ("y", PNumber (y p))]
               | None => []
               end
            ++ match width upd with Some n => [("width", PNumber n)] | None => [] end
            ++ match height upd with Some n => [("height", PNumber n)] | None => [] end
            ++ match style upd with Some s => [("style", PString s)] | None => [] end
           )%list) ∧
      deleteShape id reply w =
        (nothing,
         sent h "mcp_drawio_delete_cell_by_id" [("cell_id", PString id)]) ∧
      getShapeByName sname reply w =
        (reply,
         sent h "mcp_drawio_get_shape_by_name" [("shape_name", PString sname)]) ∧
      addCellOfShape sname pos txt wd ht reply w =
        (newId,
         sent h "mcp_drawio_add_cell_of_shape"
           ([("shape_name", PString sname); ("x", PNumber (x pos));
             ("y", PNumber (y pos)); ("width", PNumber (default 120%Z wd));
             ("height", PNumber (default 60%Z ht))]
            ++ match txt with
               | Some t => if String.eqb t "" then [] else [("text", PString t)]
               | None => []
               end)%list)
  end.
Proof.
  cbv zeta.
  unfold createShape, createEdge, updateShape, deleteShape, getShapeByName,
    addCellOfShape, callTool.
  destruct (clients w !! "drawio") as [h|]; [|done].
  assert (cellParams sname pos txt (default 120%Z wd) (default 60%Z ht) =
          ([("shape_name", PString sname); ("x", PNumber (x pos));
            ("y", PNumber (y pos)); ("width", PNumber (default 120%Z wd));
            ("height", PNumber (default 60%Z ht))]
           ++ match txt with
              | Some t => if String.eqb t "" then [] else [("text", PString t)]
              | None => []
              end)%list) as ->.
  { unfold cellParams. destruct txt as [t|]; [|done]. simpl.
    by destruct (String.eqb t ""). }
  by destruct reply as [[|[[t|]] rest]|e].
Qed.

Lemma drawio_wrappers_propagate_witness :
  createShape "cloud" "CDN" {| x := 40; y := 80 |} None None
    (Ok [{| text := Some "cell-42" |}; {| text := Some "ignored" |}])
    (connect drawio up initial).2 =
  (Ok "cell-42",
   send (CallToolReq 0 "mcp_drawio_add_rectangle"
           [("text", PString "CDN"); ("x", PNumber 40); ("y", PNumber 80);
            ("width", PNumber 120); ("height", PNumber 60);
            ("style",
             PString "ellipse;shape=cloud;whiteSpace=wrap;html=1;fillColor=#fff2cc;strokeColor=#d6b656;")])
     (connect drawio up initial).2) ∧
  deleteShape "7" (Ok []) initial =
    (Threw (ErrorObj "Not connected to MCP server: drawio"), initial) ∧
  (createEdge "2" "3" None (Threw (ErrorObj "no such cell"))
     (connect drawio up initial).2).1 = Threw (ErrorObj "no such cell").
Proof.
  split; [|split].
  - pose proof (drawio_wrappers_propagate (connect drawio up initial).2
                  "cloud" "CDN" {| x := 40; y := 80 |} None None "" "" None ""
                  {| label := None; position := None; width := None;
                     height := None; style := None |} "" None
                  (Ok [{| text := Some "cell-42" |}; {| text := Some "ignored" |}]))
      as H.
    cbv zeta in H.
    change (clients (connect drawio up initial).2 !! "drawio") with (Some 0) in H.
    destruct H as (H & _). etrans; [exact H|]. vm_compute. reflexivity.
  - pose proof (drawio_wrappers_propagate initial "" "" {| x := 0; y := 0 |}
                  None None "" "" None "7"
                  {| label := None; position := None; width := None;
                     height := None; style := None |} "" None (Ok [])) as H.
    cbv zeta in H. change (clients initial !! "drawio") with (@None nat) in H.
    destruct H as (_ & _ & _ & H & _). exact H.
  - pose proof (drawio_wrappers_propagate (connect drawio up initial).2
                  "" "" {| x := 0; y := 0 |} None None "2" "3" None ""
                  {| label := None; position := None; width := None;
                     height := None; style := None |} "" None
                  (Threw (ErrorObj "no such cell"))) as H.
    cbv zeta in H.
    change (clients (connect drawio up initial).2 !! "drawio") with (Some 0) in H.
    destruct H as (_ & H & _). etrans; [exact (f_equal fst H)|]. reflexivity.
Defined.

(** ** Which optional fields are sent *)

#[local] Set Warnings "-clear-no-such-hyp".

(** X10. The arguments [updateShape] sends always start with [cell_id] and
    never repeat a key. Each optional field is sent exactly when the update
    supplies it, with the value supplied: [text] for a label, the empty
    label included; [x] and [y], always together, for a position; [width];
    [height]; [style]. An update that supplies nothing sends [cell_id]
    alone. [addCellOfShape] instead sends [text] only for a non-empty
    text. *)
Theorem optional_fields_sent id upd sname pos txt wd ht :
  NoDup (updateParams id upd).*1 ∧
  updateParams id upd !! 0%nat = Some ("cell_id", PString id) ∧
  (∀ v, ("text", v) ∈ updateParams id upd ↔ ∃ l, label upd = Some l ∧ v = PString l) ∧
  (∀ v, ("x", v) ∈ updateParams id upd ↔ ∃ p, position upd = Some p ∧ v = PNumber (x p)) ∧
  (∀ v, ("y", v) ∈ updateParams id upd ↔ ∃ p, position upd = Some p ∧ v = PNumber (y p)) ∧
  (∀ v, ("width", v) ∈ updateParams id upd ↔ ∃ n, width upd = Some n ∧ v = PNumber n) ∧
  (∀ v, ("height", v) ∈ updateParams id upd ↔ ∃ n, height upd = Some n ∧ v = PNumber n) ∧
  (∀ v, ("style", v) ∈ updateParams id upd ↔ ∃ s, style upd = Some s ∧ v = PString s) ∧
  (label upd = None → position upd = None → width upd = None →
   height upd = None → style upd = None →
   updateParams id upd = [("cell_id", PString id)]) ∧
  (∀ v, ("text", v) ∈ cellParams sname pos txt wd ht ↔
        ∃ t, txt = Some t ∧ t ≠ "" ∧ v = PString t).
Proof.
  split_and!.
  - destruct upd as [[l|] [p|] [n1|] [n2|] [s|]]; simpl;
      apply (bool_decide_unpack _); vm_compute; exact I.
  - done.
  - intros v. unfold updateParams.
    destruct upd as [[l|] [p|] [n1|] [n2|] [s|]]; simpl;
      set_unfold; naive_solver.
  - intros v. unfold updateParams.
    destruct upd as [[l|] [p|] [n1|] [n2|] [s|]]; simpl;
      set_unfold; naive_solver.
  - intros v. unfold updateParams.
    destruct upd as [[l|] [p|] [n1|] [n2|] [s|]]; simpl;
      set_unfold; naive_solver.
  - intros v. unfold updateParams.
    destruct upd as [[l|] [p|] [n1|] [n2|] [s|]]; simpl;
      set_unfold; naive_solver.
  - intros v. unfold updateParams.
    destruct upd as [[l|] [p|] [n1|] [n2|] [s|]]; simpl;
      set_unfold; naive_solver.
  - intros v. unfold updateParams.
    destruct upd as [[l|] [p|] [n1|] [n2|] [s|]]; simpl;
      set_unfold; naive_solver.
  - intros H1 H2 H3 H4 H5. unfold updateParams. by rewrite H1, H2, H3, H4, H5.
  - intros v. unfold cellParams. destruct txt as [t|]; simpl.
    + destruct (String.eqb_spec t "") as [->|Hne]; simpl;
        set_unfold; naive_solver.
    + set_unfold; naive_solver.
Qed.

(** ** The style table *)

Lemma optional_fields_sent_witness :
  updateParams "cell-7"
    {| label := None; position := None; width := None; height := None;
       style := None |} = [("cell_id", PString "cell-7")].
Proof.
  destruct (optional_fields_sent "cell-7"
              {| label := None; position := None; width := None;
                 height := None; style := None |}
              "server" {| x := 0; y := 0 |} None 120 60)
    as (_ & _ & _ & _ & _ & _ & _ & _ & H & _).
  apply H; reflexivity.
Defined.

(** X11. For every type that is not a member name of [Object.prototype],
    the style [getShapeStyle] gives is a non-empty string: the style the
    table has under that type when it has one, and the default (rectangle)
    style for every other type. *)
Theorem getShapeStyle_outside_prototype type :
  type ∉ objectPrototype →
  ∃ s, getShapeStyle type = PString s ∧ s ≠ "" ∧
       (∀ s', ownProperty styles type = Some s' → s = s') ∧
       (ownProperty styles type = None → s = rectangleStyle).
Proof.
  intros Hproto. unfold getShapeStyle, getProperty, styles, ownProperty.
  repeat match goal with
  | |- context [String.eqb ?k type] =>
      destruct (String.eqb_spec k type) as [<-|_];
        [eexists; split; [reflexivity|];
         split; [discriminate|]; split; [by intros ? [= <-] | done] |]
  end.
  rewrite bool_decide_eq_false_2 by done.
  eexists; split; [reflexivity|]. split; [discriminate|]. by split.
Qed.

Lemma getShapeStyle_outside_prototype_witness :
  ∃ s, getShapeStyle "hexagon" = PString s ∧ s = rectangleStyle.
Proof.
  destruct (getShapeStyle_outside_prototype "hexagon") as (s & H1 & _ & _ & H4).
  - apply (bool_decide_unpack _). vm_compute. exact I.
  - exists s. split; [exact H1|]. apply H4. reflexivity.
Defined.

(** ** [reconnect] *)

Lemma liveFor_after_close n c (w : World) :
  liveFor n w = [(n, c)] →
  liveFor n (forget n (closeTransport c (closeTransport c w))) = [].
Proof.
  unfold liveFor. simpl. intros H. apply elem_of_nil_inv. intros [m h] Hin.
  apply list_elem_of_filter in Hin as [Hm Hin].
  apply list_elem_of_filter in Hin as [Hh Hin].
  apply list_elem_of_filter in Hin as [_ Hin]. simpl in *.
  assert ((m, h) ∈ filter (λ p, p.1 = n) (live w)) as Hin'
    by (by apply list_elem_of_filter).
  rewrite H in Hin'. apply list_elem_of_singleton in Hin'. by simplify_eq.
Qed.

(** X12. [reconnect] is [disconnect] followed by [connect]. When a [close]
    rejects, it rejects with that error and [connect] is not attempted: no
    transport is constructed. On a name with no client it is [connect].
    On a name whose only live transport is the stored one, when the closes
    resolve and the first attempt goes through, the old transport is
    closed before the new one is started, so that exactly one transport is
    live for the name afterwards, the new one; the name is Connected with
    retry count 0 and the catalog just listed. *)
Theorem reconnect_replaces_transport n config remote w :
  (∀ c t e second, clients w !! n = Some c → transports w !! n = Some t →
     reconnect n config (Threw e, second) remote w = (Threw e, w) ∧
     (reconnect n config (Ok (), Threw e) remote w).1 = Threw e ∧
     created (reconnect n config (Ok (), Threw e) remote w).2 = created w) ∧
  (clients w !! n = None →
   ∀ closes, reconnect n config closes remote w = connect config remote w) ∧
  (∀ c ts, name config = n →
     clients w !! n = Some c → transports w !! n = Some c →
     liveFor n w = [(n, c)] → remote 0 = Established ts →
     let r := reconnect n config (Ok (), Ok ()) remote w in
     r.1 = Ok () ∧ clients r.2 !! n = Some (created w) ∧
     liveFor n r.2 = [(n, created w)] ∧
     stateOf n r.2 = Connected ∧ listTools n r.2 = ts ∧
     retryAttempts r.2 !! n = Some 0).
Proof.
  split_and!.
  - intros c t e second Hc Ht. unfold reconnect, disconnect.
    rewrite Hc, Ht. by simpl.
  - intros Hc closes. unfold reconnect, disconnect. by rewrite Hc.
  - intros c ts <- Hc Ht Hlive Hok. cbv zeta.
    assert (reconnect (name config) config (Ok (), Ok ()) remote w =
            connect config remote
              (forget (name config) (closeTransport c (closeTransport c w))))
      as ->.
    { unfold reconnect, disconnect. by rewrite Hc, Ht. }
    pose proof (liveFor_after_close _ _ _ Hlive) as Hgone.
    assert (created (forget (name config)
                       (closeTransport c (closeTransport c w))) = created w)
      as Hcr by done.
    revert Hgone Hcr.
    generalize (forget (name config) (closeTransport c (closeTransport c w))).
    intros w' Hgone Hcr. unfold connect.
    erewrite connectWithRetry_ok by (rewrite Hok; apply tryConnect_Established).
    unfold stateOf, listTools, liveFor in *. simpl.
    rewrite !lookup_insert_eq, filter_app, Hgone, Hcr. simpl.
    rewrite filter_cons_True by done. by rewrite filter_nil.
Qed.

Lemma reconnect_replaces_transport_witness :
  let w := (connect drawio up initial).2 in
  liveFor "drawio" (reconnect "drawio" drawio (Ok (), Ok ()) up w).2 =
    [("drawio", 1)].
Proof.
  cbv zeta.
  destruct (reconnect_replaces_transport "drawio" drawio up
              (connect drawio up initial).2) as (_ & _ & H).
  destruct (H 0 []) as (_ & _ & Hl & _);
    [reflexivity | vm_compute; reflexivity | vm_compute; reflexivity
    | vm_compute; reflexivity | reflexivity |].
  etrans; [exact Hl|]. vm_compute. reflexivity.
Defined.

End MCPMore.

(** * Further properties of the session store *)

Module SessionMore.
Import Sessions SessionFacts.

(** ** What each call does to the table when the storage works *)

Lemma updateSession_healthy i data now db row :
  healthy db → sessions db !! i = Some row →
  ∃ db', updateSession i data now db = (Ok (), db') ∧
    sessions db' =
      <[i := setColumns (toISOString now)
               (stringify (default (parse (chat_history row)) (p_chatHistory data)))
               (stringify <$> default (parse <$> current_diagram row)
                                (p_currentDiagram data))
               (stringify (default (parse (config_json row)) (p_config data)))
               row]> (sessions db) ∧
    healthy db'.
Proof.
  intros H Hrow. destruct (getSession_healthy i db H) as (db1 & Hg & Hs1 & Hh1).
  unfold updateSession. rewrite Hg, Hrow. cbn [fmap option_fmap option_map].
  unfold run_update.
  destruct (nextFault_healthy db1 Hh1) as (db2 & -> & Hs2 & Hh2).
  eexists. split; [reflexivity|]. split; [|done]. simpl.
  rewrite Hs2, Hs1. by apply alter_present.
Qed.

Lemma updateSession_missing i data now db :
  healthy db → sessions db !! i = None →
  ∃ db', updateSession i data now db = (Threw (notFound i), db') ∧
    sessions db' = sessions db ∧ healthy db'.
Proof.
  intros H Hrow. destruct (getSession_healthy i db H) as (db1 & Hg & Hs1 & Hh1).
  unfold updateSession. rewrite Hg, Hrow. by eexists.
Qed.

Lemma saveChatMessage_healthy sid message now db row :
  healthy db → sessions db !! sid = Some row →
  ∃ db', saveChatMessage sid message now db = (Ok (), db') ∧
    sessions db' =
      <[sid := setColumns (toISOString now)
                 (stringify (parse (chat_history row) ++ [message])%list)
                 (current_diagram row) (config_json row) row]> (sessions db) ∧
    healthy db'.
Proof.
  intros H Hrow. destruct (getSession_healthy sid db H) as (db1 & Hg & Hs1 & Hh1).
  unfold saveChatMessage. rewrite Hg, Hrow. cbn [fmap option_fmap option_map].
  destruct (updateSession_healthy sid
              {| p_id := None; p_createdAt := None; p_lastAccessedAt := None;
                 p_chatHistory := Some (chatHistory (rowToSession row) ++ [message])%list;
                 p_currentDiagram := None; p_config := None |} now db1 row)
    as (db2 & -> & Hs2 & Hh2); [done | by rewrite Hs1 |].
  exists db2. split; [done|]. split; [|done]. rewrite Hs2, Hs1. simpl.
  f_equal. unfold setColumns. f_equal.
  - by destruct (current_diagram row) as [[?]|].
  - apply stringify_parse.
Qed.

Lemma saveDiagram_healthy sid diagram now db row :
  healthy db → sessions db !! sid = Some row →
  ∃ db', saveDiagram sid diagram now db = (Ok (), db') ∧
    sessions db' =
      <[sid := setColumns (toISOString now) (chat_history row)
                 (Some (stringify diagram)) (config_json row) row]> (sessions db) ∧
    healthy db'.
Proof.
  intros H Hrow. unfold saveDiagram.
  destruct (updateSession_healthy sid
              {| p_id := None; p_createdAt := None; p_lastAccessedAt := None;
                 p_chatHistory := None; p_currentDiagram := Some (Some diagram);
                 p_config := None |} now db row)
    as (db2 & -> & Hs2 & Hh2); [done..|].
  exists db2. split; [done|]. split; [|done]. rewrite Hs2. simpl.
  f_equal. unfold setColumns. f_equal; apply stringify_parse.
Qed.

Lemma restoreSession_healthy sid now db row :
  healthy db → sessions db !! sid = Some row →
  ∃ db', restoreSession sid now db = (Ok (rowToSession row), db') ∧
    sessions db' =
      <[sid := setColumns (toISOString now) (chat_history row)
                 (current_diagram row) (config_json row) row]> (sessions db) ∧
    healthy db'.
Proof.
  intros H Hrow. destruct (getSession_healthy sid db H) as (db1 & Hg & Hs1 & Hh1).
  unfold restoreSession. rewrite Hg, Hrow. cbn [fmap option_fmap option_map].
  destruct (updateSession_healthy sid emptyPartial now db1 row)
    as (db2 & -> & Hs2 & Hh2); [done | by rewrite Hs1 |].
  exists db2. split; [done|]. split; [|done]. rewrite Hs2, Hs1. simpl.
  f_equal. unfold setColumns. f_equal.
  - apply stringify_parse.
  - by destruct (current_diagram row) as [[?]|].
  - apply stringify_parse.
Qed.

(** X13. Messages are appended in the order they are saved: when the
    storage works, saving [m1] and then [m2] on a stored session leaves a
    session whose chat history is the earlier history followed by [m1],
    [m2], with the id, creation time, diagram and config it had and with
    [lastAccessedAt] the time of the second save. *)
Theorem saveChatMessage_appends_in_order sid m1 m2 t1 t2 db row :
  healthy db → sessions db !! sid = Some row →
  let db1 := (saveChatMessage sid m1 t1 db).2 in
  let r2 := saveChatMessage sid m2 t2 db1 in
  (saveChatMessage sid m1 t1 db).1 = Ok () ∧ r2.1 = Ok () ∧
  (getSession sid r2.2).1 =
    Ok (Some {| id := row_id row;
                createdAt := instant (created_at row);
                lastAccessedAt := t2;
                chatHistory := (chatHistory (rowToSession row) ++ [m1; m2])%list;
                currentDiagram := currentDiagram (rowToSession row);
                config := config (rowToSession row) |}) ∧
  (∀ j, j ≠ sid → sessions r2.2 !! j = sessions db !! j).
Proof.
  intros H Hrow. cbv zeta.
  destruct (saveChatMessage_healthy sid m1 t1 db row H Hrow)
    as (db1 & -> & Hs1 & Hh1). cbn [fst snd].
  destruct (saveChatMessage_healthy sid m2 t2 db1 _ Hh1
              ltac:(rewrite Hs1; apply lookup_insert_eq))
    as (db2 & -> & Hs2 & Hh2). cbn [fst snd].
  destruct (getSession_healthy sid db2 Hh2) as (db3 & -> & _).
  rewrite Hs2, Hs1. split_and!; try done.
  - rewrite lookup_insert_eq. simpl. unfold rowToSession. simpl.
    by rewrite <- app_assoc.
  - intros j Hj. by rewrite !lookup_insert_ne.
Qed.

Lemma saveChatMessage_appends_in_order_witness :
  (getSession "c"
     (saveChatMessage "c" (userMessage "c" "2" "and a database") (t0 + 2)
        (saveChatMessage "c" (userMessage "c" "1" "draw a server") (t0 + 1)
           sampleDb).2).2).1 =
  Ok (Some {| id := "c"; createdAt := t0 - 1 * hour; lastAccessedAt := t0 + 2;
              chatHistory := [userMessage "c" "1" "draw a server";
                              userMessage "c" "2" "and a database"];
              currentDiagram := None; config := defaultConfig |}).
Proof.
  destruct (saveChatMessage_appends_in_order "c"
              (userMessage "c" "1" "draw a server")
              (userMessage "c" "2" "and a database")
              (t0 + 1) (t0 + 2) sampleDb (rowAt "c" (t0 - 1 * hour)))
    as (_ & _ & H & _); [constructor | vm_compute; reflexivity | exact H].
Defined.

(** X14. On an id with no row, when the storage works, [saveChatMessage],
    [saveDiagram] and [restoreSession] each reject with the not-found error
    for that id and leave the table as it was: none of them creates the
    session. *)
Theorem missing_session_is_not_created sid message diagram now db :
  healthy db → sessions db !! sid = None →
  (saveChatMessage sid message now db).1 = Threw (notFound sid) ∧
  sessions (saveChatMessage sid message now db).2 = sessions db ∧
  (saveDiagram sid diagram now db).1 = Threw (notFound sid) ∧
  sessions (saveDiagram sid diagram now db).2 = sessions db ∧
  (restoreSession sid now db).1 = Threw (notFound sid) ∧
  sessions (restoreSession sid now db).2 = sessions db.
Proof.
  intros H Hrow. destruct (getSession_healthy sid db H) as (db1 & Hg & Hs1 & Hh1).
  unfold saveChatMessage, restoreSession, saveDiagram. rewrite Hg, Hrow.
  destruct (updateSession_missing sid
              {| p_id := None; p_createdAt := None; p_lastAccessedAt := None;
                 p_chatHistory := None; p_currentDiagram := Some (Some diagram);
                 p_config := None |} now db H Hrow) as (db2 & -> & Hs2 & _).
  by simpl.
Qed.

Lemma missing_session_is_not_created_witness :
  (restoreSession "zz" t0 sampleDb).1 = Threw (notFound "zz").
Proof.
  destruct (missing_session_is_not_created "zz" (userMessage "zz" "1" "hi")
              sampleDiagram t0 sampleDb) as (_ & _ & _ & _ & H & _);
    [constructor | vm_compute; reflexivity | exact H].
Defined.

(** X15. [saveDiagram] replaces the diagram wholesale: when the storage
    works, the session read back afterwards has the diagram just saved,
    whatever it had before, [lastAccessedAt] the time of the save, and the
    id, creation time, chat history and config it had; no other row
    changes. *)
Theorem saveDiagram_replaces_diagram sid diagram now db row :
  healthy db → sessions db !! sid = Some row →
  let r := saveDiagram sid diagram now db in
  r.1 = Ok () ∧
  (getSession sid r.2).1 =
    Ok (Some {| id := row_id row;
                createdAt := instant (created_at row);
                lastAccessedAt := now;
                chatHistory := chatHistory (rowToSession row);
                currentDiagram := Some diagram;
                config := config (rowToSession row) |}) ∧
  (∀ j, j ≠ sid → sessions r.2 !! j = sessions db !! j).
Proof.
  intros H Hrow. cbv zeta.
  destruct (saveDiagram_healthy sid diagram now db row H Hrow)
    as (db1 & -> & Hs1 & Hh1). cbn [fst snd].
  destruct (getSession_healthy sid db1 Hh1) as (db2 & -> & _).
  rewrite Hs1. split_and!; try done.
  - by rewrite lookup_insert_eq.
  - intros j Hj. by rewrite lookup_insert_ne.
Qed.

Lemma saveDiagram_replaces_diagram_witness :
  (saveDiagram "c" sampleDiagram (t0 + 1) sampleDb).1 = Ok ().
Proof.
  destruct (saveDiagram_replaces_diagram "c" sampleDiagram
              (t0 + 1) sampleDb (rowAt "c" (t0 - 1 * hour))) as [H _];
    [constructor | vm_compute; reflexivity | exact H].
Defined.

(** X16. [restoreSession] returns the session as it was read, before the
    touch: the [lastAccessedAt] it reports is the previous one, while the
    row it leaves in the table has [last_accessed_at] set to [now] and
    every other column as before. *)
Theorem restoreSession_returns_record_before_touch sid now db row :
  healthy db → sessions db !! sid = Some row →
  let r := restoreSession sid now db in
  r.1 = Ok (rowToSession row) ∧
  (∀ s, r.1 = Ok s → lastAccessedAt s = instant (last_accessed_at row)) ∧
  sessions r.2 !! sid =
    Some {| row_id := row_id row; created_at := created_at row;
            last_accessed_at := toISOString now;
            chat_history := chat_history row;
            current_diagram := current_diagram row;
            config_json := config_json row |} ∧
  (∀ j, j ≠ sid → sessions r.2 !! j = sessions db !! j).
Proof.
  intros H Hrow. cbv zeta.
  destruct (restoreSession_healthy sid now db row H Hrow)
    as (db1 & -> & Hs1 & Hh1). cbn [fst snd]. rewrite Hs1.
  split_and!; try done.
  - by intros s [= <-].
  - by rewrite lookup_insert_eq.
  - intros j Hj. by rewrite lookup_insert_ne.
Qed.

Lemma restoreSession_returns_record_before_touch_witness :
  lastAccessedAt <$>
    (match (restoreSession "c" t0 sampleDb).1 with
     | Ok s => Some s
     | Threw _ => None
     end) = Some (t0 - 1 * hour)%Z.
Proof.
  destruct (restoreSession_returns_record_before_touch "c" t0 sampleDb
              (rowAt "c" (t0 - 1 * hour))) as (H & _);
    [constructor | vm_compute; reflexivity |].
  rewrite H. reflexivity.
Defined.

(** ** All or nothing *)

Lemma nextFault_sessions db : sessions (nextFault db).2 = sessions db.
Proof. unfold nextFault. by destruct (faults db). Qed.

Lemma getSession_sessions i db : sessions (getSession i db).2 = sessions db.
Proof.
  unfold getSession, get_by_id.
  pose proof (nextFault_sessions db) as H.
  destruct (nextFault db) as [[e|] db1]; simpl in *; [done|].
  by destruct (sessions db1 !! i).
Qed.

Lemma updateSession_threw i data now db e :
  (updateSession i data now db).1 = Threw e →
  sessions (updateSession i data now db).2 = sessions db.
Proof.
  unfold updateSession. pose proof (getSession_sessions i db) as Hg.
  destruct (getSession i db) as [[[s|]|e'] db1]; simpl in *; try done.
  unfold run_update. pose proof (nextFault_sessions db1) as Hn.
  destruct (nextFault db1) as [[e''|] db2]; simpl in *; [congruence | done].
Qed.

(** X17. Every method of the session manager other than the sweep is all
    or nothing, whatever the storage does: when [createSession],
    [getSession], [updateSession], [deleteSession], [saveChatMessage],
    [saveDiagram] or [restoreSession] rejects, the table is exactly as it
    was before the call; and [getSession] never changes the table, whether
    it rejects or not. *)
Theorem rejected_call_changes_nothing db e :
  (∀ uuid t1 t2, (createSession uuid t1 t2 db).1 = Threw e →
     sessions (createSession uuid t1 t2 db).2 = sessions db) ∧
  (∀ i, sessions (getSession i db).2 = sessions db) ∧
  (∀ i data now, (updateSession i data now db).1 = Threw e →
     sessions (updateSession i data now db).2 = sessions db) ∧
  (∀ i, (deleteSession i db).1 = Threw e →
     sessions (deleteSession i db).2 = sessions db) ∧
  (∀ sid message now, (saveChatMessage sid message now db).1 = Threw e →
     sessions (saveChatMessage sid message now db).2 = sessions db) ∧
  (∀ sid diagram now, (saveDiagram sid diagram now db).1 = Threw e →
     sessions (saveDiagram sid diagram now db).2 = sessions db) ∧
  (∀ sid now, (restoreSession sid now db).1 = Threw e →
     sessions (restoreSession sid now db).2 = sessions db).
Proof.
  split_and!.
  - intros uuid t1 t2. unfold createSession, run_insert.
    pose proof (nextFault_sessions db) as Hn.
    destruct (nextFault db) as [[e'|] db1]; simpl in *; [done|].
    by destruct (sessions db1 !! uuid).
  - intros i. apply getSession_sessions.
  - intros i data now. apply updateSession_threw.
  - intros i. unfold deleteSession, run_delete.
    pose proof (nextFault_sessions db) as Hn.
    by destruct (nextFault db) as [[e'|] db1].
  - intros sid message now. unfold saveChatMessage.
    pose proof (getSession_sessions sid db) as Hg.
    destruct (getSession sid db) as [[[s|]|e'] db1]; simpl in *; try done.
    intros H. by rewrite (updateSession_threw _ _ _ _ _ H).
  - intros sid diagram now. apply updateSession_threw.
  - intros sid now. unfold restoreSession.
    pose proof (getSession_sessions sid db) as Hg.
    destruct (getSession sid db) as [[[s|]|e'] db1]; simpl in *; try done.
    pose proof (updateSession_threw sid emptyPartial now db1) as Hu.
    destruct (updateSession sid emptyPartial now db1) as [[u|e''] db2];
      simpl in *; [done|].
    intros [= ->]. by rewrite (Hu e).
Qed.

Lemma rejected_call_changes_nothing_witness :
  sessions (saveChatMessage "c" (userMessage "c" "1" "hi") t0
              (withFaults [None; None; Some (ErrorObj "SQLITE_FULL")] sampleDb)).2
  = sessions sampleDb.
Proof.
  destruct (rejected_call_changes_nothing
              (withFaults [None; None; Some (ErrorObj "SQLITE_FULL")] sampleDb)
              (ErrorObj "SQLITE_FULL")) as (_ & _ & _ & _ & H & _).
  apply (H "c" (userMessage "c" "1" "hi") t0). vm_compute. reflexivity.
Defined.

(** ** The sweep, again *)

Lemma remaining_not_before tz order now db :
  fourDigitYear (expiryTimeAt tz now) → fourDigitYears (sessions db) →
  returnsEachOnce order → healthy db →
  ∃ db', cleanupExpiredSessions tz order now db =
           (Ok (size (filter (λ kr, (instant (last_accessed_at kr.2)
                                     < expiryTimeAt tz now)%Z) (sessions db))),
            db') ∧
    sessions db' =
      filter (λ kr, ¬ (instant (last_accessed_at kr.2) < expiryTimeAt tz now)%Z)
        (sessions db) ∧
    healthy db'.
Proof.
  intros Hc Hrows Ho H.
  destruct (cleanup_healthy tz order now db (fourDigitYear_valid _ Hc) Ho H)
    as (db' & -> & Hs & Hh).
  exists db'. split; [|split; [|done]].
  - f_equal. f_equal. f_equal. apply map_filter_ext. intros k row Hk.
    unfold accessedBefore. simpl.
    by apply (textLt_fourDigit _ (toISOString (expiryTimeAt tz now))
                (Hrows k row Hk) Hc).
  - rewrite Hs. apply map_filter_ext. intros k row Hk.
    unfold accessedBefore. simpl.
    by rewrite (textLt_fourDigit _ (toISOString (expiryTimeAt tz now))
                  (Hrows k row Hk) Hc).
Qed.

(** X18. After a sweep that went through, nothing is left for a cutoff
    that is not later. The cutoff of a sweep at [now] is the instant 24
    local hours before [now] on the host ([expiryTimeAt]: 23 or 25 hours
    before [now] across a daylight-saving switch, so a later [now] need
    not give a later cutoff). With the stored timestamps and the two
    cutoffs in the years 0000 to 9999 and the storage working: after the
    sweep at [now], no stored session was last accessed before its cutoff,
    and a second sweep, at any [now'] whose cutoff is not after the
    first one's, reports 0 and leaves the table as the first one left
    it. *)
Theorem cleanup_twice tz order order' now now' db :
  healthy db → returnsEachOnce order → returnsEachOnce order' →
  fourDigitYears (sessions db) →
  fourDigitYear (expiryTimeAt tz now) → fourDigitYear (expiryTimeAt tz now') →
  (expiryTimeAt tz now' ≤ expiryTimeAt tz now)%Z →
  let db1 := (cleanupExpiredSessions tz order now db).2 in
  (∀ k row, sessions db1 !! k = Some row →
     (expiryTimeAt tz now ≤ instant (last_accessed_at row))%Z) ∧
  (cleanupExpiredSessions tz order' now' db1).1 = Ok 0 ∧
  sessions (cleanupExpiredSessions tz order' now' db1).2 = sessions db1.
Proof.
  intros H Ho Ho' Hrows Hc Hc' Hle. cbv zeta.
  destruct (remaining_not_before tz order now db Hc Hrows Ho H)
    as (db1 & -> & Hs1 & Hh1). cbn [snd].
  assert (∀ k row, sessions db1 !! k = Some row →
            sessions db !! k = Some row ∧
            (expiryTimeAt tz now ≤ instant (last_accessed_at row))%Z) as Hleft.
  { intros k row. rewrite Hs1. intros [Hk Hn]%map_lookup_filter_Some.
    simpl in Hn. split; [done|lia]. }
  assert (fourDigitYears (sessions db1)) as Hrows1.
  { intros k row Hk. apply (Hrows k row). by apply Hleft. }
  destruct (remaining_not_before tz order' now' db1 Hc' Hrows1 Ho' Hh1)
    as (db2 & -> & Hs2 & Hh2).
  cbn [fst snd]. split; [|split].
  - intros k row Hk. by apply (Hleft k row).
  - f_equal. apply map_size_empty_iff, map_empty_filter.
    intros k row Hk. simpl. destruct (Hleft k row Hk) as [_ Hge]. lia.
  - rewrite Hs2. apply map_filter_id. intros k row Hk. simpl.
    destruct (Hleft k row Hk) as [_ Hge]. lia.
Qed.

Lemma cleanup_twice_witness :
  (cleanupExpiredSessions utc byLastAccessed (t0 - hour)
     (cleanupExpiredSessions utc byLastAccessed t0 sampleDb).2).1
  = Ok 0.
Proof.
  destruct (cleanup_twice utc byLastAccessed byLastAccessed t0 (t0 - hour)
              sampleDb) as (_ & H & _);
    [constructor | apply byLastAccessed_returnsEachOnce
    | apply byLastAccessed_returnsEachOnce | apply threeRows_fourDigitYears
    | vm_compute; split; [discriminate|reflexivity]
    | vm_compute; split; [discriminate|reflexivity]
    | vm_compute; discriminate | exact H].
Defined.



(** ** Identity of the stored sessions *)

Lemma keepsIdentity_refl m : keepsIdentity m m.
Proof. intros k r' H. eauto. Qed.

Lemma keepsIdentity_trans m1 m2 m3 :
  keepsIdentity m1 m2 → keepsIdentity m2 m3 → keepsIdentity m1 m3.
Proof.
  intros H12 H23 k r3 H3. destruct (H23 k r3 H3) as (r2 & H2 & ? & ?).
  destruct (H12 k r2 H2) as (r1 & H1 & ? & ?). exists r1.
  split_and!; [done | congruence | congruence].
Qed.

Lemma keepsIdentity_delete i m : keepsIdentity m (delete i m).
Proof.
  intros k r' [_ H]%lookup_delete_Some. eauto.
Qed.

Lemma keepsIdentity_alter la ch cd cf i m :
  keepsIdentity m (alter (setColumns la ch cd cf) i m).
Proof.
  intros k r'. destruct (decide (i = k)) as [<-|Hne].
  - rewrite lookup_alter_eq. destruct (m !! i) as [r|]; [|done].
    intros [= <-]. eauto.
  - rewrite lookup_alter_ne by done. eauto.
Qed.

Lemma updateSession_keepsIdentity i data now db :
  keepsIdentity (sessions db) (sessions (updateSession i data now db).2).
Proof.
  unfold updateSession. pose proof (getSession_sessions i db) as Hg.
  destruct (getSession i db) as [[[s|]|e'] db1]; simpl in *;
    try (rewrite Hg; apply keepsIdentity_refl).
  unfold run_update. pose proof (nextFault_sessions db1) as Hn.
  destruct (nextFault db1) as [[e''|] db2]; simpl in *.
  - rewrite Hn, Hg. apply keepsIdentity_refl.
  - rewrite Hn, Hg. apply keepsIdentity_alter.
Qed.

Lemma deleteEach_keepsIdentity ids :
  ∀ db, keepsIdentity (sessions db) (sessions (deleteEach ids db).2).
Proof.
  induction ids as [|i ids IH]; intros db; simpl; [apply keepsIdentity_refl|].
  unfold deleteSession, run_delete. pose proof (nextFault_sessions db) as Hn.
  destruct (nextFault db) as [[e|] db1]; simpl in *.
  - rewrite Hn. apply keepsIdentity_refl.
  - specialize (IH (withSessions (delete i (sessions db1)) db1)).
    destruct (deleteEach ids _) as [[u|e] db2]; simpl in *;
      (eapply keepsIdentity_trans; [|exact IH]);
      rewrite Hn; apply keepsIdentity_delete.
Qed.

Lemma deleteSession_keepsIdentity i db :
  keepsIdentity (sessions db) (sessions (deleteSession i db).2).
Proof.
  unfold deleteSession, run_delete. pose proof (nextFault_sessions db) as Hn.
  destruct (nextFault db) as [[e|] db1]; simpl in *; rewrite Hn;
    [apply keepsIdentity_refl | apply keepsIdentity_delete].
Qed.

Lemma saveChatMessage_keepsIdentity sid message now db :
  keepsIdentity (sessions db) (sessions (saveChatMessage sid message now db).2).
Proof.
  unfold saveChatMessage. pose proof (getSession_sessions sid db) as Hg.
  destruct (getSession sid db) as [[[s|]|e'] db1]; simpl in *;
    try (rewrite Hg; apply keepsIdentity_refl).
  rewrite <- Hg. apply updateSession_keepsIdentity.
Qed.

Lemma restoreSession_keepsIdentity sid now db :
  keepsIdentity (sessions db) (sessions (restoreSession sid now db).2).
Proof.
  unfold restoreSession. pose proof (getSession_sessions sid db) as Hg.
  destruct (getSession sid db) as [[[s|]|e'] db1]; simpl in *;
    try (rewrite Hg; apply keepsIdentity_refl).
  pose proof (updateSession_keepsIdentity sid emptyPartial now db1) as Hu.
  rewrite Hg in Hu.
  by destruct (updateSession sid emptyPartial now db1) as [[u|e''] db2].
Qed.

Lemma cleanup_keepsIdentity tz order now db :
  keepsIdentity (sessions db) (sessions (cleanupExpiredSessions tz order now db).2).
Proof.
  unfold cleanupExpiredSessions, all_accessedBefore. cbv zeta.
  destruct (maxTime <? Z.abs (expiryTimeAt tz now))%Z;
    [apply keepsIdentity_refl|].
  pose proof (nextFault_sessions db) as Hn.
  destruct (nextFault db) as [[e|] db1]; simpl in *.
  - rewrite Hn. apply keepsIdentity_refl.
  - match goal with
    | |- context [deleteEach ?ids db1] =>
        pose proof (deleteEach_keepsIdentity ids db1) as Hd;
        destruct (deleteEach ids db1) as [[u|e] db2]
    end; simpl in *; by rewrite <- Hn.
Qed.

Lemma createSession_inserts uuid t1 t2 db :
  sessions (createSession uuid t1 t2 db).2 = sessions db ∨
  ∃ row, sessions db !! uuid = None ∧ row_id row = uuid ∧
         sessions (createSession uuid t1 t2 db).2 = <[uuid := row]> (sessions db).
Proof.
  unfold createSession, run_insert. pose proof (nextFault_sessions db) as Hn.
  destruct (nextFault db) as [[e|] db1]; simpl in *; [by left|].
  destruct (sessions db1 !! uuid) eqn:Hu; simpl; [by left|].
  right. eexists. rewrite <- Hn. split_and!; [done| |done]. done.
Qed.

(** X20. No call of the session manager changes the identity of a stored
    session, whatever the storage does: after [getSession],
    [updateSession], [deleteSession], [saveChatMessage], [saveDiagram],
    [restoreSession] or a sweep, every row of the table was there before
    under the same key with the same id and creation time (so none of them
    adds a row); and [createSession] leaves every row that was there as it
    was. *)
Theorem identity_is_stable db :
  (∀ i, keepsIdentity (sessions db) (sessions (getSession i db).2)) ∧
  (∀ i data now,
     keepsIdentity (sessions db) (sessions (updateSession i data now db).2)) ∧
  (∀ i, keepsIdentity (sessions db) (sessions (deleteSession i db).2)) ∧
  (∀ sid message now,
     keepsIdentity (sessions db) (sessions (saveChatMessage sid message now db).2)) ∧
  (∀ sid diagram now,
     keepsIdentity (sessions db) (sessions (saveDiagram sid diagram now db).2)) ∧
  (∀ sid now,
     keepsIdentity (sessions db) (sessions (restoreSession sid now db).2)) ∧
  (∀ tz order now,
     keepsIdentity (sessions db)
       (sessions (cleanupExpiredSessions tz order now db).2)) ∧
  (∀ uuid t1 t2 k r,
     sessions db !! k = Some r →
     sessions (createSession uuid t1 t2 db).2 !! k = Some r).
Proof.
  split_and!.
  - intros i. rewrite getSession_sessions. apply keepsIdentity_refl.
  - intros. apply updateSession_keepsIdentity.
  - intros. apply deleteSession_keepsIdentity.
  - intros. apply saveChatMessage_keepsIdentity.
  - intros. apply updateSession_keepsIdentity.
  - intros. apply restoreSession_keepsIdentity.
  - intros. apply cleanup_keepsIdentity.
  - intros uuid t1 t2 k r Hk.
    destruct (createSession_inserts uuid t1 t2 db) as [->|(row & Hu & _ & ->)];
      [done|].
    rewrite lookup_insert_ne; [done|]. congruence.
Qed.

Lemma identity_is_stable_witness :
  row_id <$> sessions (saveDiagram "c" sampleDiagram t0 sampleDb).2 !! "c" =
  Some "c".
Proof.
  destruct (identity_is_stable sampleDb) as (_ & _ & _ & _ & H & _).
  destruct (sessions (saveDiagram "c" sampleDiagram t0 sampleDb).2 !! "c")
    as [r'|] eqn:Hr'; [|vm_compute in Hr'; discriminate].
  destruct (H "c" sampleDiagram t0 "c" r' Hr') as (r & Hr & Hid & _).
  simpl. rewrite Hid. vm_compute in Hr. by injection Hr as <-.
Defined.

(** X21. In a store that started empty and was only touched through the
    manager, every row is stored under its own id, so that [getSession]
    on an id can only return a session with that id. *)
Theorem stored_under_own_id db :
  dbReachable db →
  (∀ k r, sessions db !! k = Some r → row_id r = k) ∧
  (∀ k s, (getSession k db).1 = Ok (Some s) → id s = k).
Proof.
  intros Hreach.
  assert (∀ k r, sessions db !! k = Some r → row_id r = k) as Hkeyed.
  { unfold dbReachable in Hreach. revert db Hreach.
    apply (rtc_ind_r (λ db, ∀ k r, sessions db !! k = Some r → row_id r = k)).
    - intros k r H. simpl in H. by rewrite lookup_empty in H.
    - intros db db' _ Hstep IH k r' Hk'.
      assert (keepsIdentity (sessions db) (sessions db') ∨
              ∃ uuid t1 t2, db' = (createSession uuid t1 t2 db).2) as [Hkeep|Hc].
      { destruct Hstep; [left; apply keepsIdentity_refl | right; eauto
          | left; rewrite getSession_sessions; apply keepsIdentity_refl
          | left; apply updateSession_keepsIdentity
          | left; apply deleteSession_keepsIdentity
          | left; apply saveChatMessage_keepsIdentity
          | left; apply updateSession_keepsIdentity
          | left; apply restoreSession_keepsIdentity
          | left; apply cleanup_keepsIdentity]. }
      + destruct (Hkeep k r' Hk') as (r & Hr & -> & _). by apply IH.
      + destruct Hc as (uuid & t1 & t2 & ->).
        destruct (createSession_inserts uuid t1 t2 db) as [He|(row & Hu & Hid & He)];
          rewrite He in Hk'; [by apply IH|].
        destruct (decide (uuid = k)) as [->|Hne].
        * rewrite lookup_insert_eq in Hk'. by simplify_eq.
        * rewrite lookup_insert_ne in Hk' by done. by apply IH. }
  split; [exact Hkeyed|].
  intros k s. unfold getSession, get_by_id.
  pose proof (nextFault_sessions db) as Hn.
  destruct (nextFault db) as [[e|] db1]; simpl in *; [done|].
  destruct (sessions db1 !! k) as [r|] eqn:Hr; simpl; [|done].
  intros [= <-]. simpl. apply Hkeyed. by rewrite <- Hn.
Qed.

Lemma stored_under_own_id_witness :
  row_id <$> sessions (createSession "3f2a" t0 (t0 + 1) emptyDb).2 !! "3f2a" =
  Some "3f2a".
Proof.
  destruct (stored_under_own_id (createSession "3f2a" t0 (t0 + 1) emptyDb).2)
    as [H _].
  - eapply rtc_r; [apply rtc_refl | apply step_createSession].
  - destruct (sessions (createSession "3f2a" t0 (t0 + 1) emptyDb).2 !! "3f2a")
      as [r|] eqn:E; [|vm_compute in E; discriminate E].
    simpl. f_equal. exact (H "3f2a" r E).
Defined.

End SessionMore.

(** * Properties of the HTTP handlers *)

Module ServerFacts.
Import Sessions SessionFacts SessionMore Server.

Lemma createSession_healthy uuid t1 t2 db :
  healthy db → sessions db !! uuid = None →
  ∃ db', createSession uuid t1 t2 db =
           (Ok {| id := uuid; createdAt := t1; lastAccessedAt := t2;
                  chatHistory := []; currentDiagram := None;
                  config := defaultConfig |}, db') ∧
    sessions db' =
      <[uuid := {| row_id := uuid; created_at := toISOString t1;
                   last_accessed_at := toISOString t2;
                   chat_history := stringify []; current_diagram := None;
                   config_json := stringify defaultConfig |}]> (sessions db) ∧
    healthy db'.
Proof.
  intros H Hfresh.
  destruct (run_insert_fresh
              {| row_id := uuid; created_at := toISOString t1;
                 last_accessed_at := toISOString t2;
                 chat_history := stringify []; current_diagram := None;
                 config_json := stringify defaultConfig |} db H Hfresh)
    as (db1 & Hi & Hs & Hh).
  unfold createSession. simpl in *. rewrite Hi. by exists db1.
Qed.

(** ** The hourly sweep *)

Lemma deleteEach_only_deletes ids :
  ∀ db k r, sessions (deleteEach ids db).2 !! k = Some r →
            sessions db !! k = Some r.
Proof.
  induction ids as [|i ids IH]; intros db k r; simpl; [done|].
  unfold deleteSession, run_delete. pose proof (nextFault_sessions db) as Hn.
  destruct (nextFault db) as [[e|] db1]; simpl in *; [by rewrite Hn|].
  specialize (IH (withSessions (delete i (sessions db1)) db1) k r).
  destruct (deleteEach ids _) as [[u|e] db2]; simpl in *;
    intros H; apply IH in H; apply lookup_delete_Some in H as [_ H];
    by rewrite <- Hn.
Qed.

Lemma cleanupTick_only_deletes tz order now db k r :
  sessions (cleanupTick tz order now db) !! k = Some r → sessions db !! k = Some r.
Proof.
  unfold cleanupTick, cleanupExpiredSessions, all_accessedBefore. cbv zeta.
  destruct (maxTime <? Z.abs (expiryTimeAt tz now))%Z; [done|].
  pose proof (nextFault_sessions db) as Hn.
  destruct (nextFault db) as [[e|] db1]; simpl in *; [by rewrite Hn|].
  match goal with
  | |- context [deleteEach ?ids db1] =>
      pose proof (deleteEach_only_deletes ids db1 k r) as Hd;
      destruct (deleteEach ids db1) as [[u|e] db2]
  end; simpl in *; intros H; apply Hd in H; by rewrite <- Hn.
Qed.

Lemma runTicks_only_deletes tz order times :
  ∀ db k r, sessions (runTicks tz order times db) !! k = Some r →
            sessions db !! k = Some r.
Proof.
  induction times as [|now times IH]; intros db k r; simpl; [done|].
  intros H. apply IH in H. by apply cleanupTick_only_deletes in H.
Qed.

(** X22. A sweep that fails does not stop the hourly task, and what it
    left is picked up later. Whatever happened in the earlier runs, a run
    of the task only ever removes rows; and once a run at [now] finds the
    storage working, every session last accessed before the cutoff of
    that run is gone, and every session left is one that was there from
    the start, unchanged and last accessed at the cutoff or later. The
    cutoff is the instant 24 local hours before [now] on the host, which
    is [now] minus 24 hours when the host's offset is the same at both;
    it and the stored timestamps are in the years 0000 to 9999. *)
Theorem hourly_sweep_catches_up tz order times now db :
  healthy (runTicks tz order times db) → returnsEachOnce order →
  fourDigitYears (sessions db) → fourDigitYear (expiryTimeAt tz now) →
  let db' := runTicks tz order (times ++ [now]) db in
  (∀ k row, sessions db !! k = Some row →
     (instant (last_accessed_at row) < expiryTimeAt tz now)%Z →
     sessions db' !! k = None) ∧
  (∀ k row, sessions db' !! k = Some row →
     sessions db !! k = Some row ∧
     (expiryTimeAt tz now ≤ instant (last_accessed_at row))%Z) ∧
  (steadyOffset tz now → expiryTimeAt tz now = (now - 24 * hour)%Z).
Proof.
  intros H Ho Hrows Hc. cbv zeta.
  assert (runTicks tz order (times ++ [now]) db =
          cleanupTick tz order now (runTicks tz order times db)) as ->.
  { clear H. revert db Hrows. induction times as [|t times IH]; intros db Hrows;
      [done|].
    simpl. apply IH. intros k row Hk.
    apply cleanupTick_only_deletes in Hk. by apply (Hrows k row). }
  unfold cleanupTick.
  assert (fourDigitYears (sessions (runTicks tz order times db))) as Hrows'.
  { intros k row Hk. apply runTicks_only_deletes in Hk. by apply (Hrows k row). }
  destruct (remaining_not_before tz order now (runTicks tz order times db)
              Hc Hrows' Ho H) as (db2 & -> & Hs & _).
  cbn [snd]. rewrite Hs. split; [|split].
  - intros k row Hk Hexp. apply map_lookup_filter_None.
    destruct (sessions (runTicks tz order times db) !! k) as [row'|] eqn:Hk';
      [|by left].
    right. intros row'' [= <-] Hn. apply Hn. simpl.
    apply runTicks_only_deletes in Hk'. by simplify_eq.
  - intros k row [Hk Hn]%map_lookup_filter_Some. simpl in Hn. split; [|lia].
    by apply runTicks_only_deletes in Hk.
  - apply expiryTimeAt_steady.
Qed.

Lemma hourly_sweep_catches_up_witness :
  sessions (runTicks utc byLastAccessed ([t0] ++ [(t0 + hour)%Z])%list busyDb)
    !! "b" = None.
Proof.
  destruct (hourly_sweep_catches_up utc byLastAccessed [t0] (t0 + hour)%Z busyDb)
    as [H _].
  - vm_compute. constructor.
  - apply byLastAccessed_returnsEachOnce.
  - apply threeRows_fourDigitYears.
  - vm_compute. split; [discriminate|reflexivity].
  - apply (H "b" (rowAt "b" (t0 - 30 * hour))); vm_compute; reflexivity.
Defined.

(** ** [POST /api/chat] *)

(** X23. Requests that are turned away leave no trace. A request without a
    message, or with no API key in the body or in the environment (an
    empty string counts as none), is answered 400 without one call to the
    store or to the agent. A request for a session id that has no row,
    when the storage works, is answered 404: the table is as before, no
    session is created, and the agent is not consulted (the answer is the
    same for every agent). *)
Theorem chat_turns_away_without_trace req envKey rd agent db :
  (truthyString (req_message req) = false ∨
   (truthyString (req_apiKey req) = false ∧ truthyString envKey = false) →
   chatHandler req envKey rd agent db =
     ({| status := 400; body := ErrorBody "Message and API key required" None |},
      db)) ∧
  (∀ sid, healthy db →
     truthyString (req_message req) = true →
     truthyString (req_apiKey req) = true ∨ truthyString envKey = true →
     req_sessionId req = Some sid → sid ≠ "" → sessions db !! sid = None →
     (chatHandler req envKey rd agent db).1 =
       {| status := 404; body := ErrorBody "Session not found" None |} ∧
     sessions (chatHandler req envKey rd agent db).2 = sessions db ∧
     ∀ agent', chatHandler req envKey rd agent' db =
               chatHandler req envKey rd agent db).
Proof.
  split.
  - intros H. unfold chatHandler, chatTry.
    destruct H as [-> | [-> ->]]; simpl; [done|].
    by destruct (truthyString (req_message req)).
  - intros sid H Hm Hk Hsid Hne Hrow.
    assert (∀ a, chatHandler req envKey rd a db =
              ({| status := 404; body := ErrorBody "Session not found" None |},
               (getSession sid db).2)) as Hall.
    { intros a. unfold chatHandler, chatTry. rewrite Hm, Hsid. simpl.
      assert (truthyString
                (if truthyString (req_apiKey req) then req_apiKey req else envKey)
              = true) as ->.
      { destruct (truthyString (req_apiKey req)) eqn:E; [done|].
        by destruct Hk. }
      simpl. destruct (String.eqb_spec sid "") as [->|_]; [done|]. simpl.
      destruct (getSession_healthy sid db H) as (db1 & -> & _).
      by rewrite Hrow. }
    rewrite !Hall. split_and!; [done | apply getSession_sessions | done].
Qed.

Lemma chat_turns_away_without_trace_witness :
  (chatHandler (drawRequest (Some "nope")) None sampleReadings echoAgent
     sampleDb).1 =
  {| status := 404; body := ErrorBody "Session not found" None |}.
Proof.
  destruct (chat_turns_away_without_trace (drawRequest (Some "nope")) None
              sampleReadings echoAgent sampleDb) as [_ H].
  destruct (H "nope") as [H1 _];
    [constructor | reflexivity | by left | reflexivity | discriminate
    | vm_compute; reflexivity | exact H1].
Defined.

Lemma chatTry_valid (req : ChatRequest) (envKey : option string) (rd : Readings)
    (agent : Agent) (db : Database) (msg key : string) :
  req_message req = Some msg → msg ≠ "" →
  (if truthyString (req_apiKey req) then req_apiKey req else envKey) = Some key →
  key ≠ "" →
  chatTry req envKey rd agent db =
    match (if truthyString (req_sessionId req) then
             getSession (default "" (req_sessionId req)) db
           else
             match createSession (uuid rd) (createdNow rd) (accessedNow rd) db with
             | (Threw e, db) => (Threw e, db)
             | (Ok s, db) => (Ok (Some s), db)
             end) with
    | (Threw e, db) => (Threw e, db)
    | (Ok None, db) =>
        (Ok {| status := 404; body := ErrorBody "Session not found" None |}, db)
    | (Ok (Some session), db) =>
        match saveChatMessage (id session)
                (chatMessage (id session) (userIdNow rd) user msg
                   (userStamp rd)) (userSaveNow rd) db with
        | (Threw e, db) => (Threw e, db)
        | (Ok _, db) =>
            match agent msg key (req_format req) with
            | Threw e => (Threw e, db)
            | Ok data =>
                match saveChatMessage (id session)
                        (chatMessage (id session) (replyIdNow rd + 1) assistant
                           (replyText data) (replyStamp rd)) (replySaveNow rd) db with
                | (Threw e, db) => (Threw e, db)
                | (Ok _, db) =>
                    (Ok {| status := 200;
                           body := ChatBody (id session) (replyText data)
                                     "Diagram generated successfully" |}, db)
                end
            end
        end
    end.
Proof.
  intros Hm Hmne Hk Hkne. unfold chatTry. rewrite Hm, Hk. simpl.
  destruct (String.eqb_spec msg "") as [->|_]; [done|].
  destruct (String.eqb_spec key "") as [->|_]; [done|]. done.
Qed.

(** What a valid request does once its session is at hand. *)
Lemma chat_from_session (req : ChatRequest) (rd : Readings) (agent : Agent)
    (db : Database) (msg key : string) (row : SessionRow) :
  healthy db → sessions db !! row_id row = Some row →
  let sid := row_id row in
  let userMsg := chatMessage sid (userIdNow rd) user msg (userStamp rd) in
  let old := parse (chat_history row) in
  let r :=
    match saveChatMessage sid userMsg (userSaveNow rd) db with
    | (Threw e, db) => (Threw e, db)
    | (Ok _, db) =>
        match agent msg key (req_format req) with
        | Threw e => (Threw e, db)
        | Ok data =>
            match saveChatMessage sid
                    (chatMessage sid (replyIdNow rd + 1) assistant
                       (replyText data) (replyStamp rd)) (replySaveNow rd) db with
            | (Threw e, db) => (Threw e, db)
            | (Ok _, db) =>
                (Ok {| status := 200;
                       body := ChatBody sid (replyText data)
                                 "Diagram generated successfully" |}, db)
            end
        end
    end in
  match agent msg key (req_format req) with
  | Ok data =>
      r.1 = Ok {| status := 200;
                  body := ChatBody sid (replyText data)
                            "Diagram generated successfully" |} ∧
      sessions r.2 =
        <[sid := setColumns (toISOString (replySaveNow rd))
                   (stringify
                      (old ++ [userMsg;
                               chatMessage sid (replyIdNow rd + 1) assistant
                                 (replyText data) (replyStamp rd)])%list)
                   (current_diagram row) (config_json row) row]> (sessions db)
  | Threw e =>
      r.1 = Threw e ∧
      sessions r.2 =
        <[sid := setColumns (toISOString (userSaveNow rd))
                   (stringify (old ++ [userMsg])%list)
                   (current_diagram row) (config_json row) row]> (sessions db)
  end ∧
  healthy r.2.
Proof.
  intros H Hrow. cbv zeta.
  destruct (saveChatMessage_healthy (row_id row)
              (chatMessage (row_id row) (userIdNow rd) user msg (userStamp rd))
              (userSaveNow rd) db row H Hrow) as (db1 & -> & Hs1 & Hh1).
  destruct (agent msg key (req_format req)) as [data|e].
  - destruct (saveChatMessage_healthy (row_id row)
                (chatMessage (row_id row) (replyIdNow rd + 1) assistant
                   (replyText data) (replyStamp rd))
                (replySaveNow rd) db1 _ Hh1
                ltac:(rewrite Hs1; apply lookup_insert_eq))
      as (db2 & -> & Hs2 & Hh2).
    cbn [fst snd]. rewrite Hs2, Hs1, insert_insert_eq. simpl.
    by rewrite <- app_assoc.
  - cbn [fst snd]. by rewrite Hs1.
Qed.

Lemma getSession_after_insert sid row (m : gmap string SessionRow) db :
  healthy db → sessions db = <[sid := row]> m →
  (getSession sid db).1 = Ok (Some (rowToSession row)).
Proof.
  intros H Hs. destruct (getSession_healthy sid db H) as (db1 & -> & _).
  by rewrite Hs, lookup_insert_eq.
Qed.

(** A turn that the agent answers, and one on which the agent fails. *)
Lemma chat_turn_answered req envKey rd agent db msg key data :
  healthy db → req_message req = Some msg → msg ≠ "" →
  (if truthyString (req_apiKey req) then req_apiKey req else envKey) = Some key →
  key ≠ "" → agent msg key (req_format req) = Ok data →
  let r := chatHandler req envKey rd agent db in
  let turn sid :=
    [chatMessage sid (userIdNow rd) user msg (userStamp rd);
     chatMessage sid (replyIdNow rd + 1) assistant (replyText data)
       (replyStamp rd)] in
  (∀ sid row, req_sessionId req = Some sid → sid ≠ "" →
     sessions db !! sid = Some row → row_id row = sid →
     r.1 = {| status := 200;
              body := ChatBody sid (replyText data)
                        "Diagram generated successfully" |} ∧
     (getSession sid r.2).1 =
       Ok (Some {| id := sid; createdAt := instant (created_at row);
                   lastAccessedAt := replySaveNow rd;
                   chatHistory := (parse (chat_history row) ++ turn sid)%list;
                   currentDiagram := parse <$> current_diagram row;
                   config := parse (config_json row) |})) ∧
  (truthyString (req_sessionId req) = false → sessions db !! uuid rd = None →
     r.1 = {| status := 200;
              body := ChatBody (uuid rd) (replyText data)
                        "Diagram generated successfully" |} ∧
     (getSession (uuid rd) r.2).1 =
       Ok (Some {| id := uuid rd; createdAt := createdNow rd;
                   lastAccessedAt := replySaveNow rd;
                   chatHistory := turn (uuid rd);
                   currentDiagram := None; config := defaultConfig |})).
Proof.
  intros H Hm Hmne Hk Hkne Hagent. cbv zeta. unfold chatHandler.
  rewrite (chatTry_valid req envKey rd agent db msg key Hm Hmne Hk Hkne).
  split.
  - intros sid row Hsid Hne Hrow Hid. rewrite Hsid. simpl.
    destruct (String.eqb_spec sid "") as [->|_]; [done|]. simpl.
    destruct (getSession_healthy sid db H) as (db1 & -> & Hs1 & Hh1).
    rewrite Hrow. simpl. rewrite <- Hs1, <- Hid in Hrow.
    pose proof (chat_from_session req rd agent db1 msg key row Hh1 Hrow) as Hc.
    cbv zeta in Hc. rewrite Hagent in Hc |- *. rewrite Hid in *.
    destruct (saveChatMessage sid _ _ db1) as [[u|e] db2]; simpl in *.
    + destruct (saveChatMessage sid _ _ db2) as [[u'|e] db3]; simpl in *;
        destruct Hc as [[Hr Hs] Hh]; [|done].
      split; [done|].
      rewrite (getSession_after_insert sid _ _ db3 Hh Hs).
      unfold rowToSession. simpl. by rewrite Hid.
    + by destruct Hc as [[Hr _] _].
  - intros Hnone Hfresh. rewrite Hnone.
    destruct (createSession_healthy (uuid rd) (createdNow rd) (accessedNow rd)
                db H Hfresh) as (db1 & -> & Hs1 & Hh1).
    cbn [id].
    pose proof (chat_from_session req rd agent db1 msg key
                  {| row_id := uuid rd;
                     created_at := toISOString (createdNow rd);
                     last_accessed_at := toISOString (accessedNow rd);
                     chat_history := stringify []; current_diagram := None;
                     config_json := stringify defaultConfig |} Hh1
                  ltac:(rewrite Hs1; apply lookup_insert_eq)) as Hc.
    cbv zeta in Hc. rewrite Hagent in Hc |- *. simpl in Hc.
    destruct (saveChatMessage (uuid rd) _ _ db1) as [[u|e] db2]; simpl in *.
    + destruct (saveChatMessage (uuid rd) _ _ db2) as [[u'|e] db3]; simpl in *;
        destruct Hc as [[Hr Hs] Hh]; [|done].
      split; [done|].
      by rewrite (getSession_after_insert (uuid rd) _ _ db3 Hh Hs).
    + by destruct Hc as [[Hr _] _].
Qed.

Lemma chat_turn_agent_failed req envKey rd agent db msg key e :
  healthy db → req_message req = Some msg → msg ≠ "" →
  (if truthyString (req_apiKey req) then req_apiKey req else envKey) = Some key →
  key ≠ "" → agent msg key (req_format req) = Threw e →
  let r := chatHandler req envKey rd agent db in
  let timedOut := if e is ErrorObj m then includes "timeout" m else false in
  (∀ sid row, req_sessionId req = Some sid → sid ≠ "" →
     sessions db !! sid = Some row → row_id row = sid →
     r.1 = {| status := if timedOut then 504 else 500;
              body := ErrorBody
                        (if timedOut
                         then "Diagram generation timed out. Try a simpler diagram."
                         else "Failed to generate diagram")
                        (Some (errorMessage e)) |} ∧
     (getSession sid r.2).1 =
       Ok (Some {| id := sid; createdAt := instant (created_at row);
                   lastAccessedAt := userSaveNow rd;
                   chatHistory :=
                     (parse (chat_history row) ++
                      [chatMessage sid (userIdNow rd) user msg (userStamp rd)])%list;
                   currentDiagram := parse <$> current_diagram row;
                   config := parse (config_json row) |})) ∧
  (truthyString (req_sessionId req) = false → sessions db !! uuid rd = None →
     r.1 = {| status := if timedOut then 504 else 500;
              body := ErrorBody
                        (if timedOut
                         then "Diagram generation timed out. Try a simpler diagram."
                         else "Failed to generate diagram")
                        (Some (errorMessage e)) |} ∧
     (getSession (uuid rd) r.2).1 =
       Ok (Some {| id := uuid rd; createdAt := createdNow rd;
                   lastAccessedAt := userSaveNow rd;
                   chatHistory :=
                     [chatMessage (uuid rd) (userIdNow rd) user msg (userStamp rd)];
                   currentDiagram := None; config := defaultConfig |})).
Proof.
  intros H Hm Hmne Hk Hkne Hagent. cbv zeta. unfold chatHandler.
  rewrite (chatTry_valid req envKey rd agent db msg key Hm Hmne Hk Hkne).
  assert (chatCatch e =
          {| status := if (if e is ErrorObj m then includes "timeout" m else false)
                       then 504 else 500;
             body := ErrorBody
                       (if (if e is ErrorObj m then includes "timeout" m else false)
                        then "Diagram generation timed out. Try a simpler diagram."
                        else "Failed to generate diagram")
                       (Some (errorMessage e)) |}) as Hcatch
    by (by destruct e).
  split.
  - intros sid row Hsid Hne Hrow Hid. rewrite Hsid. simpl.
    destruct (String.eqb_spec sid "") as [->|_]; [done|]. simpl.
    destruct (getSession_healthy sid db H) as (db1 & -> & Hs1 & Hh1).
    rewrite Hrow. simpl. rewrite <- Hs1, <- Hid in Hrow.
    pose proof (chat_from_session req rd agent db1 msg key row Hh1 Hrow) as Hc.
    cbv zeta in Hc. rewrite Hagent in Hc |- *. rewrite Hid in *.
    destruct (saveChatMessage sid _ _ db1) as [[u|e'] db2]; simpl in *;
      destruct Hc as [[Hr Hs] Hh]; [|].
    + split; [by rewrite <- Hcatch|].
      rewrite (getSession_after_insert sid _ _ db2 Hh Hs).
      unfold rowToSession. simpl. by rewrite Hid.
    + injection Hr as ->. split; [by rewrite <- Hcatch|].
      rewrite (getSession_after_insert sid _ _ db2 Hh Hs).
      unfold rowToSession. simpl. by rewrite Hid.
  - intros Hnone Hfresh. rewrite Hnone.
    destruct (createSession_healthy (uuid rd) (createdNow rd) (accessedNow rd)
                db H Hfresh) as (db1 & -> & Hs1 & Hh1).
    cbn [id].
    pose proof (chat_from_session req rd agent db1 msg key
                  {| row_id := uuid rd;
                     created_at := toISOString (createdNow rd);
                     last_accessed_at := toISOString (accessedNow rd);
                     chat_history := stringify []; current_diagram := None;
                     config_json := stringify defaultConfig |} Hh1
                  ltac:(rewrite Hs1; apply lookup_insert_eq)) as Hc.
    cbv zeta in Hc. rewrite Hagent in Hc |- *. simpl in Hc.
    destruct (saveChatMessage (uuid rd) _ _ db1) as [[u|e'] db2]; simpl in *;
      destruct Hc as [[Hr Hs] Hh]; [|].
    + split; [by rewrite <- Hcatch|].
      by rewrite (getSession_after_insert (uuid rd) _ _ db2 Hh Hs).
    + injection Hr as ->. split; [by rewrite <- Hcatch|].
      by rewrite (getSession_after_insert (uuid rd) _ _ db2 Hh Hs).
Qed.

(** X24. A chat turn that goes through stores both messages, in order.
    For a valid request, when the storage works and the agent answers: the
    reply is 200 with the session's id, the agent's text, or the text [No
    response from agent] when it sent none or an empty one, and the
    message [Diagram generated successfully]; the session read back then
    has its earlier history followed by the user's message, with role
    [user] and the request's text, and then the assistant's, with role
    [assistant] and the text of the reply, each with the session's id, its
    own id (the clock reading in decimal, plus one for the assistant's)
    and its own timestamp; the creation time, diagram and config are
    untouched. Without a session id (or with an empty one) a session is
    created under the id drawn, and its history is exactly those two
    messages. *)
Theorem chat_saves_both_messages req envKey rd agent db msg key data :
  healthy db → req_message req = Some msg → msg ≠ "" →
  (if truthyString (req_apiKey req) then req_apiKey req else envKey) = Some key →
  key ≠ "" → agent msg key (req_format req) = Ok data →
  let r := chatHandler req envKey rd agent db in
  let reply :=
    match data with
    | Some text => if String.eqb text "" then "No response from agent" else text
    | None => "No response from agent"
    end in
  let turn sid :=
    [{| msg_id := pretty (userIdNow rd); sessionId := sid; role := user;
        msg_content := msg; timestamp := userStamp rd;
        diagramSnapshot := None; msg_metadata := None |};
     {| msg_id := pretty (replyIdNow rd + 1)%Z; sessionId := sid;
        role := assistant; msg_content := reply; timestamp := replyStamp rd;
        diagramSnapshot := None; msg_metadata := None |}] in
  (∀ sid row, req_sessionId req = Some sid → sid ≠ "" →
     sessions db !! sid = Some row → row_id row = sid →
     r.1 = {| status := 200;
              body := ChatBody sid reply "Diagram generated successfully" |} ∧
     (getSession sid r.2).1 =
       Ok (Some {| id := sid; createdAt := instant (created_at row);
                   lastAccessedAt := replySaveNow rd;
                   chatHistory := (parse (chat_history row) ++ turn sid)%list;
                   currentDiagram := parse <$> current_diagram row;
                   config := parse (config_json row) |})) ∧
  (truthyString (req_sessionId req) = false → sessions db !! uuid rd = None →
     r.1 = {| status := 200;
              body := ChatBody (uuid rd) reply "Diagram generated successfully" |} ∧
     (getSession (uuid rd) r.2).1 =
       Ok (Some {| id := uuid rd; createdAt := createdNow rd;
                   lastAccessedAt := replySaveNow rd;
                   chatHistory := turn (uuid rd);
                   currentDiagram := None; config := defaultConfig |})).
Proof.
  intros H Hm Hmne Hk Hkne Hagent. cbv zeta.
  pose proof (chat_turn_answered req envKey rd agent db msg key data
                H Hm Hmne Hk Hkne Hagent) as Hturn.
  cbv zeta in Hturn.
  assert (replyText data =
          match data with
          | Some text => if String.eqb text "" then "No response from agent" else text
          | None => "No response from agent"
          end) as Hreply.
  { destruct data as [text|]; [|done]. unfold replyText. simpl.
    by destruct (String.eqb text ""). }
  rewrite Hreply in Hturn. exact Hturn.
Qed.

Lemma chat_saves_both_messages_witness :
  (chatHandler (drawRequest (Some "c")) None sampleReadings echoAgent sampleDb).1 =
    {| status := 200;
       body := ChatBody "c" "done: draw a load balancer"
                 "Diagram generated successfully" |} ∧
  (chatHandler (drawRequest None) None sampleReadings (λ _ _ _, Ok None)
     sampleDb).1 =
    {| status := 200;
       body := ChatBody "3f2a" "No response from agent"
                 "Diagram generated successfully" |} ∧
  (getSession "3f2a"
     (chatHandler (drawRequest None) None sampleReadings (λ _ _ _, Ok None)
        sampleDb).2).1 =
    Ok (Some {| id := "3f2a"; createdAt := t0; lastAccessedAt := t0 + 901;
                chatHistory :=
                  [{| msg_id := "1700000000001"; sessionId := "3f2a";
                      role := user; msg_content := "draw a load balancer";
                      timestamp := t0 + 1; diagramSnapshot := None;
                      msg_metadata := None |};
                   {| msg_id := "1700000000901"; sessionId := "3f2a";
                      role := assistant;
                      msg_content := "No response from agent";
                      timestamp := t0 + 900; diagramSnapshot := None;
                      msg_metadata := None |}];
                currentDiagram := None; config := defaultConfig |}).
Proof.
  split.
  - destruct (chat_saves_both_messages (drawRequest (Some "c")) None
                sampleReadings echoAgent sampleDb "draw a load balancer"
                "sk-test" (Some "done: draw a load balancer"))
      as [H1 _];
      [constructor | reflexivity | done | reflexivity | done | reflexivity |].
    destruct (H1 "c" (rowAt "c" (t0 - 1 * hour)) eq_refl ltac:(done) eq_refl
                eq_refl) as [Hr _].
    exact Hr.
  - destruct (chat_saves_both_messages (drawRequest None) None
                sampleReadings (λ _ _ _, Ok None) sampleDb
                "draw a load balancer" "sk-test" None)
      as [_ H2];
      [constructor | reflexivity | done | reflexivity | done | reflexivity |].
    destruct (H2 eq_refl eq_refl) as [Hr Hg]. split; [exact Hr|].
    etrans; [exact Hg|]. vm_compute. reflexivity.
Defined.

(** X25. When the agent call fails, the user's message stays stored and
    the client gets an error only. For a valid request, when the storage
    works and the call to the agent rejects: when what was thrown is an
    [Error] whose message contains [timeout], the reply is 504 with the
    error [Diagram generation timed out. Try a simpler diagram.]; for any
    other [Error] it is 500 with the error [Failed to generate diagram];
    in both cases the details are the message of the [Error]; when what
    was thrown is not an [Error], it is 500 with that error and the
    details [Unknown error]. The reply carries no session id. On an
    existing session the history read back is the earlier one followed by
    the user's message, with no assistant message; without a session id
    the session created for the request stays in the table, holding the
    user's message alone, although the reply does not name it. *)
Theorem chat_agent_failure_keeps_user_message req envKey rd agent db msg key e :
  healthy db → req_message req = Some msg → msg ≠ "" →
  (if truthyString (req_apiKey req) then req_apiKey req else envKey) = Some key →
  key ≠ "" → agent msg key (req_format req) = Threw e →
  let r := chatHandler req envKey rd agent db in
  let answer :=
    match e with
    | ErrorObj message =>
        if includes "timeout" message
        then {| status := 504;
                body := ErrorBody
                          "Diagram generation timed out. Try a simpler diagram."
                          (Some message) |}
        else {| status := 500;
                body := ErrorBody "Failed to generate diagram" (Some message) |}
    | NonError =>
        {| status := 500;
           body := ErrorBody "Failed to generate diagram" (Some "Unknown error") |}
    end in
  let sent sid :=
    {| msg_id := pretty (userIdNow rd); sessionId := sid; role := user;
       msg_content := msg; timestamp := userStamp rd;
       diagramSnapshot := None; msg_metadata := None |} in
  (∀ sid row, req_sessionId req = Some sid → sid ≠ "" →
     sessions db !! sid = Some row → row_id row = sid →
     r.1 = answer ∧
     (getSession sid r.2).1 =
       Ok (Some {| id := sid; createdAt := instant (created_at row);
                   lastAccessedAt := userSaveNow rd;
                   chatHistory := (parse (chat_history row) ++ [sent sid])%list;
                   currentDiagram := parse <$> current_diagram row;
                   config := parse (config_json row) |})) ∧
  (truthyString (req_sessionId req) = false → sessions db !! uuid rd = None →
     r.1 = answer ∧
     (getSession (uuid rd) r.2).1 =
       Ok (Some {| id := uuid rd; createdAt := createdNow rd;
                   lastAccessedAt := userSaveNow rd;
                   chatHistory := [sent (uuid rd)];
                   currentDiagram := None; config := defaultConfig |})).
Proof.
  intros H Hm Hmne Hk Hkne Hagent. cbv zeta.
  pose proof (chat_turn_agent_failed req envKey rd agent db msg key e
                H Hm Hmne Hk Hkne Hagent) as Hturn.
  cbv zeta in Hturn.
  destruct e as [message|]; [destruct (includes "timeout" message)|];
    exact Hturn.
Qed.

Lemma chat_agent_failure_keeps_user_message_witness :
  (chatHandler (drawRequest None) None sampleReadings slowAgent sampleDb).1 =
    {| status := 504;
       body := ErrorBody "Diagram generation timed out. Try a simpler diagram."
                 (Some "timeout of 300000ms exceeded") |} ∧
  (chatHandler (drawRequest None) None sampleReadings
     (λ _ _ _, Threw (ErrorObj "connect ECONNREFUSED 127.0.0.1:8765"))
     sampleDb).1 =
    {| status := 500;
       body := ErrorBody "Failed to generate diagram"
                 (Some "connect ECONNREFUSED 127.0.0.1:8765") |} ∧
  (getSession "3f2a"
     (chatHandler (drawRequest None) None sampleReadings slowAgent sampleDb).2).1
    = Ok (Some {| id := "3f2a"; createdAt := t0; lastAccessedAt := t0 + 2;
                  chatHistory :=
                    [{| msg_id := "1700000000001"; sessionId := "3f2a";
                        role := user; msg_content := "draw a load balancer";
                        timestamp := t0 + 1; diagramSnapshot := None;
                        msg_metadata := None |}];
                  currentDiagram := None; config := defaultConfig |}).
Proof.
  destruct (chat_agent_failure_keeps_user_message (drawRequest None) None
              sampleReadings slowAgent sampleDb "draw a load balancer"
              "sk-test" (ErrorObj "timeout of 300000ms exceeded"))
    as [_ H2];
    [constructor | reflexivity | done | reflexivity | done | reflexivity |].
  destruct (chat_agent_failure_keeps_user_message (drawRequest None) None
              sampleReadings
              (λ _ _ _, Threw (ErrorObj "connect ECONNREFUSED 127.0.0.1:8765"))
              sampleDb "draw a load balancer" "sk-test"
              (ErrorObj "connect ECONNREFUSED 127.0.0.1:8765"))
    as [_ H3];
    [constructor | reflexivity | done | reflexivity | done | reflexivity |].
  destruct (H2 eq_refl eq_refl) as [Hr Hg].
  destruct (H3 eq_refl eq_refl) as [Hr' _].
  split; [|split].
  - etrans; [exact Hr|]. vm_compute. reflexivity.
  - etrans; [exact Hr'|]. vm_compute. reflexivity.
  - etrans; [exact Hg|]. vm_compute. reflexivity.
Defined.

(** ** The session endpoints *)

Lemma createEndpoint_healthy uuid t1 t2 db :
  healthy db → sessions db !! uuid = None →
  ∃ db', createEndpoint uuid t1 t2 db =
           ({| status := 200;
               body := SessionBody
                         {| id := uuid; createdAt := t1; lastAccessedAt := t2;
                            chatHistory := []; currentDiagram := None;
                            config := defaultConfig |} |}, db') ∧
    sessions db' =
      <[uuid := {| row_id := uuid; created_at := toISOString t1;
                   last_accessed_at := toISOString t2;
                   chat_history := stringify []; current_diagram := None;
                   config_json := stringify defaultConfig |}]> (sessions db) ∧
    healthy db'.
Proof.
  intros H Hfresh. unfold createEndpoint.
  destruct (createSession_healthy uuid t1 t2 db H Hfresh)
    as (db1 & -> & Hs1 & Hh1).
  by exists db1.
Qed.

Lemma getEndpoint_healthy i db :
  healthy db →
  ∃ db', getEndpoint i db =
           (match sessions db !! i with
            | Some row => {| status := 200; body := SessionBody (rowToSession row) |}
            | None => {| status := 404; body := ErrorBody "Session not found" None |}
            end, db') ∧
    sessions db' = sessions db ∧ healthy db'.
Proof.
  intros H. unfold getEndpoint.
  destruct (getSession_healthy i db H) as (db1 & -> & Hs1 & Hh1).
  exists db1. by destruct (sessions db !! i).
Qed.

Lemma deleteEndpoint_healthy i db :
  healthy db →
  ∃ db', deleteEndpoint i db = ({| status := 200; body := SuccessBody |}, db') ∧
    sessions db' = delete i (sessions db) ∧ healthy db'.
Proof.
  intros H. unfold deleteEndpoint, deleteSession.
  destruct (run_delete_healthy i db H) as (db1 & -> & Hs1 & Hh1).
  by exists db1.
Qed.

(** X26. The session endpoints compose as create, read, delete, read.
    While the storage works: [POST /api/session/create] with an id new to
    the table answers 200 with the new session; [GET /api/session/:id] for
    it then answers 200 with the same session and leaves the table alone;
    [DELETE /api/session/:id] answers 200 whether or not the id is stored,
    and changes no other row; a [GET] after it answers 404
    [Session not found], and a second [DELETE] still answers 200. *)
Theorem session_endpoints_round_trip uuid t1 t2 db :
  healthy db → sessions db !! uuid = None →
  let c := createEndpoint uuid t1 t2 db in
  let g := getEndpoint uuid c.2 in
  let d := deleteEndpoint uuid g.2 in
  let g' := getEndpoint uuid d.2 in
  let d' := deleteEndpoint uuid g'.2 in
  let s := {| id := uuid; createdAt := t1; lastAccessedAt := t2;
              chatHistory := []; currentDiagram := None;
              config := defaultConfig |} in
  c.1 = {| status := 200; body := SessionBody s |} ∧
  g.1 = {| status := 200; body := SessionBody s |} ∧
  sessions g.2 = sessions c.2 ∧
  d.1 = {| status := 200; body := SuccessBody |} ∧
  sessions d.2 = sessions db ∧
  g'.1 = {| status := 404; body := ErrorBody "Session not found" None |} ∧
  d'.1 = {| status := 200; body := SuccessBody |} ∧
  sessions d'.2 = sessions db.
Proof.
  intros H Hfresh. cbv zeta.
  destruct (createEndpoint_healthy uuid t1 t2 db H Hfresh)
    as (db1 & -> & Hs1 & Hh1). cbn [fst snd].
  destruct (getEndpoint_healthy uuid db1 Hh1) as (db2 & -> & Hs2 & Hh2).
  cbn [fst snd]. rewrite Hs1, lookup_insert_eq.
  destruct (deleteEndpoint_healthy uuid db2 Hh2) as (db3 & -> & Hs3 & Hh3).
  cbn [fst snd].
  assert (sessions db3 = sessions db) as Hback.
  { rewrite Hs3, Hs2, Hs1. by rewrite delete_insert_id. }
  destruct (getEndpoint_healthy uuid db3 Hh3) as (db4 & -> & Hs4 & Hh4).
  cbn [fst snd]. rewrite Hback, Hfresh.
  destruct (deleteEndpoint_healthy uuid db4 Hh4) as (db5 & -> & Hs5 & Hh5).
  cbn [fst snd]. split_and!; try done.
  - by rewrite Hs2, Hs1.
  - rewrite Hs5, Hs4, Hback. by apply delete_id.
Qed.

Lemma session_endpoints_round_trip_witness :
  (getEndpoint "3f2a" (createEndpoint "3f2a" t0 (t0 + 1) sampleDb).2).1 =
    {| status := 200;
       body := SessionBody
                 {| id := "3f2a"; createdAt := t0; lastAccessedAt := t0 + 1;
                    chatHistory := []; currentDiagram := None;
                    config := defaultConfig |} |}.
Proof.
  destruct (session_endpoints_round_trip "3f2a" t0 (t0 + 1) sampleDb)
    as (_ & Hg & _); [constructor | reflexivity |].
  exact Hg.
Defined.

Lemma nextFault_scripted db e fs :
  faults db = Some e :: fs → nextFault db = (Some e, withFaults fs db).
Proof. unfold nextFault. by intros ->. Qed.

(** X27. What a client sees when the storage rejects the first statement
    of a request, with an error [e]. The three session endpoints answer
    500 with their own fixed text and no details; the chat endpoint, for a
    valid request, answers through its catch block, with the storage
    error's message as details, and with status 504 and the text about
    diagram generation timing out when that message contains [timeout],
    although no agent was called: the answer is the same for every agent.
    In each case the table is as it was. *)
Theorem storage_failure_answers db e fs :
  faults db = Some e :: fs →
  (∀ uuid t1 t2,
     createEndpoint uuid t1 t2 db =
     ({| status := 500; body := ErrorBody "Failed to create session" None |},
      withFaults fs db)) ∧
  (∀ i, getEndpoint i db =
     ({| status := 500; body := ErrorBody "Failed to get session" None |},
      withFaults fs db)) ∧
  (∀ i, deleteEndpoint i db =
     ({| status := 500; body := ErrorBody "Failed to delete session" None |},
      withFaults fs db)) ∧
  (∀ req envKey rd agent msg key,
     req_message req = Some msg → msg ≠ "" →
     (if truthyString (req_apiKey req) then req_apiKey req else envKey) = Some key →
     key ≠ "" →
     chatHandler req envKey rd agent db =
     ({| status := if (if e is ErrorObj m then includes "timeout" m else false)
                   then 504 else 500;
         body := ErrorBody
                   (if (if e is ErrorObj m then includes "timeout" m else false)
                    then "Diagram generation timed out. Try a simpler diagram."
                    else "Failed to generate diagram")
                   (Some (errorMessage e)) |},
      withFaults fs db)).
Proof.
  intros Hf. pose proof (nextFault_scripted db e fs Hf) as Hn. split_and!.
  - intros uuid t1 t2. unfold createEndpoint, createSession, run_insert.
    cbn [row_id]. by rewrite Hn.
  - intros i. unfold getEndpoint, getSession, get_by_id. by rewrite Hn.
  - intros i. unfold deleteEndpoint, deleteSession, run_delete. by rewrite Hn.
  - intros req envKey rd agent msg key Hm Hmne Hk Hkne. unfold chatHandler.
    rewrite (chatTry_valid req envKey rd agent db msg key Hm Hmne Hk Hkne).
    unfold getSession, get_by_id, createSession, run_insert. cbn [row_id].
    rewrite Hn. destruct (truthyString (req_sessionId req)); by destruct e.
Qed.

Lemma storage_failure_answers_witness :
  chatHandler (drawRequest None) None sampleReadings echoAgent
    (withFaults [Some (ErrorObj "SQLITE_BUSY: busy timeout expired")] sampleDb) =
  ({| status := 504;
      body := ErrorBody "Diagram generation timed out. Try a simpler diagram."
                (Some "SQLITE_BUSY: busy timeout expired") |},
   sampleDb).
Proof.
  destruct (storage_failure_answers
              (withFaults [Some (ErrorObj "SQLITE_BUSY: busy timeout expired")]
                 sampleDb)
              (ErrorObj "SQLITE_BUSY: busy timeout expired") [] eq_refl)
    as (_ & _ & _ & Hchat).
  exact (Hchat (drawRequest None) None sampleReadings echoAgent
           "draw a load balancer" "sk-test" eq_refl ltac:(done) eq_refl
           ltac:(done)).
Defined.

End ServerFacts.

(** * Properties of the database wrapper *)

Module DbFacts.
Import Db.

Lemma call_tidy c h w :
  db w = Some h → handleOf c = h → tidy w → tidy (call c w).
Proof.
  intros Hdb Hc [Hw Hlog]. unfold tidy, call in *. simpl. rewrite Hdb in *.
  destruct Hw as [Ho Hin]. split.
  - split; [done|]. set_solver.
  - intros c' [Hc'| ->%list_elem_of_singleton]%elem_of_app; [by apply Hlog|].
    lia.
Qed.

Lemma run_tidy sql params err w : tidy w → tidy (run sql params err w).2.
Proof.
  intros H. unfold run. destruct (db w) as [h|] eqn:Hdb; [|exact H].
  by apply (call_tidy _ h).
Qed.

Lemma run_db sql params err w : db (run sql params err w).2 = db w.
Proof. unfold run. by destruct (db w) eqn:Hdb. Qed.

Lemma step_tidy w w' : step w w' → tidy w → tidy w'.
Proof.
  intros Hstep H. destruct Hstep.
  - unfold connect. destruct mkdir; [exact H|]. destruct H as [Hw Hlog].
    unfold tidy. simpl. split.
    + split; [done|]. set_solver.
    + intros c [Hc| ->%list_elem_of_singleton]%elem_of_app.
      * specialize (Hlog c Hc). lia.
      * simpl. lia.
  - unfold initialize. destruct (db w) as [h|] eqn:Hdb; [|exact H].
    pose proof (run_tidy createTableSQL [] e1 w H) as H1.
    destruct (run createTableSQL [] e1 w) as [[u|e] w1]; [|exact H1].
    by apply run_tidy.
  - by apply run_tidy.
  - unfold get. destruct (db w) as [h|] eqn:Hdb; [|exact H].
    by apply (call_tidy _ h).
  - unfold all. destruct (db w) as [h|] eqn:Hdb; [|exact H].
    by apply (call_tidy _ h).
  - unfold close. destruct (db w) as [h|] eqn:Hdb; [|exact H].
    by apply (call_tidy _ h).
Qed.

Lemma reachable_tidy w : reachable w → tidy w.
Proof.
  unfold reachable. revert w. apply rtc_ind_r.
  - split; [done|]. intros c Hc. by apply elem_of_nil in Hc.
  - intros w w' _ Hstep IH. by apply (step_tidy w).
Qed.

(** X28. The guard [Database not connected] concerns only a wrapper on
    which no handle was ever constructed. In every state the wrapper can
    reach through its methods, whatever the driver answers: either
    [this.db] is unset, and then no handle has been constructed and the
    driver has not been called at all, while [run], [get], [all] and
    [initialize] reject with the guard's error and [close] resolves, all
    without a driver call; or [this.db] is the handle constructed last,
    whether or not its opening succeeded and whether or not it has been
    closed since, and then every [run] is passed on to the driver on that
    handle and settles as the driver says. *)
Theorem guard_only_before_first_connect w :
  reachable w →
  match db w with
  | None =>
      opened w = 0%nat ∧ driver w = [] ∧
      (∀ sql params err, run sql params err w = (Threw notConnected, w)) ∧
      (∀ T sql params (a : result (option T)),
         get sql params a w = (Threw notConnected, w)) ∧
      (∀ T sql params (a : result (list T)),
         all sql params a w = (Threw notConnected, w)) ∧
      (∀ e1 e2, initialize e1 e2 w = (Threw notConnected, w)) ∧
      (∀ err, close err w = (Ok (), w))
  | Some h =>
      opened w = S h ∧ OpenFile h ∈ driver w ∧
      ∀ sql params err,
        run sql params err w = (settle err (), call (RunSql h sql params) w)
  end.
Proof.
  intros [Hw _]%reachable_tidy.
  unfold run, get, all, initialize, close.
  destruct (db w) as [h|]; destruct Hw as [Ho Hd]; by split_and!.
Qed.

Lemma guard_only_before_first_connect_witness :
  run "DELETE FROM sessions WHERE id = ?" [Some "a"] None initial =
    (Threw notConnected, initial) ∧
  (run "DELETE FROM sessions WHERE id = ?" [Some "a"] None
     (close None (connect None (Some (ErrorObj "SQLITE_CANTOPEN")) initial).2).2).1 =
    Ok ().
Proof.
  split.
  - pose proof (guard_only_before_first_connect initial (rtc_refl _ _)) as H.
    simpl in H. destruct H as (_ & _ & Hrun & _). apply Hrun.
  - assert (reachable
              (close None
                 (connect None (Some (ErrorObj "SQLITE_CANTOPEN")) initial).2).2)
      as Hr.
    { eapply rtc_r; [eapply rtc_r; [apply rtc_refl|]|].
      - apply (step_connect None (Some (ErrorObj "SQLITE_CANTOPEN"))).
      - apply (step_close None). }
    pose proof (guard_only_before_first_connect _ Hr) as H.
    simpl in H. destruct H as (_ & _ & Hrun).
    etrans; [exact (f_equal fst (Hrun _ _ _))|]. reflexivity.
Defined.

(** X29. [close] does not clear [this.db], and [connect] does not close the
    handle it replaces. In every reachable state holding a handle [h]:
    after [close], with whatever result, the wrapper still holds [h], so
    that a later [run] is sent to the driver on the closed handle and a
    second [close] calls the driver's [close] on it again; and a further
    [connect] constructs handle [h + 1] and holds it from then on, with no
    [close] of [h] sent to the driver. *)
Theorem close_keeps_handle w h :
  reachable w → db w = Some h →
  (∀ err, db (close err w).2 = Some h) ∧
  (∀ err sql params err',
     driver (run sql params err' (close err w).2).2 =
     (driver w ++ [CloseHandle h; RunSql h sql params])%list) ∧
  (∀ err err',
     driver (close err' (close err w).2).2 =
     (driver w ++ [CloseHandle h; CloseHandle h])%list) ∧
  (∀ err,
     db (connect None err w).2 = Some (S h) ∧
     driver (connect None err w).2 = (driver w ++ [OpenFile (S h)])%list).
Proof.
  intros [Hw _]%reachable_tidy Hdb. rewrite Hdb in Hw. destruct Hw as [Ho _].
  unfold close, run, connect. rewrite Hdb. simpl. rewrite Hdb. simpl.
  rewrite Ho. split_and!; intros; by rewrite <- ?app_assoc.
Qed.

Lemma close_keeps_handle_witness :
  driver (close None (close None (connect None None initial).2).2).2 =
  [OpenFile 0; CloseHandle 0; CloseHandle 0].
Proof.
  assert (reachable (connect None None initial).2) as Hr.
  { eapply rtc_r; [apply rtc_refl|]. apply (step_connect None None). }
  destruct (close_keeps_handle (connect None None initial).2 0%nat Hr eq_refl)
    as (_ & _ & Hcc & _).
  exact (Hcc None None).
Defined.

End DbFacts.

(** * Properties of the OpenAI adapter *)

Module LLMFacts.
Import LLM.

Lemma delaysFrom_S delay k :
  delaysFrom delay (S k) = delay :: delaysFrom (delay * 2) k.
Proof.
  unfold delaysFrom. simpl. f_equal; [lia|].
  rewrite <- fmap_S_seq, <- list_fmap_compose. apply list_fmap_ext.
  intros _ i _. simpl. rewrite Nat2Z.inj_succ, Z.pow_succ_r; lia.
Qed.

Lemma rateLimited_dec {Response : Type} (p : pass Response) :
  {rateLimited p} + {¬ rateLimited p}.
Proof.
  destruct p as [r|[b|[s|] e]].
  - right. by intros [? [=]].
  - right. by intros [? [=]].
  - destruct (decide (s = 429%Z)) as [Hs|Hs].
    + left. exists e. by rewrite Hs.
    + right. intros [? [=]]. done.
  - right. by intros [? [=]].
Qed.

Lemma callLoop_retry {Response : Type} (api : nat → pass Response) attempts
    delay slept error :
  (attempts + 1 < maxAttempts)%nat →
  api attempts = Catches (Value (Some 429%Z) error) →
  callLoop api attempts delay slept =
  callLoop api (attempts + 1) (delay * 2)%Z (slept ++ [delay])%list.
Proof.
  intros Hlt Hp. rewrite (callLoop_equation_1 api attempts).
  destruct (lt_dec attempts maxAttempts) as [l|]; [|lia]. simpl.
  rewrite Hp. simpl. by rewrite bool_decide_eq_true_2 by done.
Qed.

Lemma callLoop_stop {Response : Type} (api : nat → pass Response) attempts
    delay slept :
  (attempts < maxAttempts)%nat →
  S attempts = maxAttempts ∨ ¬ rateLimited (api attempts) →
  callLoop api attempts delay slept = (outcome (api attempts), slept).
Proof.
  intros Hlt Hstop. rewrite (callLoop_equation_1 api attempts).
  destruct (lt_dec attempts maxAttempts) as [l|]; [|lia]. simpl.
  destruct (api attempts) as [r|[b|status error]] eqn:Hp; [done|done|]. simpl.
  destruct Hstop as [Hlast|Hnot].
  - rewrite (bool_decide_eq_false_2 (attempts + 1 < maxAttempts)%nat) by lia.
    by rewrite andb_false_r.
  - destruct (bool_decide (status = Some 429%Z)) eqn:Hs; [|done].
    apply bool_decide_eq_true_1 in Hs as ->. destruct Hnot. by exists error.
Qed.

Lemma callLoop_run {Response : Type} (api : nat → pass Response) k :
  ∀ attempts delay slept,
    (attempts + k < maxAttempts)%nat →
    (∀ i, (i < k)%nat → rateLimited (api (attempts + i)%nat)) →
    S (attempts + k) = maxAttempts ∨ ¬ rateLimited (api (attempts + k)%nat) →
    callLoop api attempts delay slept =
    (outcome (api (attempts + k)%nat), (slept ++ delaysFrom delay k)%list).
Proof.
  induction k as [|k IH]; intros attempts delay slept Hlt Hlim Hstop.
  - rewrite Nat.add_0_r in *. rewrite callLoop_stop by done.
    unfold delaysFrom. simpl. by rewrite app_nil_r.
  - destruct (Hlim 0%nat ltac:(lia)) as [error Hp]. rewrite Nat.add_0_r in Hp.
    rewrite (callLoop_retry api attempts delay slept error) by (done || lia).
    rewrite (IH (attempts + 1)%nat).
    + replace (attempts + 1 + k)%nat with (attempts + S k)%nat by lia.
      by rewrite delaysFrom_S, <- app_assoc.
    + lia.
    + intros i Hi. replace (attempts + 1 + i)%nat with (attempts + S i)%nat by lia.
      apply Hlim. lia.
    + by replace (attempts + 1 + k)%nat with (attempts + S k)%nat by lia.
Qed.

Lemma lastPass_exists {Response : Type} (api : nat → pass Response) :
  ∃ k, lastPass api k.
Proof.
  unfold lastPass, maxAttempts.
  destruct (rateLimited_dec (api 0%nat)) as [H0|H0];
    [|exists 0%nat; split_and!; [lia | intros; lia | by right]].
  destruct (rateLimited_dec (api 1%nat)) as [H1|H1];
    [|exists 1%nat; split_and!;
       [lia | intros i Hi; by replace i with 0%nat by lia | by right]].
  destruct (rateLimited_dec (api 2%nat)) as [H2|H2];
    [|exists 2%nat; split_and!;
       [lia | intros [|[|i]] Hi; (done || lia) | by right]].
  destruct (rateLimited_dec (api 3%nat)) as [H3|H3];
    [|exists 3%nat; split_and!;
       [lia | intros [|[|[|i]]] Hi; (done || lia) | by right]].
  exists 4%nat. split_and!; [lia | intros [|[|[|[|i]]]] Hi; (done || lia) | by left].
Qed.

(** X30. The retry loop of [callLLM] ends with what a pass gave, after a
    doubling backoff. There is always a pass that ends the loop: the first
    one, among the first five, that is not a rate limit (a caught value
    whose [status] is 429), or else the fifth; and for that pass, number
    [k] counting from 0, [callLLM] returns the response of the pass, or
    throws the very value the pass caught, or, when that value is [null]
    or [undefined], throws the [TypeError] of reading its [status]; it has
    then slept [2000 * 2^i] ms after pass [i] for each [i < k] and made no
    further pass. In particular five rate limits in a row end with the
    fifth rate-limit error after delays of 2, 4, 8 and 16 seconds, and the
    [throw new Error('Max retry attempts reached')] after the loop is
    never reached. *)
Theorem callLLM_backoff {Response : Type} (api : nat → pass Response) :
  (∃ k, lastPass api k) ∧
  ∀ k, lastPass api k →
    callLLM api =
    (match api k with
     | Returns r => Ok r
     | Catches (Value _ error) => Threw error
     | Catches (Nullish true) =>
         Threw (ErrorObj "Cannot read properties of null (reading 'status')")
     | Catches (Nullish false) =>
         Threw (ErrorObj "Cannot read properties of undefined (reading 'status')")
     end,
     (λ i, (2000 * 2 ^ Z.of_nat i)%Z) <$> seq 0 k).
Proof.
  split; [apply lastPass_exists|].
  intros k (Hlt & Hlim & Hstop). unfold callLLM.
  rewrite (callLoop_run api k 0%nat 2000%Z [] Hlt Hlim Hstop). simpl.
  unfold outcome, statusOfNullish, delaysFrom.
  by destruct (api k) as [r|[[]|status error]].
Qed.

Lemma callLLM_backoff_witness :
  callLLM (λ i, if decide (i < 2)%nat
                then Catches (Value (Some 429%Z) (ErrorObj "Rate limit reached"))
                else Returns "ok") =
    (Ok "ok", [2000; 4000]%Z) ∧
  callLLM (Response := string)
    (λ _, Catches (Value (Some 429%Z) (ErrorObj "Rate limit reached"))) =
    (Threw (ErrorObj "Rate limit reached"), [2000; 4000; 8000; 16000]%Z) ∧
  callLLM (Response := string)
    (λ i, if decide (i < 1)%nat
          then Catches (Value (Some 429%Z) (ErrorObj "Rate limit reached"))
          else Catches (Nullish true)) =
    (Threw (ErrorObj "Cannot read properties of null (reading 'status')"),
     [2000]%Z).
Proof.
  split; [|split].
  - destruct (callLLM_backoff
                (λ i, if decide (i < 2)%nat
                      then Catches (Value (Some 429%Z) (ErrorObj "Rate limit reached"))
                      else Returns "ok")) as [_ H].
    apply (H 2%nat). split; [|split].
    + unfold maxAttempts. lia.
    + intros i Hi. exists (ErrorObj "Rate limit reached").
      by rewrite decide_True by lia.
    + right. by intros [e [=]].
  - destruct (callLLM_backoff (Response := string)
                (λ _, Catches (Value (Some 429%Z) (ErrorObj "Rate limit reached"))))
      as [_ H].
    apply (H 4%nat). split; [|split].
    + unfold maxAttempts. lia.
    + intros i Hi. by exists (ErrorObj "Rate limit reached").
    + by left.
  - destruct (callLLM_backoff (Response := string)
                (λ i, if decide (i < 1)%nat
                      then Catches (Value (Some 429%Z) (ErrorObj "Rate limit reached"))
                      else Catches (Nullish true))) as [_ H].
    apply (H 1%nat). split; [|split].
    + unfold maxAttempts. lia.
    + intros i Hi. exists (ErrorObj "Rate limit reached").
      by rewrite decide_True by lia.
    + right. by intros [e [=]].
Defined.

End LLMFacts.
